(** * Sports proxy: extraction, resolve/enrich pipeline, tiered cache, event stream

    A shallow embedding of the JavaScript sources of the sports proxy worker:
    the cache manager ([CacheManager]: [_generateKey], [get], [set], [_setHot],
    [_setCold], [_isValid]), the Responses API orchestrator
    ([_extractToolCalls], [_processToolCalls], [_enrichToolArguments],
    [_executeSingleTool], [_processStreamingRequest],
    [processResponsesAPIRequest], [_estimateTokens]) and the tool handler's
    [extractToolCalls].

    JavaScript values are an inductive type, objects are association lists in
    insertion order, asynchronous methods are computations in a state and
    exception monad over a [World] that holds the worker's bindings. *)

From Stdlib Require Import ZArith QArith Qround Ascii String.
From stdpp Require Import gmap strings list fin_maps pretty sorting.

Set Warnings "-register-all".

Close Scope Q_scope.
Open Scope string_scope.
Open Scope list_scope.

(** ** JavaScript values *)

(** Numbers are the integers (ids, counts, millisecond timestamps); [NaN],
    fractions and functions do not occur in tool arguments or payloads. *)
Inductive JsVal : Type :=
  | JUndefined
  | JNull
  | JBool (b : bool)
  | JNum (n : Z)
  | JStr (s : string)
  | JArr (items : list JsVal)
  | JObj (props : list (string * JsVal)).

(** An object: its own enumerable string-keyed properties, insertion order. *)
Abbreviation Obj := (list (string * JsVal)).

(** [!!v]: the values that count as true in a condition. *)
Definition truthy (v : JsVal) : bool :=
  match v with
  | JUndefined | JNull => false
  | JBool b => b
  | JNum n => negb (n =? 0)%Z
  | JStr s => negb (String.eqb s "")
  | JArr _ | JObj _ => true
  end.

(** [Array.prototype.join]. *)
Fixpoint join (sep : string) (l : list string) : string :=
  match l with
  | [] => ""
  | [x] => x
  | x :: rest => x +:+ sep +:+ join sep rest
  end.

(** String conversion, as done by a template literal and by [toString()] on
    numbers, strings, booleans, arrays and plain objects: the text for a
    value that converts (see [printable] below for the objects that do not)
    and for an integer below 10^21 in magnitude, which is printed in full
    digits. *)
Fixpoint js_toString (v : JsVal) : string :=
  match v with
  | JUndefined => "undefined"
  | JNull => "null"
  | JBool true => "true"
  | JBool false => "false"
  | JNum n => pretty n
  | JStr s => s
  | JArr items =>
      join ","
        ((fix each (l : list JsVal) : list string :=
            match l with
            | [] => []
            | JUndefined :: rest | JNull :: rest => "" :: each rest
            | x :: rest => js_toString x :: each rest
            end) items)
  | JObj _ => "[object Object]"
  end.

(** [o[k]] on an object: the first binding of [k], [undefined] when absent. *)
Fixpoint obj_get (o : Obj) (k : string) : JsVal :=
  match o with
  | [] => JUndefined
  | (k', v) :: rest => if String.eqb k' k then v else obj_get rest k
  end.

(** [k in o] for own properties. *)
Definition obj_has (o : Obj) (k : string) : bool :=
  existsb (fun kv => String.eqb kv.1 k) o.

(** [o[k] = v]: overwrite in place when the key exists, append otherwise. *)
Fixpoint obj_set (o : Obj) (k : string) (v : JsVal) : Obj :=
  match o with
  | [] => [(k, v)]
  | (k', v') :: rest =>
      if String.eqb k' k then (k, v) :: rest else (k', v') :: obj_set rest k v
  end.

(** [Object.keys(o)]. *)
Definition Object_keys (o : Obj) : list string := o.*1.

(** [v.k] on any value that is not [null] or [undefined]: only plain objects
    carry own properties here. *)
Definition prop (v : JsVal) (k : string) : JsVal :=
  match v with
  | JObj o => obj_get o k
  | _ => JUndefined
  end.

(** Objects of the program have unique keys. *)
Definition wf_obj (o : Obj) : Prop := NoDup (Object_keys o).

(** The property names every plain object inherits from [Object.prototype]. *)
Definition Object_prototype_keys : list string :=
  ["constructor"; "__defineGetter__"; "__defineSetter__"; "hasOwnProperty";
   "__lookupGetter__"; "__lookupSetter__"; "isPrototypeOf";
   "propertyIsEnumerable"; "toString"; "valueOf"; "__proto__";
   "toLocaleString"].

(** A name under which a table written as an object literal answers with
    an inherited property instead of [undefined]; the tables of tool names
    are read here for the other names only. *)
Definition inherited (key : string) : bool :=
  existsb (String.eqb key) Object_prototype_keys.

(** [v == null]: the values whose properties cannot be read. *)
Definition nullish (v : JsVal) : bool :=
  match v with
  | JUndefined | JNull => true
  | _ => false
  end.

(** Values whose properties can all be read: reading [t.name] of a tool or
    [memory.key] of a memory does not throw. *)
Definition readable (vs : list JsVal) : Prop :=
  Forall (fun v => nullish v = false) vs.

(** A [memories] argument that is not an array, or an array of readable
    values. *)
Definition readable_memories (memories : JsVal) : Prop :=
  match memories with
  | JArr items => readable items
  | _ => True
  end.

(** ** Strings *)

Definition lower_ascii (c : ascii) : ascii :=
  let n := nat_of_ascii c in
  if (65 <=? n)%nat && (n <=? 90)%nat then ascii_of_nat (n + 32) else c.

(** [String.prototype.toLowerCase] on the ASCII letters. *)
Fixpoint toLowerCase (s : string) : string :=
  match s with
  | EmptyString => EmptyString
  | String c rest => String (lower_ascii c) (toLowerCase rest)
  end.

(** [s.includes(t)]: [t] occurs in [s] as a contiguous substring. *)
Fixpoint includes (s t : string) : bool :=
  String.prefix t s ||
  match s with
  | EmptyString => false
  | String _ rest => includes rest t
  end.

(** [s.split(' ')]: the pieces between single spaces, never an empty list. *)
Fixpoint split_space (s : string) : list string :=
  match s with
  | EmptyString => [""]
  | String c rest =>
      if Ascii.eqb c " "%char then "" :: split_space rest
      else match split_space rest with
           | [] => [String c ""]
           | w :: ws => String c w :: ws
           end
  end.

(** [Array.prototype.sort()] without comparator on strings: ascending by code
    unit, which for strings is the lexicographic order of [String.leb]. *)
Definition str_le (a b : string) : Prop := String.leb a b = true.

#[global] Instance str_le_dec : RelDecision str_le :=
  fun a b => decide (String.leb a b = true).

Definition sort_strings (l : list string) : list string := merge_sort str_le l.

(** ** Cache keys (cache manager) *)

(** [_generateKey(tool, args)]. *)
Definition _generateKey (tool : string) (args : Obj) : string :=
  let keys := sort_strings (Object_keys args) in
  let sortedPairs :=
    join "|" (map (fun key => key +:+ ":" +:+ js_toString (obj_get args key)) keys) in
  "sports:" +:+ tool +:+ ":" +:+ sortedPairs.



(** ** Outcomes, host services and the worker's world *)

(** The outcome of a call: a value, or a thrown [Error] with its message. *)
Inductive Res (A : Type) : Type :=
  | Ok (a : A)
  | Throw (message : string).
Arguments Ok {A} a.
Arguments Throw {A} message.

(** What the program takes from its host: the JSON built-ins, the service
    binding that [_routeToolCall] calls, and the schema transforms of
    [_normalizeResult]. [mcp_fetch request service] is
    [mcpService.fetch(new Request(..., { body: JSON.stringify(request) }))]
    with the reading of the response that follows it in [_routeToolCall]: a
    response that is not [ok], or whose body carries an [error], throws;
    otherwise the value is [result.result]. *)
Class Host := {
  Remote : Type;
  JSON_stringify : JsVal -> option string;
  JSON_stringify_indent : JsVal -> option string;
  JSON_parse : string -> Res JsVal;
  mcp_fetch : JsVal -> Remote -> Res JsVal * Remote;
  _normalizeResult : string -> JsVal -> Res JsVal;
}.

(** A stored cache record: [{payload, timestamp}] in the hot tier,
    [{payload, timestamp, tool, args}] in the cold tier. *)
Record CachedData := {
  payload : JsVal;
  timestamp : Z;
  tool_of : option string;
  args_of : option Obj;
}.

(** A tier binding (KV namespace or R2 bucket): the stored records, and the
    failures its next operations will meet ([Some msg]: the operation throws
    [msg]; an exhausted list means no further failure). The hot tier's native
    expiry after [expirationTtl] is not acted on: an entry stays readable, and
    only [_isValid] decides whether it is still served. *)
Record Tier := {
  store : gmap string CachedData;
  faults : list (option string);
}.

(** The named server-sent events. *)
Inductive Event : Type :=
  | response_created (id : string) (created_at_ms : Z)
  | response_in_progress
  | tool_call (name : string) (arguments : Obj)
  | tool_result (tool : string) (result : JsVal)
  | response_output_text_delta (delta : string)
  | response_completed (id : string)
  | response_error (error : string).

(** What reached the stream writer: an accepted chunk, or a call of [close()]. *)
Inductive WriterOp : Type :=
  | Chunk (e : Event)
  | Close.

Record Writer := {
  ops : list WriterOp;
  wfaults : list (option string);
}.

Section World.
Context `{Host}.

(** The environment bindings of the worker, its clock and the stream writer
    of the request being served. [CACHE_TTL_HOT] and [CACHE_TTL_COLD] hold
    what [parseInt] makes of the variables ([None] for [NaN]). The clock is
    read in milliseconds and stands still while one method runs; [at_time]
    moves it between two calls. *)
Record World := {
  clock : Z;
  CACHE_TTL_HOT : option Z;
  CACHE_TTL_COLD : option Z;
  SPORTS_CACHE : option Tier;
  SPORTS_STORAGE : option Tier;
  MLB_MCP : option Remote;
  writer : Writer;
}.

Definition with_kv (kv : option Tier) (w : World) : World :=
  {| clock := clock w; CACHE_TTL_HOT := CACHE_TTL_HOT w;
     CACHE_TTL_COLD := CACHE_TTL_COLD w; SPORTS_CACHE := kv;
     SPORTS_STORAGE := SPORTS_STORAGE w; MLB_MCP := MLB_MCP w;
     writer := writer w |}.

Definition with_r2 (r2 : option Tier) (w : World) : World :=
  {| clock := clock w; CACHE_TTL_HOT := CACHE_TTL_HOT w;
     CACHE_TTL_COLD := CACHE_TTL_COLD w; SPORTS_CACHE := SPORTS_CACHE w;
     SPORTS_STORAGE := r2; MLB_MCP := MLB_MCP w; writer := writer w |}.

Definition with_remote (r : option Remote) (w : World) : World :=
  {| clock := clock w; CACHE_TTL_HOT := CACHE_TTL_HOT w;
     CACHE_TTL_COLD := CACHE_TTL_COLD w; SPORTS_CACHE := SPORTS_CACHE w;
     SPORTS_STORAGE := SPORTS_STORAGE w; MLB_MCP := r; writer := writer w |}.

Definition with_writer (wr : Writer) (w : World) : World :=
  {| clock := clock w; CACHE_TTL_HOT := CACHE_TTL_HOT w;
     CACHE_TTL_COLD := CACHE_TTL_COLD w; SPORTS_CACHE := SPORTS_CACHE w;
     SPORTS_STORAGE := SPORTS_STORAGE w; MLB_MCP := MLB_MCP w; writer := wr |}.

(** Time passes between two requests. *)
Definition at_time (t : Z) (w : World) : World :=
  {| clock := t; CACHE_TTL_HOT := CACHE_TTL_HOT w;
     CACHE_TTL_COLD := CACHE_TTL_COLD w; SPORTS_CACHE := SPORTS_CACHE w;
     SPORTS_STORAGE := SPORTS_STORAGE w; MLB_MCP := MLB_MCP w;
     writer := writer w |}.

(** An [async] method: it reads and updates the world and returns or throws. *)
Definition M (A : Type) : Type := World -> Res A * World.

#[global] Instance M_ret : MRet M := fun A a w => (Ok a, w).

#[global] Instance M_bind : MBind M := fun A B f m w =>
  match m w with
  | (Ok a, w') => f a w'
  | (Throw msg, w') => (Throw msg, w')
  end.

Definition throw {A} (msg : string) : M A := fun w => (Throw msg, w).

(** [try { body } catch (error) { handler(error.message) }]. *)
Definition try_catch {A} (body : M A) (handler : string -> M A) : M A :=
  fun w =>
    match body w with
    | (Ok a, w') => (Ok a, w')
    | (Throw msg, w') => handler msg w'
    end.

(** [try { body } finally { cleanup }]: the cleanup always runs; when it
    throws, its error replaces the outcome of the body. *)
Definition try_finally {A} (body : M A) (cleanup : M unit) : M A :=
  fun w =>
    let '(r, w') := body w in
    match cleanup w' with
    | (Ok _, w'') => (r, w'')
    | (Throw msg, w'') => (Throw msg, w'')
    end.

Definition ask {A} (f : World -> A) : M A := fun w => (Ok (f w), w).

(** [Date.now()], in milliseconds. *)
Definition Date_now : M Z := ask clock.

(** A pure computation that may throw. *)
Definition lift {A} (r : Res A) : M A := fun w => (r, w).

(** ** Tier bindings *)

Definition next_fault (t : Tier) : option string * Tier :=
  match faults t with
  | [] => (None, t)
  | f :: rest => (f, {| store := store t; faults := rest |})
  end.

Definition tier_get (t : Tier) (key : string) : Res (option CachedData) * Tier :=
  let '(f, t') := next_fault t in
  match f with
  | Some msg => (Throw msg, t')
  | None => (Ok (store t' !! key), t')
  end.

Definition tier_put (t : Tier) (key : string) (d : CachedData) : Res unit * Tier :=
  let '(f, t') := next_fault t in
  match f with
  | Some msg => (Throw msg, t')
  | None => (Ok tt, {| store := <[key := d]> (store t'); faults := faults t' |})
  end.

(** [this.kv?.get(key, { type: 'json' })]. *)
Definition kv_get (key : string) : M (option CachedData) := fun w =>
  match SPORTS_CACHE w with
  | None => (Ok None, w)
  | Some t => let '(r, t') := tier_get t key in (r, with_kv (Some t') w)
  end.

(** [this.r2?.get(key)] followed by [coldObject.json()]. *)
Definition r2_get (key : string) : M (option CachedData) := fun w =>
  match SPORTS_STORAGE w with
  | None => (Ok None, w)
  | Some t => let '(r, t') := tier_get t key in (r, with_r2 (Some t') w)
  end.

(** ** Cache manager *)

(** [this.hotTTL = parseInt(env.CACHE_TTL_HOT) || 10], in seconds. *)
Definition hotTTL (w : World) : Z :=
  match CACHE_TTL_HOT w with
  | Some n => if (n =? 0)%Z then 10 else n
  | None => 10
  end.

(** [this.coldTTL = parseInt(env.CACHE_TTL_COLD) || 300], in seconds. *)
Definition coldTTL (w : World) : Z :=
  match CACHE_TTL_COLD w with
  | Some n => if (n =? 0)%Z then 300 else n
  | None => 300
  end.

Definition Qltb (x y : Q) : bool := negb (Qle_bool y x).

(** [_isValid(cachedData, ttlSeconds)]. *)
Definition _isValid (cachedData : CachedData) (ttlSeconds : Z) : M bool :=
  now ← Date_now;
  let age : Q := Qmake (now - timestamp cachedData) 1000 in
  mret (Qltb age (inject_Z ttlSeconds)).

(** [age < ttlSeconds] on integers: the clock counts milliseconds. *)
Definition fresh (w : World) (d : CachedData) (ttl : Z) : bool :=
  (clock w - timestamp d <? 1000 * ttl)%Z.

(** The next [n] operations of a tier meet no failure. *)
Definition healthy (n : nat) (t : Tier) : Prop :=
  Forall (fun f => f = None) (take n (faults t)).

(** [_setHot(key, data)]. *)
Definition _setHot (key : string) (data : JsVal) : M unit := fun w =>
  match SPORTS_CACHE w with
  | None => (Ok tt, w)
  | Some t =>
      let payload :=
        {| payload := data; timestamp := clock w;
           tool_of := None; args_of := None |} in
      let '(r, t') := tier_put t key payload in
      (r, with_kv (Some t') w)
  end.

(** [_setCold(key, payload)]. *)
Definition _setCold (key : string) (payload : CachedData) : M unit := fun w =>
  match SPORTS_STORAGE w with
  | None => (Ok tt, w)
  | Some t =>
      let '(r, t') := tier_put t key payload in
      (r, with_r2 (Some t') w)
  end.

(** What [get] returns on a hit. *)
Record CacheHit := {
  data : JsVal;
  source : string;
  age : Z;
}.

(** The cold tier part of [get]: a valid cold entry is promoted to the
    hot tier and returned. *)
Definition try_cold (key : string) : M (option CacheHit) :=
  coldObject ← r2_get key;
  match coldObject with
  | Some coldData =>
      coldTtl ← ask coldTTL;
      coldValid ← _isValid coldData coldTtl;
      if (coldValid : bool) then
        _setHot key (payload coldData);;
        now ← Date_now;
        mret (Some {| data := payload coldData; source := "cold";
                      age := now - timestamp coldData |})
      else mret None
  | None => mret None
  end.

(** [get(tool, args)]: hot tier first, then cold tier; any error inside
    is logged and answered with [null]. *)
Definition get (tool : string) (args : Obj) : M (option CacheHit) :=
  let key := _generateKey tool args in
  try_catch
    (hotData ← kv_get key;
     hotTtl ← ask hotTTL;
     match hotData with
     | Some d =>
         hotValid ← _isValid d hotTtl;
         if (hotValid : bool) then
           now ← Date_now;
           mret (Some {| data := payload d; source := "hot";
                         age := now - timestamp d |})
         else try_cold key
     | None => try_cold key
     end)
    (fun _ => mret None).

(** [set(tool, args, data)]: write both tiers. *)
Definition set (tool : string) (args : Obj) (data : JsVal) : M bool :=
  let key := _generateKey tool args in
  now ← Date_now;
  let payload :=
    {| payload := data; timestamp := now;
       tool_of := Some tool; args_of := Some args |} in
  try_catch
    (_setHot key data;;
     _setCold key payload;;
     mret true)
    (fun _ => mret false).




(** [shouldCache(tool, args)]: the base TTL of a tool, in seconds. *)
Definition shouldCache (tool : string) (args : Obj) : Z :=
  if String.eqb tool "get_team_info" then 300
  else if String.eqb tool "get_player_stats" then 60
  else if String.eqb tool "get_team_roster" then 3600
  else if String.eqb tool "get_schedule" then 30
  else if String.eqb tool "get_standings" then 60
  else if String.eqb tool "get_live_game" then 5
  else 60.

(** [getSmartTTL(tool, args)], with the hour of [new Date()]. *)
Definition getSmartTTL (tool : string) (args : Obj) : M Z :=
  let baseTTL := shouldCache tool args in
  now ← Date_now;
  let hour := ((now / 3600000) mod 24)%Z in
  let isDuringGames :=
    ((13 <=? hour) && (hour <=? 16) || (19 <=? hour) && (hour <=? 22))%Z in
  if isDuringGames &&
     (String.eqb tool "get_live_game" || String.eqb tool "get_player_stats")
  then mret (Z.min baseTTL 10)
  else mret baseTTL.

End World.

Arguments World {_}.
Arguments M {_} A.
Arguments CacheHit : clear implicits.

(** ** Tool calls and intent extraction *)

Record ToolCall := {
  name : string;
  arguments : Obj;
}.

(** [v === s] for a string literal [s]. *)
Definition is_str (v : JsVal) (s : string) : bool :=
  match v with
  | JStr s' => String.eqb s' s
  | _ => false
  end.

Definition intentPatterns_team_info : list string :=
  ["about"; "info"; "information"; "details"; "tell me about"].
Definition intentPatterns_roster : list string :=
  ["roster"; "players"; "team members"; "lineup"].
Definition intentPatterns_stats : list string :=
  ["stats"; "statistics"; "performance"; "numbers"].
Definition intentPatterns_schedule : list string :=
  ["schedule"; "games"; "when"; "playing"].
Definition intentPatterns_standings : list string :=
  ["standings"; "rankings"; "position"; "place"].

(** [patterns.some(p => inputText.includes(p))]. *)
Definition some_includes (inputText : string) (patterns : list string) : bool :=
  existsb (fun p => includes inputText p) patterns.

(** [patterns.find(p => inputText.includes(p))], as the value it yields. *)
Definition find_includes (inputText : string) (patterns : list string) : JsVal :=
  match find (fun p => includes inputText p) patterns with
  | Some p => JStr p
  | None => JUndefined
  end.

(** The data-tool call pushed for an intent: empty arguments. *)
Definition intent_call (tool : string) : ToolCall :=
  {| name := tool; arguments := [] |}.

Definition resolver_call (tool : string) (entity : JsVal) : ToolCall :=
  {| name := tool; arguments := [("name", entity)] |}.

(** [toolCall.name === 'resolve_team' || toolCall.name === 'resolve_player']. *)
Definition isResolver (toolName : string) : bool :=
  String.eqb toolName "resolve_team" || String.eqb toolName "resolve_player".

#[global] Instance Res_ret : MRet Res := fun A a => Ok a.

#[global] Instance Res_bind : MBind Res := fun A B f r =>
  match r with
  | Ok a => f a
  | Throw msg => Throw msg
  end.

(** [s.replace(pat, rep)] with a string pattern: the first occurrence only. *)
Fixpoint replace_first (s pat rep : string) : string :=
  if String.prefix pat s
  then rep +:+ String.substring (String.length pat) (String.length s) s
  else match s with
       | EmptyString => EmptyString
       | String c rest => String c (replace_first rest pat rep)
       end.

(** ** The resolve/enrich pipeline *)

(** [{ content: [{ type: "text", text }], isError }], as [callTool] returns it. *)
Record CallResult := {
  text : option string;
  isError : bool;
}.

(** One entry of the list returned by [_processToolCalls]; an absent property
    is [None]. *)
Record ExecutionResult := {
  tool : string;
  result : option JsVal;
  error : option string;
  success : bool;
  enriched : option bool;
}.

(** [toolEntityMap[toolName]]: the entity types a tool requires. *)
Definition toolEntityMap (toolName : string) : option (list string) :=
  if String.eqb toolName "get_team_info" then Some ["team"]
  else if String.eqb toolName "get_team_roster" then Some ["team"]
  else if String.eqb toolName "get_player_stats" then Some ["player"]
  else if String.eqb toolName "get_schedule" then Some ["team"]
  else if String.eqb toolName "get_standings" then Some []
  else if String.eqb toolName "get_live_game" then Some []
  else None.

(** The argument key an entity type is injected under. *)
Definition entity_key (entityType : string) : option string :=
  if String.eqb entityType "team" then Some "teamId"
  else if String.eqb entityType "player" then Some "playerId"
  else None.

(** The body of the loop over [requiredEntities]. *)
Definition enrich_entity (resolverResults : gmap string JsVal)
    (enrichedArgs : Obj) (entityType : string) : Obj :=
  match resolverResults !! entityType with
  | Some resolvedEntity =>
      if truthy resolvedEntity && truthy (prop resolvedEntity "id") then
        if String.eqb entityType "team" then
          if negb (truthy (obj_get enrichedArgs "teamId"))
          then obj_set enrichedArgs "teamId"
                 (JStr (js_toString (prop resolvedEntity "id")))
          else enrichedArgs
        else if String.eqb entityType "player" then
          if negb (truthy (obj_get enrichedArgs "playerId"))
          then obj_set enrichedArgs "playerId"
                 (JStr (js_toString (prop resolvedEntity "id")))
          else enrichedArgs
        else enrichedArgs
      else enrichedArgs
  | None => enrichedArgs
  end.

(** [toolCall.name === 'resolve_team' ? 'team' : 'player']: the entity type
    under which a resolver result is kept. *)
Definition entity_of_resolver (toolName : string) : string :=
  if String.eqb toolName "resolve_team" then "team" else "player".

(** [_enrichToolArguments(toolCall, resolverResults)]: a copy of the call's
    arguments with the resolved ids filled in. *)
Definition _enrichToolArguments (toolCall : ToolCall)
    (resolverResults : gmap string JsVal) : Obj :=
  let enrichedArgs := arguments toolCall in
  let requiredEntities := default [] (toolEntityMap (name toolCall)) in
  foldl (enrich_entity resolverResults) enrichedArgs requiredEntities.

Definition succeeded (toolName : string) (r : JsVal) (e : option bool)
  : ExecutionResult :=
  {| tool := toolName; result := Some r; error := None; success := true;
     enriched := e |}.

Definition failed (toolName : string) (message : string) : ExecutionResult :=
  {| tool := toolName; result := None; error := Some message; success := false;
     enriched := None |}.

(** ** Text *)

Definition newline : string := String (ascii_of_nat 10) EmptyString.

Definition is_space (c : ascii) : bool :=
  let n := nat_of_ascii c in
  ((9 <=? n)%nat && (n <=? 13)%nat) || (n =? 32)%nat.

Fixpoint trim_start (s : string) : string :=
  match s with
  | EmptyString => EmptyString
  | String c rest => if is_space c then trim_start rest else s
  end.

Fixpoint trim_end (s : string) : string :=
  match s with
  | EmptyString => EmptyString
  | String c rest =>
      match trim_end rest with
      | EmptyString => if is_space c then EmptyString else String c EmptyString
      | rest' => String c rest'
      end
  end.

(** [String.prototype.trim]. *)
Definition trim (s : string) : string := trim_end (trim_start s).

(** A number that may be [NaN]. *)
Definition add_num (a b : option Z) : option Z :=
  match a, b with
  | Some x, Some y => Some (x + y)%Z
  | _, _ => None
  end.

(** [Math.ceil(n / 4)]. *)
Definition ceil_quarter (n : nat) : Z := Qceiling (Qmake (Z.of_nat n) 4).

(** [Math.ceil(length / 4)] for the own [length] property of an object.
    A number is divided as it is, [null] and booleans are converted to 0
    and 1, [undefined] gives [NaN]. A [length] that is a string, an array
    or an object is converted through its text; that conversion is not
    modelled and such a [length] is answered with [NaN] here. *)
Definition ceil_quarter_of (len : JsVal) : option Z :=
  match len with
  | JNum n => Some (Qceiling (Qmake n 4))
  | JNull | JBool false => Some 0%Z
  | JBool true => Some 1%Z
  | _ => None
  end.

(** [_estimateTokens(text)]: zero for a falsy argument, else a quarter of
    its [length], rounded up; the [length] of a value that has none gives [NaN]. *)
Definition _estimateTokens (text : JsVal) : option Z :=
  if negb (truthy text) then Some 0%Z
  else match text with
       | JStr s => Some (ceil_quarter (String.length s))
       | JArr items => Some (ceil_quarter (length items))
       | JObj o => ceil_quarter_of (obj_get o "length")
       | _ => None
       end.

Record Usage := {
  input_tokens : option Z;
  output_tokens : option Z;
  total_tokens : option Z;
}.

(** The response object, without its generated ids and creation time. *)
Inductive ApiResponse : Type :=
  | Response (output_text : string) (usage : Usage)
  | Stream.

Definition message (role content : JsVal) : JsVal :=
  JObj [("role", role); ("content", content)].

Definition system_context : string :=
  "You are a helpful MLB sports data assistant. You have access to real-time MLB data through specialized tools. Always use the available tools when users ask about current stats, scores, or team information.".

Definition default_response : string :=
  "I can help you with MLB sports data. Available tools: get_team_info, get_player_stats, get_team_roster, get_schedule, get_standings, get_live_game. What would you like to know?".

Definition greeting_response : string :=
  "Hello! I'm here and ready to help you with MLB sports data. I can provide team information, player stats, schedules, standings, and live game data. What would you like to know?".

(** The bullet of the help text, one code unit. *)
Definition bullet : string := String (ascii_of_nat 149) EmptyString.

Definition help_response : string :=
  "I can help you with MLB sports data using these tools:" +:+ newline +:+ newline
  +:+ bullet +:+ " get_team_info - Team details and information" +:+ newline
  +:+ bullet +:+ " get_player_stats - Player statistics" +:+ newline
  +:+ bullet +:+ " get_team_roster - Team roster information" +:+ newline
  +:+ bullet +:+ " get_schedule - Game schedules" +:+ newline
  +:+ bullet +:+ " get_standings - League standings" +:+ newline
  +:+ bullet +:+ " get_live_game - Live game data" +:+ newline +:+ newline
  +:+ "What specific information are you looking for?".

(** [_convertMemoriesToSystemMessages(memories)]. *)
Definition _convertMemoriesToSystemMessages (memories : JsVal) : list JsVal :=
  match memories with
  | JArr items =>
      message (JStr "system") (JStr system_context) ::
      flat_map (fun memory =>
        if truthy (prop memory "key") && truthy (prop memory "value")
        then [message (JStr "system")
                (JStr ("USER_MEMORY: " +:+ js_toString (prop memory "key")
                       +:+ " = " +:+ js_toString (prop memory "value")))]
        else []) items
  | _ => []
  end.

(** [_generateContextualResponse(processedInput)]. *)
Definition _generateContextualResponse (processedInput : JsVal) : Res string :=
  let userMessages :=
    match processedInput with
    | JArr items => filter (fun msg => is_str (prop msg "role") "user" = true) items
    | _ => [JObj [("content", processedInput)]]
    end in
  let content :=
    match last userMessages with
    | Some msg => prop msg "content"
    | None => JUndefined
    end in
  let lastUserMessage := if truthy content then content else JStr "" in
  match lastUserMessage with
  | JStr s =>
      let lower := toLowerCase s in
      if includes lower "hello" || includes lower "hi"
         || includes lower "are you there"
      then Ok greeting_response
      else if includes lower "help" then Ok help_response
      else Ok default_response
  | _ => Throw "lastUserMessage.toLowerCase is not a function"
  end.

Module Orchestrator.
Section Methods.
Context `{Host}.

Definition entityPatterns_teams : list string :=
  ["yankees"; "red sox"; "dodgers"; "giants"; "mets"; "cubs"; "braves"; "astros"].
Definition entityPatterns_players : list string :=
  ["judge"; "ohtani"; "trout"; "betts"; "acuna"; "freeman"].

(** The lower-cased text matched against the patterns. *)
Definition inputText_of (input : JsVal) : Res string :=
  match input with
  | JStr s => Ok (toLowerCase s)
  | _ =>
      match JSON_stringify input with
      | Some t => Ok (toLowerCase t)
      | None => Throw "Cannot read properties of undefined (reading 'toLowerCase')"
      end
  end.

(** [tools.some(t => t.name === toolName)]. *)
Definition has_tool (tools : list JsVal) (toolName : string) : bool :=
  existsb (fun t => is_str (prop t "name") toolName) tools.

(** [_extractToolCalls(input, tools)] of the orchestrator. *)
Definition _extractToolCalls (input : JsVal) (tools : list JsVal)
  : Res (list ToolCall) :=
  match tools with
  | [] => Ok []
  | _ =>
      inputText ← inputText_of input;
      let hasTeamEntity := some_includes inputText entityPatterns_teams in
      let hasPlayerEntity := some_includes inputText entityPatterns_players in
      if hasTeamEntity || hasPlayerEntity then
        let team :=
          if hasTeamEntity && has_tool tools "resolve_team"
          then [resolver_call "resolve_team"
                  (find_includes inputText entityPatterns_teams)]
          else [] in
        let player :=
          if hasPlayerEntity && has_tool tools "resolve_player"
          then [resolver_call "resolve_player"
                  (find_includes inputText entityPatterns_players)]
          else [] in
        let action :=
          if some_includes inputText intentPatterns_roster
             && has_tool tools "get_team_roster"
          then [intent_call "get_team_roster"]
          else if some_includes inputText intentPatterns_team_info
                  && has_tool tools "get_team_info"
          then [intent_call "get_team_info"]
          else if some_includes inputText intentPatterns_stats
                  && has_tool tools "get_player_stats" && hasPlayerEntity
          then [intent_call "get_player_stats"]
          else [] in
        Ok (team ++ player ++ action)
      else Ok []
  end.

(** *** Requests to the service *)

(** [commandMap[toolName]] of [_routeToolCall], when it is truthy. Under an
    inherited name the table answers with a property of [Object.prototype]:
    the prototype itself for [__proto__], a function otherwise. A function
    is rendered as [undefined], whose fate it shares: no [case] of
    [_buildMCPRequest] matches it and [JSON.stringify] leaves it out of the
    request. *)
Definition commandMap (toolName : string) : option JsVal :=
  if String.eqb toolName "resolve_team" then Some (JStr "resolve_team")
  else if String.eqb toolName "resolve_player" then Some (JStr "resolve_player")
  else if String.eqb toolName "get_team_info" then Some (JStr "getTeamInfo")
  else if String.eqb toolName "get_player_stats"
  then Some (JStr "getPlayerStats")
  else if String.eqb toolName "get_team_roster" then Some (JStr "getRoster")
  else if String.eqb toolName "get_schedule" then Some (JStr "getSchedule")
  else if String.eqb toolName "get_standings" then Some (JStr "getStandings")
  else if String.eqb toolName "get_live_game" then Some (JStr "getLiveGame")
  else if String.eqb toolName "__proto__" then Some (JObj [])
  else if inherited toolName then Some JUndefined
  else None.

(** [a || b]. *)
Definition js_or (a b : JsVal) : JsVal := if truthy a then a else b.

(** A property that is set only when its value is truthy. *)
Definition when_truthy (key : string) (v : JsVal) : Obj :=
  if truthy v then [(key, v)] else [].

(** The [params] that the [switch] of [_buildMCPRequest] builds for a
    command name. *)
Definition request_params (command : string) (args : Obj) : JsVal :=
  if String.eqb command "resolve_team" || String.eqb command "resolve_player"
  then JObj args
  else if String.eqb command "getTeamInfo" then
    JObj ((if truthy (obj_get args "teamId")
           then [("pathParams", JObj [("teamId", obj_get args "teamId")])]
           else [])
          ++ (if truthy (obj_get args "season")
              then [("queryParams", JObj [("season", obj_get args "season")])]
              else []))
  else if String.eqb command "getPlayerStats" then
    JObj [("pathParams", JObj [("playerId", obj_get args "playerId")]);
          ("queryParams",
           JObj [("stats", JStr "season");
                 ("group", js_or (obj_get args "statType") (JStr "hitting"));
                 ("season", js_or (obj_get args "season") (JStr "2025"))])]
  else if String.eqb command "getRoster" then
    JObj ([("pathParams", JObj [("teamId", obj_get args "teamId")])]
          ++ (if truthy (obj_get args "season")
              then [("queryParams", JObj [("season", obj_get args "season")])]
              else []))
  else if String.eqb command "getSchedule" then
    JObj [("queryParams",
           JObj (when_truthy "date" (obj_get args "date")
                 ++ when_truthy "teamId" (obj_get args "teamId")
                 ++ [("sportId", JStr "1")]))]
  else if String.eqb command "getStandings" then
    JObj [("queryParams",
           JObj ([("season", js_or (obj_get args "season") (JStr "2025"))]
                 ++ when_truthy "divisionId" (obj_get args "divisionId")))]
  else if String.eqb command "getLiveGame" then
    JObj [("pathParams", JObj [("gamePk", obj_get args "gameId")])]
  else JObj [].

(** [_buildMCPRequest(command, args)]: a command that is not a string
    matches no [case]. *)
Definition _buildMCPRequest (command : JsVal) (args : Obj) : JsVal :=
  JObj [("command", command);
        ("params", match command with
                   | JStr c => request_params c args
                   | _ => JObj []
                   end)].

(** [_routeToolCall(toolName, args)]: the binding is looked at first, then
    the table; only then is the service called. *)
Definition _routeToolCall (toolName : string) (args : Obj) : M JsVal :=
  fun w =>
    match MLB_MCP w with
    | None => (Throw "MLB MCP service not available", w)
    | Some mcpService =>
        match commandMap toolName with
        | None => (Throw ("Unknown tool: " +:+ toolName), w)
        | Some command =>
            let mcpRequest := _buildMCPRequest command args in
            let '(r, mcpService') := mcp_fetch mcpRequest mcpService in
            (r, with_remote (Some mcpService') w)
        end
    end.

(** *** Tool execution *)

(** [_routeToolCall] then [_normalizeResult]. *)
Definition route_and_normalize (toolName : string) (args : Obj) : M JsVal :=
  rawResult ← _routeToolCall toolName args;
  lift (_normalizeResult toolName rawResult).

(** [callTool(name, arguments_)]: every failure is turned into an
    [isError] result. *)
Definition callTool (toolName : string) (arguments_ : Obj) : M CallResult :=
  try_catch
    (normalizedResult ← route_and_normalize toolName arguments_;
     mret {| text := JSON_stringify_indent normalizedResult;
             isError := false |})
    (fun msg =>
       mret {| text := JSON_stringify_indent
                         (JObj [("error", JStr msg); ("tool", JStr toolName);
                                ("arguments", JObj arguments_)]);
               isError := true |}).

(** [_executeSingleTool(toolName, args, cache)]. *)
Definition _executeSingleTool (toolName : string) (args : Obj) : M JsVal :=
  cached ← get toolName args;
  match cached with
  | Some hit => mret (data hit)
  | None =>
      r ← callTool toolName args;
      if negb (isError r) then
        parsed ← lift (JSON_parse (default "undefined" (text r)));
        ttl ← getSmartTTL toolName args;
        set toolName args parsed;;
        mret parsed
      else throw (default "" (text r))
  end.

(** The first loop of [_processToolCalls]: resolvers. A resolver result
    with a truthy [id] is kept under its entity type. *)
Fixpoint resolve_pass (toolCalls : list ToolCall)
    (results : list ExecutionResult) (resolverResults : gmap string JsVal)
  : M (list ExecutionResult * gmap string JsVal) :=
  match toolCalls with
  | [] => mret (results, resolverResults)
  | toolCall :: rest =>
      if isResolver (name toolCall) then
        st ← try_catch
               (r ← _executeSingleTool (name toolCall) (arguments toolCall);
                let results' :=
                  results ++ [succeeded (name toolCall) r None] in
                if truthy r && truthy (prop r "id") then
                  let entityType := entity_of_resolver (name toolCall) in
                  mret (results', <[entityType := r]> resolverResults)
                else mret (results', resolverResults))
               (fun msg =>
                  mret (results ++ [failed (name toolCall) msg],
                        resolverResults));
        resolve_pass rest st.1 st.2
      else resolve_pass rest results resolverResults
  end.

(** The second loop: every other call, with enriched arguments. Under an
    inherited name [toolEntityMap[toolCall.name]] is a property of
    [Object.prototype], which the loop of [_enrichToolArguments] cannot
    iterate: the call fails before it is executed. The enriched arguments
    are a fresh object, so [enriched] is always [true]. *)
Fixpoint enrich_pass (toolCalls : list ToolCall)
    (resolverResults : gmap string JsVal) (results : list ExecutionResult)
  : M (list ExecutionResult) :=
  match toolCalls with
  | [] => mret results
  | toolCall :: rest =>
      if negb (isResolver (name toolCall)) then
        results' ← try_catch
               (if inherited (name toolCall)
                then throw "requiredEntities is not iterable"
                else
                  let enrichedArgs :=
                    _enrichToolArguments toolCall resolverResults in
                  r ← _executeSingleTool (name toolCall) enrichedArgs;
                  mret (results ++ [succeeded (name toolCall) r (Some true)]))
               (fun msg => mret (results ++ [failed (name toolCall) msg]));
        enrich_pass rest resolverResults results'
      else enrich_pass rest resolverResults results
  end.

(** [_processToolCalls(toolCalls, cache)]. *)
Definition _processToolCalls (toolCalls : list ToolCall)
  : M (list ExecutionResult) :=
  st ← resolve_pass toolCalls [] ∅;
  enrich_pass toolCalls st.2 st.1.

(** *** Formatting and usage *)

(** [JSON.stringify(v, null, 2)] inside a template literal. *)
Definition stringify_in_template (v : JsVal) : string :=
  default "undefined" (JSON_stringify_indent v).

(** [_formatToolResults(toolResults)]. *)
Definition _formatToolResults (toolResults : list ExecutionResult) : string :=
  match toolResults with
  | [] => "No tools were executed."
  | _ =>
      trim (foldl (fun output r =>
              if success r
              then output +:+ tool r +:+ ": "
                   +:+ stringify_in_template (default JUndefined (result r))
                   +:+ newline +:+ newline
              else output +:+ tool r +:+ " failed: "
                   +:+ default "undefined" (error r)
                   +:+ newline +:+ newline)
            "" toolResults)
  end.

(** [_formatSingleToolResult(toolName, result)]. *)
Definition _formatSingleToolResult (toolName : string) (r : JsVal) : string :=
  toolName +:+ " result: " +:+ stringify_in_template r.

(** [_processInputWithMemories(input, memories, previous_response_id)]. *)
Definition _processInputWithMemories (input memories previous_response_id : JsVal)
  : JsVal :=
  if truthy previous_response_id then input
  else
    let memoryMessages := _convertMemoriesToSystemMessages memories in
    let inputArray :=
      match input with
      | JStr _ => [message (JStr "user") input]
      | JArr items => items
      | _ => [message (JStr "user")
                match JSON_stringify input with
                | Some s => JStr s
                | None => JUndefined
                end]
      end in
    JArr (memoryMessages ++ inputArray).

(** *** Streaming *)

(** [writer.write(encoder.encode(...))]: the chunk is appended unless the
    writer fails. *)
Definition writer_write (e : Event) : M unit := fun w =>
  let wr := writer w in
  match wfaults wr with
  | Some msg :: rest =>
      (Throw msg, with_writer {| ops := ops wr; wfaults := rest |} w)
  | None :: rest =>
      (Ok tt, with_writer {| ops := ops wr ++ [Chunk e]; wfaults := rest |} w)
  | [] =>
      (Ok tt, with_writer {| ops := ops wr ++ [Chunk e]; wfaults := [] |} w)
  end.

(** [writer.close()]: the call is recorded, whether or not it then fails. *)
Definition writer_close : M unit := fun w =>
  let wr := writer w in
  match wfaults wr with
  | Some msg :: rest =>
      (Throw msg, with_writer {| ops := ops wr ++ [Close]; wfaults := rest |} w)
  | None :: rest =>
      (Ok tt, with_writer {| ops := ops wr ++ [Close]; wfaults := rest |} w)
  | [] =>
      (Ok tt, with_writer {| ops := ops wr ++ [Close]; wfaults := [] |} w)
  end.

(** [for (const x of xs) { await body(x) }]. *)
Fixpoint for_of {A} (xs : list A) (body : A -> M unit) : M unit :=
  match xs with
  | [] => mret tt
  | x :: rest => body x;; for_of rest body
  end.

(** One [response.output_text.delta] per piece of [responseText.split(' ')];
    the pacing delay between them has no effect on the world. *)
Definition stream_words (responseText : string) : M unit :=
  for_of (split_space responseText)
    (fun word => writer_write (response_output_text_delta (word +:+ " "))).

(** The [try] block of [_processStreamingRequest]. *)
Definition stream_body (responseId : string) (input : JsVal)
    (tools : list JsVal) : M unit :=
  now ← Date_now;
  writer_write (response_created responseId now);;
  writer_write response_in_progress;;
  toolCalls ← lift (_extractToolCalls input tools);
  match toolCalls with
  | _ :: _ =>
      for_of toolCalls (fun toolCall =>
        writer_write (tool_call (name toolCall) (arguments toolCall));;
        r ← _executeSingleTool (name toolCall) (arguments toolCall);
        writer_write (tool_result (name toolCall) r);;
        stream_words (_formatSingleToolResult (name toolCall) r))
  | [] => stream_words default_response
  end;;
  writer_write (response_completed responseId).

(** [_processStreamingRequest(writer, encoder, {...})]. *)
Definition _processStreamingRequest (responseId : string) (input : JsVal)
    (tools : list JsVal) : M unit :=
  try_finally
    (try_catch (stream_body responseId input tools)
       (fun msg => writer_write (response_error msg)))
    writer_close.

(** *** The request entry point *)

(** [_generateResponseId()], with the random suffix as drawn. *)
Definition _generateResponseId (random : string) : M string :=
  now ← Date_now;
  mret ("resp_" +:+ pretty now +:+ "_" +:+ random).

(** [processResponsesAPIRequest({ input, tools, previous_response_id,
    stream, memories })]. A streaming request is started and left to run;
    its failure does not reach the caller. *)
Definition processResponsesAPIRequest (input : JsVal) (tools : list JsVal)
    (previous_response_id : JsVal) (stream : bool) (memories : JsVal)
    (random : string) : M ApiResponse :=
  responseId ← _generateResponseId random;
  let processedInput :=
    _processInputWithMemories input memories previous_response_id in
  if stream then
    try_catch (_processStreamingRequest responseId processedInput tools)
      (fun _ => mret tt);;
    mret Stream
  else
    toolCalls ← lift (_extractToolCalls processedInput tools);
    match toolCalls with
    | [] =>
        output ← lift (_generateContextualResponse processedInput);
        mret (Response output
                {| input_tokens := _estimateTokens processedInput;
                   output_tokens := Some 50%Z;
                   total_tokens :=
                     add_num (_estimateTokens processedInput) (Some 50%Z) |})
    | _ =>
        toolResults ← _processToolCalls toolCalls;
        let output := _formatToolResults toolResults in
        mret (Response output
                {| input_tokens := _estimateTokens processedInput;
                   output_tokens := _estimateTokens (JStr output);
                   total_tokens :=
                     add_num (_estimateTokens processedInput)
                             (_estimateTokens (JStr output)) |})
    end.

(** *** Sport detection and tool menus *)

Definition sportPatterns : list (string * list string) :=
  [("mlb", ["yankees"; "red sox"; "dodgers"; "giants"; "mets"; "cubs"; "braves";
            "baseball"; "mlb"; "pitcher"; "batter"; "home run"; "strikeout";
            "innings"; "world series"; "aaron judge"; "ohtani"; "trout"]);
   ("nfl", ["patriots"; "cowboys"; "packers"; "steelers"; "chiefs"; "ravens";
            "football"; "nfl"; "quarterback"; "touchdown"; "super bowl"]);
   ("nba", ["lakers"; "warriors"; "celtics"; "heat"; "bulls"; "knicks";
            "basketball"; "nba"; "lebron"; "curry"; "playoffs"])].

(** [patterns.filter(pattern => inputText.includes(pattern)).length]. *)
Definition count_matches (inputText : string) (patterns : list string) : nat :=
  length (filter (fun pattern => includes inputText pattern = true) patterns).

(** The body of the loop over [Object.entries(sportPatterns)], on the pair
    [(maxMatches, detectedSport)]. *)
Definition detect_step (inputText : string) (best : nat * string)
    (entry : string * list string) : nat * string :=
  let matches := count_matches inputText entry.2 in
  if (best.1 <? matches)%nat then (matches, entry.1) else best.

(** [{ sport, confidence }]. *)
Record Detection := {
  sport : string;
  confidence : Q;
}.

(** [_detectSport(input)]. *)
Definition _detectSport (input : JsVal) : Res Detection :=
  inputText ← inputText_of input;
  let best := foldl (detect_step inputText) (0%nat, "mlb") sportPatterns in
  Ok {| sport := best.2;
        confidence := if (0 <? best.1)%nat then Qmake 8 10 else Qmake 3 10 |}.

Definition sportTools_mlb : list string :=
  ["resolve_team"; "resolve_player"; "get_team_info"; "get_player_stats";
   "get_team_roster"; "get_schedule"; "get_standings"; "get_live_game"].

(** [sportTools[sport]], for a name the table does not inherit. *)
Definition sportTools (sportName : string) : option (list string) :=
  if String.eqb sportName "mlb" then Some sportTools_mlb
  else if String.eqb sportName "nfl" then Some []
  else if String.eqb sportName "nba" then Some []
  else None.

(** [_buildFilteredTools(sport, confidence)]; an empty array is truthy, so
    [sportTools[sport] || sportTools.mlb] keeps it. *)
Definition _buildFilteredTools (sportName : string) (conf : Q) : list string :=
  if Qltb conf (Qmake 7 10) then sportTools_mlb
  else match sportTools sportName with
       | Some menu => menu
       | None => sportTools_mlb
       end.

End Methods.
End Orchestrator.

Module ToolHandler.
Section Extraction.
Context `{Host}.

Definition entityPatterns_teams : list string :=
  ["yankees"; "red sox"; "dodgers"; "giants"; "mets"; "cubs"; "braves"; "astros";
   "bruins"; "rangers"; "penguins"; "oilers"; "lightning"; "blackhawks"].
Definition entityPatterns_players : list string :=
  ["judge"; "ohtani"; "trout"; "betts"; "acuna"; "freeman";
   "mcdavid"; "crosby"; "ovechkin"; "pastrnak"; "draisaitl"; "mackinnon"].

(** [t.name === n || (typeof t.function === 'object' && t.function.name === n)];
    [typeof null] is ['object'], and reading [name] of [null] throws. *)
Definition names_tool (toolName : string) (t : JsVal) : Res bool :=
  if is_str (prop t "name") toolName then Ok true
  else match prop t "function" with
       | JNull => Throw "Cannot read properties of null (reading 'name')"
       | JObj f => Ok (is_str (obj_get f "name") toolName)
       | _ => Ok false
       end.

(** [tools.some(...)], stopping at the first match. *)
Fixpoint has_tool (tools : list JsVal) (toolName : string) : Res bool :=
  match tools with
  | [] => Ok false
  | t :: rest =>
      b ← names_tool toolName t;
      if (b : bool) then Ok true else has_tool rest toolName
  end.

(** Tool definitions on which the search cannot throw: no [function: null]. *)
Definition wf_tools (tools : list JsVal) : Prop :=
  Forall (fun t => prop t "function" <> JNull) tools.

(** A tool is declared, under its [name] or under its [function.name]. *)
Definition declares (tools : list JsVal) (toolName : string) : bool :=
  existsb (fun t => is_str (prop t "name") toolName
                    || is_str (prop (prop t "function") "name") toolName) tools.

(** [c && tools.some(...)]: the search runs only when [c] holds. *)
Definition and_has_tool (c : bool) (tools : list JsVal) (toolName : string)
  : Res bool :=
  if c then has_tool tools toolName else Ok false.

(** The loop over the declared tools that runs when the pattern pass
    produced no call. *)
Fixpoint explicit_tools (inputText : string) (hasEntity : bool)
    (tools : list JsVal) : Res (list ToolCall) :=
  match tools with
  | [] => Ok []
  | tool :: rest =>
      here ←
        (if is_str (prop tool "type") "function"
            && truthy (prop tool "function")
            && truthy (prop (prop tool "function") "name")
         then
           match prop (prop tool "function") "name" with
           | JStr fname =>
               if includes inputText
                    (replace_first (replace_first fname "get_" "") "_" " ")
               then Ok [intent_call fname]
               else if String.prefix "resolve_" fname && hasEntity
               then Ok [intent_call fname]
               else Ok []
           | _ => Throw "tool.function.name.replace is not a function"
           end
         else Ok []);
      others ← explicit_tools inputText hasEntity rest;
      Ok (here ++ others)
  end.

(** [extractToolCalls(input, tools)] of the tool handler. *)
Definition extractToolCalls (input : JsVal) (tools : list JsVal)
  : Res (list ToolCall) :=
  match tools with
  | [] => Ok []
  | _ =>
      inputText ← Orchestrator.inputText_of input;
      let hasTeamEntity := some_includes inputText entityPatterns_teams in
      let hasPlayerEntity := some_includes inputText entityPatterns_players in
      toolCalls ←
        (if hasTeamEntity || hasPlayerEntity then
           t ← and_has_tool hasTeamEntity tools "resolve_team";
           let team :=
             if (t : bool)
             then [resolver_call "resolve_team"
                     (find_includes inputText entityPatterns_teams)]
             else [] in
           p ← and_has_tool hasPlayerEntity tools "resolve_player";
           let player :=
             if (p : bool)
             then [resolver_call "resolve_player"
                     (find_includes inputText entityPatterns_players)]
             else [] in
           r ← and_has_tool (some_includes inputText intentPatterns_roster)
                 tools "get_team_roster";
           if (r : bool) then Ok (team ++ player ++ [intent_call "get_team_roster"])
           else
             i ← and_has_tool (some_includes inputText intentPatterns_team_info)
                   tools "get_team_info";
             if (i : bool) then Ok (team ++ player ++ [intent_call "get_team_info"])
             else
               s ← and_has_tool (some_includes inputText intentPatterns_stats)
                     tools "get_player_stats";
               if (s : bool) && hasPlayerEntity
               then Ok (team ++ player ++ [intent_call "get_player_stats"])
               else Ok (team ++ player)
         else Ok []);
      match toolCalls with
      | [] => explicit_tools inputText (hasTeamEntity || hasPlayerEntity) tools
      | _ => Ok toolCalls
      end
  end.
(** [toolEntityMap[toolName]] of the tool handler. *)
Definition toolEntityMap (toolName : string) : option (list string) :=
  if String.eqb toolName "get_team_info" then Some ["team"]
  else if String.eqb toolName "get_team_roster" then Some ["team"]
  else if String.eqb toolName "get_player_stats" then Some ["player"]
  else if String.eqb toolName "get_schedule" then Some ["team"]
  else None.

(** The body of the tool handler's loop over [requiredEntities]. *)
Definition enrich_entity (resolverResults : gmap string JsVal)
    (enrichedArgs : Obj) (entityType : string) : Obj :=
  match resolverResults !! entityType with
  | Some resolvedEntity =>
      if truthy resolvedEntity && truthy (prop resolvedEntity "id") then
        if String.eqb entityType "team"
           && negb (truthy (obj_get enrichedArgs "teamId"))
        then obj_set enrichedArgs "teamId"
               (JStr (js_toString (prop resolvedEntity "id")))
        else if String.eqb entityType "player"
                && negb (truthy (obj_get enrichedArgs "playerId"))
        then obj_set enrichedArgs "playerId"
               (JStr (js_toString (prop resolvedEntity "id")))
        else enrichedArgs
      else enrichedArgs
  | None => enrichedArgs
  end.

(** [_enrichToolArguments(toolCall, resolverResults)] of the tool handler. *)
Definition _enrichToolArguments (toolCall : ToolCall)
    (resolverResults : gmap string JsVal) : Obj :=
  let enrichedArgs := arguments toolCall in
  let requiredEntities := default [] (toolEntityMap (name toolCall)) in
  foldl (enrich_entity resolverResults) enrichedArgs requiredEntities.

End Extraction.
End ToolHandler.

(** ** Reading the results *)

(** A recorded outcome: a success carries its result and no error, a failure
    carries its error message and no result. *)
Definition captured (r : ExecutionResult) : Prop :=
  if success r
  then is_Some (result r) /\ error r = None
  else is_Some (error r) /\ result r = None.

(** No resolver of entity type [ty] succeeded among the outcomes [rs]. *)
Definition unresolved (ty : string) (rs : list ExecutionResult) : Prop :=
  Forall (fun r => entity_of_resolver (tool r) = ty -> success r = false) rs.

(** Every resolved entity of the map carries a truthy [id]. *)
Definition ids_truthy (m : gmap string JsVal) : Prop :=
  forall ty e, m !! ty = Some e -> truthy (prop e "id") = true.

(** The calls of a list that are resolver calls. *)
Definition resolver_calls (calls : list ToolCall) : list ToolCall :=
  filter (fun c => isResolver (name c) = true) calls.

(** The calls of a list that are not resolver calls. *)
Definition data_calls (calls : list ToolCall) : list ToolCall :=
  filter (fun c => isResolver (name c) = false) calls.

(** The outcome recorded for a call whose execution returned or threw. *)
Definition outcome (toolName : string) (flag : option bool) (r : Res JsVal)
  : ExecutionResult :=
  match r with
  | Ok v => succeeded toolName v flag
  | Throw msg => failed toolName msg
  end.

Section Attempts.
Context `{Host}.

(** What the first loop of [_processToolCalls] tries for a resolver call:
    the execution with the call's own arguments. *)
Definition run_resolver (c : ToolCall) : M JsVal :=
  Orchestrator._executeSingleTool (name c) (arguments c).

(** What the second loop tries for any other call: the enrichment from the
    map of resolved entities, then the execution with the enriched
    arguments. *)
Definition run_enriched (m : gmap string JsVal) (c : ToolCall) : M JsVal :=
  if inherited (name c) then throw "requiredEntities is not iterable"
  else Orchestrator._executeSingleTool (name c) (_enrichToolArguments c m).

(** Calls attempted one after the other: each one is run in the world its
    predecessor left, whether that one returned or threw, and leaves its
    outcome. *)
Inductive attempted (run : ToolCall -> M JsVal) (flag : option bool)
  : list ToolCall -> World -> list ExecutionResult -> World -> Prop :=
  | attempted_nil (w : World) : attempted run flag [] w [] w
  | attempted_cons (c : ToolCall) (rest : list ToolCall) (w w1 w' : World)
      (r : Res JsVal) (rs : list ExecutionResult) :
      run c w = (r, w1) ->
      attempted run flag rest w1 rs w' ->
      attempted run flag (c :: rest) w (outcome (name c) flag r :: rs) w'.

End Attempts.

(** ** Reading the stream *)

(** The events other than the two terminal ones. *)
Definition plain (e : Event) : Prop :=
  match e with
  | response_completed _ | response_error _ => False
  | _ => True
  end.

Section StreamViews.
Context `{Host}.

(** A computation that leaves the stream writer alone. *)
Definition frames_writer {A} (m : M A) : Prop :=
  forall w, writer (m w).2 = writer w.

(** A computation that only appends non-terminal chunks to the stream. *)
Definition emits_plain {A} (m : M A) : Prop :=
  forall w, exists evs,
    ops (writer (m w).2) = ops (writer w) ++ map Chunk evs
    /\ Forall plain evs.

(** A computation that appends non-terminal chunks and, exactly when it
    returns, [response.completed] as the last one. *)
Definition ends_completed (responseId : string) (m : M unit) : Prop :=
  forall w, exists evs,
    Forall plain evs
    /\ ops (writer (m w).2) =
         ops (writer w) ++
         map Chunk (evs ++ match (m w).1 with
                           | Ok _ => [response_completed responseId]
                           | Throw _ => []
                           end).
End StreamViews.

(** ** A host and worlds for examples *)

(** A host for the examples. Its JSON functions are placeholders (a value is
    rendered with [js_toString], a text parses to the string itself); the
    service answers the successive calls with the replies of a script. *)
Definition sample_host : Host := {|
  Remote := list (Res JsVal);
  JSON_stringify := fun v => Some (js_toString v);
  JSON_stringify_indent := fun v => Some (js_toString v);
  JSON_parse := fun s => Ok (JStr s);
  mcp_fetch := fun _ script =>
    match script with
    | [] => (Throw "MCP service error: 503 - no reply", [])
    | reply :: rest => (reply, rest)
    end;
  _normalizeResult := fun _ v => Ok v;
|}.

Definition no_faults (entries : gmap string CachedData) : Tier :=
  {| store := entries; faults := [] |}.

(** A world of [sample_host] with the default TTLs. *)
Definition sample_world (now : Z) (kv r2 : option Tier)
    (script : list (Res JsVal)) : @World sample_host :=
  @Build_World sample_host now None None kv r2 (Some script)
    {| ops := []; wfaults := [] |}.

(** A tool definition as the caller declares it. *)
Definition tool_def (toolName : string) : JsVal :=
  JObj [("name", JStr toolName)].

Definition yankees : JsVal :=
  JObj [("id", JNum 147); ("name", JStr "New York Yankees")].

Definition roster_call (args : Obj) : ToolCall :=
  {| name := "get_team_roster"; arguments := args |}.

(** The entity of type [ty] that the outcomes [rs] of the resolvers leave in
    the map: the result of the last one that succeeded with a truthy [id]. *)
Definition last_resolved (ty : string) (rs : list ExecutionResult)
  : option JsVal :=
  foldl (fun acc r =>
           match result r with
           | Some v =>
               if success r && String.eqb (entity_of_resolver (tool r)) ty
                  && truthy v && truthy (prop v "id")
               then Some v else acc
           | None => acc
           end) None rs.

(** The records a tier binding holds, when it is configured. *)
Definition records (t : option Tier) : option (gmap string CachedData) :=
  store <$> t.

Section WorldViews.
Context `{Host}.

(** Two worlds with the same clock, TTL settings, service binding and
    stream writer: at most the cache tiers differ. *)
Definition same_env (w w' : World) : Prop :=
  clock w' = clock w /\ CACHE_TTL_HOT w' = CACHE_TTL_HOT w
  /\ CACHE_TTL_COLD w' = CACHE_TTL_COLD w /\ MLB_MCP w' = MLB_MCP w
  /\ writer w' = writer w.

End WorldViews.

(** The hot record that [_setHot] writes for a payload at a time. *)
Definition hot_record (d : JsVal) (now : Z) : CachedData :=
  {| payload := d; timestamp := now; tool_of := None; args_of := None |}.

(** The cold record that [set] writes. *)
Definition cold_record (toolName : string) (args : Obj) (d : JsVal) (now : Z)
  : CachedData :=
  {| payload := d; timestamp := now; tool_of := Some toolName;
     args_of := Some args |}.

(** * Properties *)

(** ** The order on keys *)

Lemma ascii_compare_trans_lt a b c :
  Ascii.compare a b = Lt -> Ascii.compare b c = Lt -> Ascii.compare a c = Lt.
Proof.
  unfold Ascii.compare. rewrite !N.compare_lt_iff. lia.
Qed.

Lemma ascii_compare_refl a : Ascii.compare a a = Eq.
Proof. unfold Ascii.compare. apply N.compare_refl. Qed.

Lemma string_compare_refl a : String.compare a a = Eq.
Proof. induction a as [|x a IH]; simpl; [done|]. by rewrite ascii_compare_refl. Qed.

Lemma string_compare_trans_lt : forall a b c,
  String.compare a b = Lt -> String.compare b c = Lt -> String.compare a c = Lt.
Proof.
  induction a as [|x a IH]; intros [|y b] [|z c]; simpl; try congruence.
  destruct (Ascii.compare x y) eqn:Hxy; try discriminate;
    destruct (Ascii.compare y z) eqn:Hyz; try discriminate; intros H1 H2.
  - apply Ascii.compare_eq_iff in Hxy as ->. apply Ascii.compare_eq_iff in Hyz as ->.
    rewrite ascii_compare_refl. eauto.
  - apply Ascii.compare_eq_iff in Hxy as ->. by rewrite Hyz.
  - apply Ascii.compare_eq_iff in Hyz as <-. by rewrite Hxy.
  - by rewrite (ascii_compare_trans_lt _ _ _ Hxy Hyz).
Qed.

#[global] Instance str_le_trans : Transitive str_le.
Proof.
  intros a b c. unfold str_le, String.leb.
  destruct (String.compare a b) eqn:Hab; try discriminate;
    destruct (String.compare b c) eqn:Hbc; try discriminate; intros _ _.
  - apply String.compare_eq_iff in Hab as ->. by rewrite Hbc.
  - apply String.compare_eq_iff in Hab as ->. by rewrite Hbc.
  - apply String.compare_eq_iff in Hbc as <-. by rewrite Hab.
  - by rewrite (string_compare_trans_lt _ _ _ Hab Hbc).
Qed.

#[global] Instance str_le_total : Total str_le.
Proof. intros a b. apply String.leb_total. Qed.

#[global] Instance str_le_antisym : AntiSymm (=) str_le.
Proof. intros a b. apply String.leb_antisym. Qed.

Lemma sort_strings_perm l1 l2 : l1 ≡ₚ l2 -> sort_strings l1 = sort_strings l2.
Proof.
  intros Hp. unfold sort_strings.
  apply (Sorted_unique str_le); try apply Sorted_merge_sort; try apply _.
  by rewrite !merge_sort_Permutation.
Qed.

(** ** Objects *)

Lemma obj_get_elem_of (o : Obj) k v :
  wf_obj o -> (k, v) ∈ o -> obj_get o k = v.
Proof.
  unfold wf_obj, Object_keys.
  induction o as [|[k' v'] o IH]; intros Hnd Hin.
  - by apply elem_of_nil in Hin.
  - simpl in *. apply NoDup_cons in Hnd as [Hk' Hnd].
    apply elem_of_cons in Hin as [Heq|Hin].
    + inversion Heq; subst. by rewrite String.eqb_refl.
    + destruct (String.eqb k' k) eqn:E; [|by apply IH].
      apply String.eqb_eq in E. subst. exfalso. apply Hk'.
      apply list_elem_of_fmap. by exists (k, v).
Qed.

Lemma obj_get_absent (o : Obj) k : k ∉ Object_keys o -> obj_get o k = JUndefined.
Proof.
  unfold Object_keys. induction o as [|[k' v'] o IH]; simpl; [done|].
  intros Hn. apply not_elem_of_cons in Hn as [Hne Hn].
  destruct (String.eqb k' k) eqn:E; [|by apply IH].
  apply String.eqb_eq in E. congruence.
Qed.

Lemma obj_get_perm (a b : Obj) k :
  wf_obj a -> a ≡ₚ b -> obj_get a k = obj_get b k.
Proof.
  intros Ha Hp.
  assert (Hb : wf_obj b) by (unfold wf_obj, Object_keys in *; by rewrite <- Hp).
  destruct (decide (k ∈ Object_keys a)) as [Hin|Hout].
  - unfold Object_keys in Hin. apply list_elem_of_fmap in Hin as ([k' v] & -> & Hin).
    simpl. rewrite (obj_get_elem_of a k' v Ha Hin).
    symmetry. apply obj_get_elem_of; [done|]. by rewrite <- Hp.
  - rewrite (obj_get_absent a k Hout). symmetry. apply obj_get_absent.
    unfold Object_keys in *. by rewrite <- Hp.
Qed.

(** C4. Cache key derivation does not depend on insertion order: two argument
    objects holding the same key/value pairs, listed in any order, derive the
    same key for every tool name. *)
Theorem generateKey_insertion_order (tool : string) (a b : Obj) :
  wf_obj a -> a ≡ₚ b -> _generateKey tool a = _generateKey tool b.
Proof.
  intros Ha Hp. unfold _generateKey.
  assert (Hk : sort_strings (Object_keys a) = sort_strings (Object_keys b)).
  { apply sort_strings_perm. unfold Object_keys. by rewrite Hp. }
  rewrite Hk. do 4 f_equal.
  apply map_ext. intros k. by rewrite (obj_get_perm a b k Ha Hp).
Qed.

Lemma generateKey_insertion_order_witness :
  _generateKey "get_team_roster" [("teamId", JStr "147"); ("season", JNum 2025)]
  = _generateKey "get_team_roster" [("season", JNum 2025); ("teamId", JStr "147")].
Proof.
  apply generateKey_insertion_order.
  - unfold wf_obj. simpl. apply NoDup_cons. split; [|apply NoDup_singleton].
    intros H. apply list_elem_of_singleton in H. discriminate.
  - apply Permutation_swap.
Defined.

(** ** Enrichment *)

Lemma obj_get_set_eq (o : Obj) k v : obj_get (obj_set o k v) k = v.
Proof.
  induction o as [|[k' v'] o IH]; simpl.
  - by rewrite String.eqb_refl.
  - destruct (String.eqb k' k) eqn:E; simpl.
    + by rewrite String.eqb_refl.
    + by rewrite E.
Qed.

Lemma obj_get_set_ne (o : Obj) k k' v :
  k <> k' -> obj_get (obj_set o k v) k' = obj_get o k'.
Proof.
  intros Hne. induction o as [|[k0 v0] o IH]; simpl.
  - destruct (String.eqb k k') eqn:E; [|done].
    apply String.eqb_eq in E. congruence.
  - destruct (String.eqb k0 k) eqn:E; simpl.
    + apply String.eqb_eq in E. subst k0.
      destruct (String.eqb k k') eqn:E'; [|done].
      apply String.eqb_eq in E'. congruence.
    + destruct (String.eqb k0 k'); [done|apply IH].
Qed.

(** The table lists at most one entity type per tool. *)
Lemma toolEntityMap_cases toolName :
  toolEntityMap toolName = None \/ toolEntityMap toolName = Some []
  \/ toolEntityMap toolName = Some ["team"]
  \/ toolEntityMap toolName = Some ["player"].
Proof.
  unfold toolEntityMap.
  repeat (match goal with |- context [String.eqb ?a ?b] =>
            destruct (String.eqb a b) end; auto).
Qed.

Lemma truthy_prop_truthy v k : truthy (prop v k) = true -> truthy v = true.
Proof. by destruct v. Qed.

(** One step of enrichment on the key of its entity type. *)
Lemma enrich_entity_key resolverResults args entityType key entity :
  entity_key entityType = Some key ->
  resolverResults !! entityType = Some entity ->
  truthy (prop entity "id") = true ->
  obj_get (enrich_entity resolverResults args entityType) key =
    if truthy (obj_get args key) then obj_get args key
    else JStr (js_toString (prop entity "id")).
Proof.
  intros Hkey Hres Hid. unfold enrich_entity. rewrite Hres, Hid.
  rewrite (truthy_prop_truthy _ _ Hid). simpl.
  unfold entity_key in Hkey.
  destruct (String.eqb entityType "team") eqn:Et.
  - inversion Hkey; subst key.
    destruct (truthy (obj_get args "teamId")) eqn:T; simpl; [done|].
    apply obj_get_set_eq.
  - destruct (String.eqb entityType "player") eqn:Ep; [|done].
    inversion Hkey; subst key.
    destruct (truthy (obj_get args "playerId")) eqn:T; simpl; [done|].
    apply obj_get_set_eq.
Qed.

(** C1, as the code has it. For a tool call and an entity type that the
    table declares for its tool, with a resolved entity of that type whose id
    is truthy: when the argument key ([teamId] or [playerId]) is absent from
    the call's arguments, or holds a falsy value, the enriched arguments bind
    it to the resolved id converted to a string; when the key holds a truthy
    value, that value is unchanged. *)
Theorem enrich_injects_resolved_id (toolCall : ToolCall)
    (resolverResults : gmap string JsVal) (entityType key : string)
    (entity : JsVal) (required : list string) :
  toolEntityMap (name toolCall) = Some required ->
  entityType ∈ required ->
  entity_key entityType = Some key ->
  resolverResults !! entityType = Some entity ->
  truthy (prop entity "id") = true ->
  let enriched := _enrichToolArguments toolCall resolverResults in
  (truthy (obj_get (arguments toolCall) key) = false ->
     obj_get enriched key = JStr (js_toString (prop entity "id")))
  /\ (truthy (obj_get (arguments toolCall) key) = true ->
     obj_get enriched key = obj_get (arguments toolCall) key).
Proof.
  intros Hreq Hin Hkey Hres Hid enriched. subst enriched.
  unfold _enrichToolArguments. rewrite Hreq. simpl.
  assert (Hone : required = [entityType]).
  { destruct (toolEntityMap_cases (name toolCall)) as [E|[E|[E|E]]];
      rewrite E in Hreq; inversion Hreq; subst required.
    - by apply elem_of_nil in Hin.
    - apply list_elem_of_singleton in Hin. by subst.
    - apply list_elem_of_singleton in Hin. by subst. }
  subst required. simpl.
  rewrite (enrich_entity_key _ _ _ _ _ Hkey Hres Hid).
  split; intros ->; done.
Qed.

Lemma enrich_injects_resolved_id_witness :
  obj_get (_enrichToolArguments (roster_call []) {[ "team" := yankees ]}) "teamId"
    = JStr "147"
  /\ obj_get (_enrichToolArguments (roster_call [("teamId", JStr "999")])
                {[ "team" := yankees ]}) "teamId"
    = JStr "999".
Proof.
  split.
  - refine (proj1 (enrich_injects_resolved_id (roster_call [])
              {[ "team" := yankees ]} "team" "teamId" yankees ["team"]
              _ _ _ _ _) _); try reflexivity.
    apply list_elem_of_singleton. reflexivity.
  - refine (proj2 (enrich_injects_resolved_id
              (roster_call [("teamId", JStr "999")])
              {[ "team" := yankees ]} "team" "teamId" yankees ["team"]
              _ _ _ _ _) _); try reflexivity.
    apply list_elem_of_singleton. reflexivity.
Defined.

(** C1, as stated, fails: a key that is present with a falsy value (here the
    empty string) does not keep its value. *)
Lemma enrich_present_key_counterexample :
  let toolCall := roster_call [("teamId", JStr "")] in
  obj_has (arguments toolCall) "teamId" = true
  /\ obj_get (arguments toolCall) "teamId" = JStr ""
  /\ obj_get (_enrichToolArguments toolCall {[ "team" := yankees ]}) "teamId"
       = JStr "147".
Proof. repeat split. Qed.

(** ** Intent extraction *)

Section ExtractionProperties.
Context `{Host}.

Lemma Res_bind_Ok {A B} (a : A) (f : A -> Res B) : (Ok a ≫= f) = f a.
Proof. reflexivity. Qed.

Lemma data_calls_app (l1 l2 : list ToolCall) :
  data_calls (l1 ++ l2) = data_calls l1 ++ data_calls l2.
Proof. unfold data_calls. apply filter_app. Qed.

(** The shape of the orchestrator's result on a non-empty tool list. *)
Lemma extract_shape (input : JsVal) (tools : list JsVal) (inputText : string) :
  tools <> [] ->
  Orchestrator.inputText_of input = Ok inputText ->
  let entity :=
    some_includes inputText Orchestrator.entityPatterns_teams
    || some_includes inputText Orchestrator.entityPatterns_players in
  exists resolvers action,
    Orchestrator._extractToolCalls input tools =
      Ok (if entity then resolvers ++ action else [])
    /\ data_calls resolvers = []
    /\ action =
         if some_includes inputText intentPatterns_roster
            && Orchestrator.has_tool tools "get_team_roster"
         then [intent_call "get_team_roster"]
         else if some_includes inputText intentPatterns_team_info
                 && Orchestrator.has_tool tools "get_team_info"
         then [intent_call "get_team_info"]
         else if some_includes inputText intentPatterns_stats
                 && Orchestrator.has_tool tools "get_player_stats"
                 && some_includes inputText Orchestrator.entityPatterns_players
         then [intent_call "get_player_stats"]
         else [].
Proof.
  intros Hne Htext entity.
  unfold Orchestrator._extractToolCalls.
  destruct tools as [|t tools']; [done|].
  set (tl := t :: tools'). rewrite Htext, Res_bind_Ok. cbv beta zeta.
  fold entity.
  eexists (_ ++ _), _. split; [|split; [|reflexivity]].
  - destruct entity; [|done]. by rewrite <- app_assoc.
  - rewrite data_calls_app.
    destruct (some_includes inputText Orchestrator.entityPatterns_teams
              && Orchestrator.has_tool tl "resolve_team");
      destruct (some_includes inputText Orchestrator.entityPatterns_players
                && Orchestrator.has_tool tl "resolve_player");
      reflexivity.
Qed.

(** The tool handler's search agrees with [declares] on well-formed tools. *)
Lemma handler_has_tool_declares (tools : list JsVal) (toolName : string) :
  ToolHandler.wf_tools tools ->
  ToolHandler.has_tool tools toolName = Ok (ToolHandler.declares tools toolName).
Proof.
  unfold ToolHandler.wf_tools, ToolHandler.declares.
  induction 1 as [|t rest Ht _ IH]; simpl; [done|].
  unfold ToolHandler.names_tool at 1.
  destruct (is_str (prop t "name") toolName); simpl; [done|].
  destruct (prop t "function") as [| | | | | |f] eqn:Ef; simpl; try exact IH.
  - done.
  - destruct (is_str (obj_get f "name") toolName); simpl; [done|exact IH].
Qed.

Lemma handler_and_has_tool (c : bool) (tools : list JsVal) (toolName : string) :
  ToolHandler.wf_tools tools ->
  ToolHandler.and_has_tool c tools toolName
    = Ok (c && ToolHandler.declares tools toolName).
Proof.
  intros Hwf. unfold ToolHandler.and_has_tool.
  destruct c; [by apply handler_has_tool_declares|done].
Qed.

(** The shape of the tool handler's result when its pattern pass emits a
    data-tool call. *)
Lemma handler_shape (input : JsVal) (tools : list JsVal) (inputText : string) :
  tools <> [] ->
  Orchestrator.inputText_of input = Ok inputText ->
  ToolHandler.wf_tools tools ->
  some_includes inputText ToolHandler.entityPatterns_teams
    || some_includes inputText ToolHandler.entityPatterns_players = true ->
  exists resolvers action,
    data_calls resolvers = []
    /\ action =
         (if some_includes inputText intentPatterns_roster
             && ToolHandler.declares tools "get_team_roster"
          then [intent_call "get_team_roster"]
          else if some_includes inputText intentPatterns_team_info
                  && ToolHandler.declares tools "get_team_info"
          then [intent_call "get_team_info"]
          else if some_includes inputText intentPatterns_stats
                  && ToolHandler.declares tools "get_player_stats"
                  && some_includes inputText ToolHandler.entityPatterns_players
          then [intent_call "get_player_stats"]
          else [])
    /\ (action <> [] ->
        ToolHandler.extractToolCalls input tools = Ok (resolvers ++ action)).
Proof.
  intros Hne Htext Hwf Hent.
  unfold ToolHandler.extractToolCalls.
  destruct tools as [|t tools']; [done|].
  set (tl := t :: tools') in *. rewrite Htext, Res_bind_Ok. cbv beta zeta.
  rewrite Hent. rewrite !(handler_and_has_tool _ tl _ Hwf).
  set (rt := some_includes inputText ToolHandler.entityPatterns_teams
             && ToolHandler.declares tl "resolve_team").
  set (rp := some_includes inputText ToolHandler.entityPatterns_players
             && ToolHandler.declares tl "resolve_player").
  set (ro := some_includes inputText intentPatterns_roster
             && ToolHandler.declares tl "get_team_roster").
  set (inf := some_includes inputText intentPatterns_team_info
              && ToolHandler.declares tl "get_team_info").
  set (st := some_includes inputText intentPatterns_stats
             && ToolHandler.declares tl "get_player_stats").
  set (pl := some_includes inputText ToolHandler.entityPatterns_players).
  exists ((if rt then [resolver_call "resolve_team"
                         (find_includes inputText ToolHandler.entityPatterns_teams)]
           else [])
          ++ (if rp then [resolver_call "resolve_player"
                            (find_includes inputText
                               ToolHandler.entityPatterns_players)]
              else [])).
  eexists. split; [|split; [reflexivity|]].
  - rewrite data_calls_app. by destruct rt, rp.
  - intros Hemits. rewrite !Res_bind_Ok.
    destruct ro, inf, st, pl; simpl in *; try done; by destruct rt, rp.
Qed.

(** C8, as the code has it. On a non-empty list of tools that are all
    objects (reading the [name] of a [null] tool throws), intents are looked
    at only when an entity pattern matched. Then exactly one data-tool call
    is emitted, with empty arguments, for the first intent in the order
    roster, info, stats whose keyphrase occurs in the text and whose tool
    is declared (stats also needs a player entity); in particular a roster
    keyphrase with [get_team_roster] declared always yields exactly the
    call [get_team_roster({})]. This holds for the orchestrator and, on
    well-formed tool definitions, for the tool handler. When no entity
    pattern matched, the orchestrator emits no call at all. *)
Theorem extract_intent_call (input : JsVal) (tools : list JsVal)
    (inputText : string) :
  tools <> [] ->
  readable tools ->
  Orchestrator.inputText_of input = Ok inputText ->
  (let entity :=
     some_includes inputText Orchestrator.entityPatterns_teams
     || some_includes inputText Orchestrator.entityPatterns_players in
   let roster :=
     some_includes inputText intentPatterns_roster
     && Orchestrator.has_tool tools "get_team_roster" in
   let info :=
     some_includes inputText intentPatterns_team_info
     && Orchestrator.has_tool tools "get_team_info" in
   let stats :=
     some_includes inputText intentPatterns_stats
     && Orchestrator.has_tool tools "get_player_stats"
     && some_includes inputText Orchestrator.entityPatterns_players in
   exists calls,
     Orchestrator._extractToolCalls input tools = Ok calls
     /\ (entity = false -> calls = [])
     /\ (entity = true -> roster = true ->
         data_calls calls = [intent_call "get_team_roster"])
     /\ (entity = true -> roster = false -> info = true ->
         data_calls calls = [intent_call "get_team_info"])
     /\ (entity = true -> roster = false -> info = false -> stats = true ->
         data_calls calls = [intent_call "get_player_stats"])
     /\ (roster = false -> info = false -> stats = false ->
         data_calls calls = []))
  /\ (let entity :=
        some_includes inputText ToolHandler.entityPatterns_teams
        || some_includes inputText ToolHandler.entityPatterns_players in
      let roster :=
        some_includes inputText intentPatterns_roster
        && ToolHandler.declares tools "get_team_roster" in
      let info :=
        some_includes inputText intentPatterns_team_info
        && ToolHandler.declares tools "get_team_info" in
      let stats :=
        some_includes inputText intentPatterns_stats
        && ToolHandler.declares tools "get_player_stats"
        && some_includes inputText ToolHandler.entityPatterns_players in
      ToolHandler.wf_tools tools -> entity = true ->
      (roster = true ->
       exists calls, ToolHandler.extractToolCalls input tools = Ok calls
                     /\ data_calls calls = [intent_call "get_team_roster"])
      /\ (roster = false -> info = true ->
          exists calls, ToolHandler.extractToolCalls input tools = Ok calls
                        /\ data_calls calls = [intent_call "get_team_info"])
      /\ (roster = false -> info = false -> stats = true ->
          exists calls, ToolHandler.extractToolCalls input tools = Ok calls
                        /\ data_calls calls = [intent_call "get_player_stats"])).
Proof.
  intros Hne _ Htext. split.
  - intros entity roster info stats.
    destruct (extract_shape input tools inputText Hne Htext)
      as (resolvers & action & Hrun & Hres & Hact).
    fold entity in Hrun. fold roster info stats in Hact.
    eexists. split; [exact Hrun|].
    repeat split.
    + by intros ->.
    + intros -> Hr. rewrite data_calls_app, Hres, Hact, Hr. reflexivity.
    + intros -> Hr Hi. rewrite data_calls_app, Hres, Hact, Hr, Hi. reflexivity.
    + intros -> Hr Hi Hs.
      rewrite data_calls_app, Hres, Hact, Hr, Hi, Hs. reflexivity.
    + intros Hr Hi Hs. destruct entity; [|done].
      rewrite data_calls_app, Hres, Hact, Hr, Hi, Hs. reflexivity.
  - intros entity roster info stats Hwf Hent.
    destruct (handler_shape input tools inputText Hne Htext Hwf Hent)
      as (resolvers & action & Hres & Hact & Hrun).
    fold roster info stats in Hact.
    repeat split.
    + intros Hr. rewrite Hr in Hact. subst action.
      eexists. split; [by apply Hrun|].
      by rewrite data_calls_app, Hres.
    + intros Hr Hi. rewrite Hr, Hi in Hact. subst action.
      eexists. split; [by apply Hrun|].
      by rewrite data_calls_app, Hres.
    + intros Hr Hi Hs. rewrite Hr, Hi, Hs in Hact. subst action.
      eexists. split; [by apply Hrun|].
      by rewrite data_calls_app, Hres.
Qed.

End ExtractionProperties.

Lemma extract_intent_call_witness :
  let input := JStr "Show me the Yankees roster" in
  let tools := [tool_def "resolve_team"; tool_def "get_team_roster"] in
  (exists calls,
     @Orchestrator._extractToolCalls sample_host input tools = Ok calls
     /\ data_calls calls = [intent_call "get_team_roster"])
  /\ (exists calls,
       @ToolHandler.extractToolCalls sample_host input tools = Ok calls
       /\ data_calls calls = [intent_call "get_team_roster"]).
Proof.
  intros input tools.
  destruct (@extract_intent_call sample_host input tools
              "show me the yankees roster" ltac:(discriminate)
              ltac:(repeat constructor) eq_refl)
    as [(calls & Hrun & _ & Hroster & _) Hhandler].
  split.
  - exists calls. split; [exact Hrun|]. apply Hroster; reflexivity.
  - apply Hhandler; try reflexivity.
    repeat constructor; discriminate.
Defined.

(** C8, as stated, fails: the text contains the roster keyphrase and
    [get_team_roster] is declared, but no entity pattern matches, and neither
    extractor emits a call. *)
Lemma extract_without_entity_counterexample :
  let tools := [tool_def "get_team_roster"] in
  some_includes (toLowerCase "Show me the roster") intentPatterns_roster = true
  /\ Orchestrator.has_tool tools "get_team_roster" = true
  /\ @Orchestrator._extractToolCalls sample_host
       (JStr "Show me the roster") tools = Ok []
  /\ @ToolHandler.extractToolCalls sample_host
       (JStr "Show me the roster") tools = Ok [].
Proof. repeat split. Qed.

(** ** Tiered cache *)

Section CacheProperties.
Context `{Host}.

Lemma M_bind_run {A B} (m : M A) (f : A -> M B) (w : World) :
  (m ≫= f) w =
    match m w with
    | (Ok a, w') => f a w'
    | (Throw msg, w') => (Throw msg, w')
    end.
Proof. reflexivity. Qed.

Lemma try_catch_run {A} (body : M A) (handler : string -> M A) (w : World) :
  try_catch body handler w =
    match body w with
    | (Ok a, w') => (Ok a, w')
    | (Throw msg, w') => handler msg w'
    end.
Proof. reflexivity. Qed.

Lemma isValid_run (d : CachedData) (ttl : Z) (w : World) :
  _isValid d ttl w = (Ok (fresh w d ttl), w).
Proof.
  unfold _isValid, fresh. rewrite M_bind_run. simpl.
  unfold mret, M_ret. do 2 f_equal.
  unfold Qltb, Qle_bool. simpl.
  destruct (Z.leb_spec (ttl * 1000) ((clock w - timestamp d) * 1));
    destruct (Z.ltb_spec (clock w - timestamp d) (1000 * ttl)); simpl; lia.
Qed.

Lemma ask_bind_run {A B} (f : World -> A) (k : A -> M B) (w : World) :
  (ask f ≫= k) w = k (f w) w.
Proof. reflexivity. Qed.

Lemma isValid_bind_run {B} (d : CachedData) (ttl : Z) (k : bool -> M B)
    (w : World) :
  (_isValid d ttl ≫= k) w = k (fresh w d ttl) w.
Proof. by rewrite M_bind_run, isValid_run. Qed.

Lemma next_fault_store (t : Tier) : store (next_fault t).2 = store t.
Proof. unfold next_fault. by destruct (faults t). Qed.

Lemma tier_get_cases (t : Tier) (key : string) :
  (exists msg t', tier_get t key = (Throw msg, t'))
  \/ (exists t', tier_get t key = (Ok (store t !! key), t')
                 /\ store t' = store t).
Proof.
  unfold tier_get. pose proof (next_fault_store t) as Hs.
  destruct (next_fault t) as [[msg|] t']; simpl in Hs.
  - left. eauto.
  - right. exists t'. by rewrite Hs.
Qed.

Lemma kv_get_cases (w : World) (kv : Tier) (key : string) :
  SPORTS_CACHE w = Some kv ->
  (exists msg t', kv_get key w = (Throw msg, with_kv (Some t') w))
  \/ (exists t', kv_get key w = (Ok (store kv !! key), with_kv (Some t') w)
                 /\ store t' = store kv).
Proof.
  intros Hkv. unfold kv_get. rewrite Hkv.
  destruct (tier_get_cases kv key) as [(msg & t' & E)|(t' & E & Hs)];
    rewrite E; eauto.
Qed.

(** A hit of the cold part comes from a cold entry that is still valid. *)
Lemma try_cold_hit (key : string) (w w' : World) (hit : CacheHit) :
  try_cold key w = (Ok (Some hit), w') ->
  exists r2 c,
    SPORTS_STORAGE w = Some r2 /\ store r2 !! key = Some c
    /\ fresh w c (coldTTL w) = true
    /\ hit = {| data := payload c; source := "cold";
                age := clock w - timestamp c |}.
Proof.
  unfold try_cold. rewrite M_bind_run. unfold r2_get.
  destruct (SPORTS_STORAGE w) as [r2|] eqn:Er2; [|discriminate].
  destruct (tier_get_cases r2 key) as [(msg & t' & E)|(t' & E & Hs)];
    rewrite E; [discriminate|].
  destruct (store r2 !! key) as [c|] eqn:Ec; [|discriminate].
  set (w1 := with_r2 (Some t') w). cbv beta iota.
  rewrite ask_bind_run, isValid_bind_run.
  change (fresh w1 c (coldTTL w1)) with (fresh w c (coldTTL w)).
  destruct (fresh w c (coldTTL w)) eqn:Hf; [|discriminate].
  rewrite M_bind_run.
  destruct (_setHot key (payload c) w1) as [[[]|msg] w2] eqn:Eh;
    [|discriminate].
  unfold Date_now. rewrite ask_bind_run. unfold mret, M_ret.
  assert (Hclock : clock w2 = clock w).
  { unfold _setHot in Eh. destruct (SPORTS_CACHE w1) as [t|].
    - destruct (tier_put t key _) as [r t2]. by inversion Eh.
    - by inversion Eh. }
  rewrite Hclock. intros [= <- <-]. eauto 10.
Qed.

(** [get] never raises. *)
Lemma get_never_throws (toolName : string) (args : Obj) (w : World) :
  exists r w', get toolName args w = (Ok r, w').
Proof.
  unfold get. rewrite try_catch_run.
  match goal with
  | |- context [match ?x with (_, _) => _ end] => destruct x as [[r|msg] w']
  end; eauto.
Qed.

(** With a stale hot entry in place, [get] answers as the cold part does,
    or with [null] when a tier fails. *)
Lemma get_stale_hot (w : World) (toolName : string) (args : Obj)
    (kv : Tier) (e : CachedData) :
  SPORTS_CACHE w = Some kv ->
  store kv !! _generateKey toolName args = Some e ->
  fresh w e (hotTTL w) = false ->
  (get toolName args w).1 = Ok None
  \/ exists t' hit w',
       try_cold (_generateKey toolName args) (with_kv (Some t') w)
         = (Ok (Some hit), w')
       /\ get toolName args w = (Ok (Some hit), w').
Proof.
  intros Hkv He Hstale. unfold get.
  set (key := _generateKey toolName args) in *. clearbody key.
  rewrite try_catch_run, M_bind_run.
  destruct (kv_get_cases w kv key Hkv) as [(msg & t' & E)|(t' & E & Hs)];
    rewrite E; [by left|].
  rewrite He. set (w1 := with_kv (Some t') w). cbv beta iota.
  rewrite ask_bind_run, isValid_bind_run.
  change (fresh w1 e (hotTTL w1)) with (fresh w e (hotTTL w)).
  rewrite Hstale.
  destruct (try_cold key w1) as [[[hit|]|msg] w2] eqn:Ec.
  - right. eauto.
  - by left.
  - by left.
Qed.

(** C6. A hot entry written at time [T] stops being valid once
    [now - T] reaches [hotTTL] (seconds against a millisecond clock), in
    particular at [T + hotTTL + 1]: [get] does not serve it from the hot
    tier, and when the cold tier holds no valid entry for the key, [get]
    returns absent. *)
Theorem expired_hot_entry_not_served (w : World) (toolName : string)
    (args : Obj) (kv : Tier) (e : CachedData) :
  SPORTS_CACHE w = Some kv ->
  store kv !! _generateKey toolName args = Some e ->
  (1000 * hotTTL w <= clock w - timestamp e)%Z ->
  (_isValid e (hotTTL w) w).1 = Ok false
  /\ (exists r, (get toolName args w).1 = Ok r
                /\ forall hit, r = Some hit -> source hit = "cold")
  /\ ((forall r2 c, SPORTS_STORAGE w = Some r2 ->
         store r2 !! _generateKey toolName args = Some c ->
         (1000 * coldTTL w <= clock w - timestamp c)%Z) ->
      (get toolName args w).1 = Ok None).
Proof.
  intros Hkv He Hexp.
  assert (Hstale : fresh w e (hotTTL w) = false).
  { unfold fresh. apply Z.ltb_ge. lia. }
  split; [by rewrite isValid_run, Hstale|].
  destruct (get_stale_hot w toolName args kv e Hkv He Hstale)
    as [Hnone|(t' & hit & w' & Hcold & Hget)].
  - split; [|done]. exists None. split; [done|discriminate].
  - apply try_cold_hit in Hcold as (r2 & c & Hr2 & Hc & Hfresh & ->).
    rewrite Hget. simpl. split.
    + eexists. split; [done|]. by intros hit [= <-].
    + intros Hno. specialize (Hno r2 c Hr2 Hc).
      unfold fresh in Hfresh. apply Z.ltb_lt in Hfresh.
      change (clock (with_kv (Some t') w)) with (clock w) in Hfresh.
      change (coldTTL (with_kv (Some t') w)) with (coldTTL w) in Hfresh.
      lia.
Qed.

(** *** Tiers that answer without failing *)

Lemma next_fault_healthy (n : nat) (t : Tier) :
  healthy (S n) t ->
  exists t', next_fault t = (None, t') /\ store t' = store t /\ healthy n t'.
Proof.
  unfold healthy, next_fault. destruct t as [st fs]. simpl.
  destruct fs as [|f rest]; simpl.
  - intros _. eexists. repeat split. destruct n; constructor.
  - intros Hf. apply Forall_cons in Hf as [-> Hrest]. eauto.
Qed.

Lemma kv_get_healthy (w : World) (kv : Tier) (key : string) (n : nat) :
  SPORTS_CACHE w = Some kv -> healthy (S n) kv ->
  exists kv', kv_get key w = (Ok (store kv !! key), with_kv (Some kv') w)
              /\ store kv' = store kv /\ healthy n kv'.
Proof.
  intros Hkv Hh. unfold kv_get, tier_get. rewrite Hkv.
  destruct (next_fault_healthy n kv Hh) as (kv' & -> & Hs & Hh').
  exists kv'. by rewrite Hs.
Qed.


Lemma setHot_healthy (w : World) (kv : Tier) (key : string) (d : JsVal)
    (n : nat) :
  SPORTS_CACHE w = Some kv -> healthy (S n) kv ->
  exists kv',
    _setHot key d w = (Ok tt, with_kv (Some kv') w)
    /\ store kv' =
         <[key := {| payload := d; timestamp := clock w;
                     tool_of := None; args_of := None |}]> (store kv)
    /\ healthy n kv'.
Proof.
  intros Hkv Hh. unfold _setHot, tier_put. rewrite Hkv.
  destruct (next_fault_healthy n kv Hh) as (kv' & -> & Hs & Hh').
  eexists. split; [reflexivity|]. simpl. by rewrite Hs.
Qed.

(** A hot entry that is still valid is served from the hot tier. *)
Lemma get_fresh_hot (w : World) (toolName : string) (args : Obj)
    (kv : Tier) (e : CachedData) :
  SPORTS_CACHE w = Some kv -> healthy 1 kv ->
  store kv !! _generateKey toolName args = Some e ->
  fresh w e (hotTTL w) = true ->
  exists w',
    get toolName args w =
      (Ok (Some {| data := payload e; source := "hot";
                   age := clock w - timestamp e |}), w').
Proof.
  intros Hkv Hh He Hf. unfold get.
  set (key := _generateKey toolName args) in *. clearbody key.
  rewrite try_catch_run, M_bind_run.
  destruct (kv_get_healthy w kv key 0 Hkv Hh) as (kv' & -> & Hs & _).
  rewrite He. set (w1 := with_kv (Some kv') w). cbv beta iota.
  rewrite ask_bind_run, isValid_bind_run.
  change (fresh w1 e (hotTTL w1)) with (fresh w e (hotTTL w)).
  rewrite Hf. unfold Date_now. rewrite ask_bind_run. eauto.
Qed.


(** What [set] leaves in the hot tier: the payload under the derived key,
    stamped with the time of the write. *)
Lemma set_writes_hot_entry (w : World) (kv : Tier) (toolName : string)
    (args : Obj) (d : JsVal) :
  SPORTS_CACHE w = Some kv -> healthy 1 kv ->
  exists kv',
    SPORTS_CACHE (set toolName args d w).2 = Some kv'
    /\ store kv' !! _generateKey toolName args =
         Some {| payload := d; timestamp := clock w;
                 tool_of := None; args_of := None |}.
Proof.
  intros Hkv Hh. unfold set, Date_now.
  rewrite ask_bind_run, try_catch_run, M_bind_run.
  destruct (setHot_healthy w kv (_generateKey toolName args) d 0 Hkv Hh)
    as (kv' & -> & Hs & _).
  cbv beta iota. rewrite M_bind_run.
  exists kv'. split; [|rewrite Hs; apply lookup_insert_eq].
  unfold _setCold.
  destruct (SPORTS_STORAGE (with_kv (Some kv') w)) as [r2|]; [|done].
  by destruct (tier_put r2 _ _) as [[[]|msg] r2'].
Qed.

(** *** Writing *)

Lemma getSmartTTL_run (toolName : string) (args : Obj) (w : World) :
  exists ttl, getSmartTTL toolName args w = (Ok ttl, w).
Proof.
  unfold getSmartTTL, Date_now. rewrite ask_bind_run.
  match goal with |- context [if ?b then _ else _] => destruct b end; eauto.
Qed.

Lemma set_run (toolName : string) (args : Obj) (d : JsVal) (w : World) :
  exists b w', set toolName args d w = (Ok b, w').
Proof.
  unfold set, Date_now. rewrite ask_bind_run, try_catch_run.
  match goal with
  | |- context [match ?x with (_, _) => _ end] => destruct x as [[r|msg] w']
  end; eauto.
Qed.


End CacheProperties.

Lemma expired_hot_entry_not_served_witness :
  let args := [("teamId", JStr "147")] in
  let w0 := sample_world 0 (Some (no_faults ∅)) None [] in
  let w := at_time 11000 (set "get_team_info" args (JStr "Yankees") w0).2 in
  (get "get_team_info" args w).1 = Ok None.
Proof.
  intros args w0 w.
  refine (proj2 (proj2 (expired_hot_entry_not_served w "get_team_info" args
            (no_faults {[ "sports:get_team_info:teamId:147" :=
                            {| payload := JStr "Yankees"; timestamp := 0;
                               tool_of := None; args_of := None |} ]})
            {| payload := JStr "Yankees"; timestamp := 0;
               tool_of := None; args_of := None |} _ _ _)) _).
  - vm_compute. reflexivity.
  - vm_compute. reflexivity.
  - vm_compute. discriminate.
  - intros r2 c Hr2. vm_compute in Hr2. discriminate.
Defined.





(** ** The resolve/enrich pipeline *)

Section PipelineProperties.
Context `{Host}.

Lemma enrich_without_entities (toolCall : ToolCall) :
  _enrichToolArguments toolCall ∅ = arguments toolCall.
Proof.
  unfold _enrichToolArguments.
  induction (default [] (toolEntityMap (name toolCall))) as [|e l IH] using rev_ind;
    [done|].
  rewrite foldl_app. simpl. rewrite IH. unfold enrich_entity.
  by rewrite lookup_empty.
Qed.

(** With no resolved entity of its type, a call is executed with its own
    arguments. *)
Lemma enrich_unresolved (toolCall : ToolCall) (m : gmap string JsVal)
    (ty : string) :
  m !! ty = None -> toolEntityMap (name toolCall) = Some [ty] ->
  _enrichToolArguments toolCall m = arguments toolCall.
Proof.
  intros Hm Hreq. unfold _enrichToolArguments. rewrite Hreq. simpl.
  unfold enrich_entity. by rewrite Hm.
Qed.

(** The first loop: one captured outcome per resolver call, in order; it
    never throws; an entity type none of whose resolvers succeeded keeps its
    entry of the map; every entity it stores has a truthy id. *)
Lemma resolve_pass_spec (toolCalls : list ToolCall) :
  forall (results : list ExecutionResult) (m : gmap string JsVal) (w : World),
  exists rs m' w',
    Orchestrator.resolve_pass toolCalls results m w = (Ok (results ++ rs, m'), w')
    /\ map tool rs = map name (resolver_calls toolCalls)
    /\ Forall captured rs
    /\ (forall ty, unresolved ty rs -> m' !! ty = m !! ty)
    /\ (ids_truthy m -> ids_truthy m').
Proof.
  induction toolCalls as [|c rest IH]; intros results m w.
  - exists [], m, w. rewrite app_nil_r. by repeat split.
  - simpl. unfold resolver_calls. rewrite filter_cons.
    destruct (isResolver (name c)) eqn:Hres.
    + rewrite decide_True by done.
      rewrite M_bind_run, try_catch_run, M_bind_run.
      destruct (Orchestrator._executeSingleTool (name c) (arguments c) w)
        as [[r|msg] w1].
      * cbv beta iota. set (ok := succeeded (name c) r None).
        fold (resolver_calls rest).
        assert (Hfin : forall m1,
                  (forall ty, entity_of_resolver (name c) <> ty ->
                              m1 !! ty = m !! ty) ->
                  (ids_truthy m -> ids_truthy m1) ->
                  exists rs m' w',
                    Orchestrator.resolve_pass rest (results ++ [ok]) m1 w1
                      = (Ok (results ++ rs, m'), w')
                    /\ map tool rs = map name (c :: resolver_calls rest)
                    /\ Forall captured rs
                    /\ (forall ty, unresolved ty rs -> m' !! ty = m !! ty)
                    /\ (ids_truthy m -> ids_truthy m')).
        { intros m1 Hother Hids.
          destruct (IH (results ++ [ok]) m1 w1)
            as (rs & m' & w' & Hrun & Hn & Hc & Hm & Hi).
          exists (ok :: rs), m', w'. rewrite <- app_assoc in Hrun.
          split; [exact Hrun|]. split; [simpl; by rewrite Hn|].
          split; [|split].
          - constructor; [|done]. unfold captured. simpl. eauto.
          - intros ty Hun. inversion Hun as [|? ? Hok Hrest]; subst.
            rewrite (Hm ty Hrest). apply Hother.
            intros Heq. by specialize (Hok Heq).
          - auto. }
        destruct (truthy r && truthy (prop r "id")) eqn:Hid; apply Hfin; auto.
        -- intros ty Hne. simpl. by apply lookup_insert_ne.
        -- intros Hids ty e. simpl. rewrite lookup_insert.
           destruct (decide (entity_of_resolver (name c) = ty)).
           ++ intros [= <-]. by apply andb_true_iff in Hid as [_ Hid].
           ++ apply Hids.
      * cbv beta iota. set (ko := failed (name c) msg).
        fold (resolver_calls rest).
        destruct (IH (results ++ [ko]) m w1)
          as (rs & m' & w' & Hrun & Hn & Hc & Hm & Hi).
        exists (ko :: rs), m', w'. rewrite <- app_assoc in Hrun.
        split; [exact Hrun|]. split; [simpl; by rewrite Hn|].
        split; [|split; [|done]].
        -- constructor; [|done]. unfold captured. simpl. eauto.
        -- intros ty Hun. apply Hm. by inversion Hun.
    + rewrite decide_False by discriminate.
      apply IH.
Qed.

Lemma attempted_tools (run : ToolCall -> M JsVal) (flag : option bool)
    (calls : list ToolCall) (w w' : World) (rs : list ExecutionResult) :
  attempted run flag calls w rs w' -> map tool rs = map name calls.
Proof.
  induction 1 as [|c rest w w1 w' r rs Hrun _ IH]; [done|].
  simpl. rewrite IH. by destruct r.
Qed.

Lemma attempted_captured (run : ToolCall -> M JsVal) (flag : option bool)
    (calls : list ToolCall) (w w' : World) (rs : list ExecutionResult) :
  attempted run flag calls w rs w' -> Forall captured rs.
Proof.
  induction 1 as [|c rest w w1 w' r rs Hrun _ IH]; constructor; [|done].
  unfold captured. destruct r; simpl; eauto.
Qed.

(** One turn of the second loop: the attempt, and its outcome appended. *)
Lemma enrich_step_run (c : ToolCall) (m : gmap string JsVal)
    (results : list ExecutionResult) (w : World) :
  try_catch
    (if inherited (name c)
     then throw "requiredEntities is not iterable"
     else
       r ← Orchestrator._executeSingleTool (name c) (_enrichToolArguments c m);
       mret (results ++ [succeeded (name c) r (Some true)]))
    (fun msg => mret (results ++ [failed (name c) msg])) w
  = (Ok (results ++ [outcome (name c) (Some true) (run_enriched m c w).1]),
     (run_enriched m c w).2).
Proof.
  rewrite try_catch_run. unfold run_enriched.
  destruct (inherited (name c)); [done|].
  rewrite M_bind_run.
  by destruct (Orchestrator._executeSingleTool _ _ w) as [[r|msg] w1].
Qed.

(** The second loop attempts every other call, in order, with the
    arguments enriched from the map; it never throws. *)
Lemma enrich_pass_attempted (toolCalls : list ToolCall)
    (m : gmap string JsVal) :
  forall (results : list ExecutionResult) (w : World),
  exists rs w',
    Orchestrator.enrich_pass toolCalls m results w = (Ok (results ++ rs), w')
    /\ attempted (run_enriched m) (Some true) (data_calls toolCalls) w rs w'.
Proof.
  induction toolCalls as [|c rest IH]; intros results w.
  - exists [], w. rewrite app_nil_r. split; [done|]. constructor.
  - simpl. unfold data_calls. rewrite filter_cons.
    destruct (isResolver (name c)) eqn:Hres.
    + change (negb true) with false. cbv iota.
      rewrite decide_False by discriminate. apply IH.
    + change (negb false) with true. cbv iota.
      rewrite decide_True by done. fold (data_calls rest).
      rewrite M_bind_run, enrich_step_run.
      destruct (IH (results ++ [outcome (name c) (Some true)
                                   (run_enriched m c w).1])
                   (run_enriched m c w).2) as (rs & w' & Hrun & Hatt).
      eexists (_ :: rs), w'. rewrite <- app_assoc in Hrun.
      split; [exact Hrun|].
      econstructor; [|exact Hatt]. by destruct (run_enriched m c w).
Qed.

(** The second loop: one captured outcome per other call, in order; it
    never throws. *)
Lemma enrich_pass_spec (toolCalls : list ToolCall) (m : gmap string JsVal) :
  forall (results : list ExecutionResult) (w : World),
  exists rs w',
    Orchestrator.enrich_pass toolCalls m results w = (Ok (results ++ rs), w')
    /\ map tool rs = map name (data_calls toolCalls)
    /\ Forall captured rs.
Proof.
  intros results w.
  destruct (enrich_pass_attempted toolCalls m results w)
    as (rs & w' & Hrun & Hatt).
  exists rs, w'. split; [exact Hrun|].
  split; [by eapply attempted_tools|by eapply attempted_captured].
Qed.

Lemma resolver_data_length (toolCalls : list ToolCall) :
  length (resolver_calls toolCalls) + length (data_calls toolCalls)
  = length toolCalls.
Proof.
  unfold resolver_calls, data_calls.
  induction toolCalls as [|c rest IH]; [done|].
  rewrite !filter_cons. destruct (isResolver (name c)) eqn:E.
  - rewrite decide_True, decide_False by done. simpl. lia.
  - rewrite decide_False, decide_True by done. simpl. lia.
Qed.

(** The two loops put together. *)
Lemma processToolCalls_spec (toolCalls : list ToolCall) (w : World) :
  exists rs1 m w1 rs2 w2,
    Orchestrator.resolve_pass toolCalls [] ∅ w = (Ok (rs1, m), w1)
    /\ Orchestrator.enrich_pass toolCalls m rs1 w1 = (Ok (rs1 ++ rs2), w2)
    /\ Orchestrator._processToolCalls toolCalls w = (Ok (rs1 ++ rs2), w2)
    /\ map tool rs1 = map name (resolver_calls toolCalls)
    /\ map tool rs2 = map name (data_calls toolCalls)
    /\ Forall captured (rs1 ++ rs2)
    /\ (forall ty, unresolved ty rs1 -> m !! ty = None)
    /\ ids_truthy m.
Proof.
  destruct (resolve_pass_spec toolCalls [] ∅ w)
    as (rs1 & m & w1 & Hr & Hn1 & Hc1 & Hm & Hi).
  destruct (enrich_pass_spec toolCalls m rs1 w1) as (rs2 & w2 & He & Hn2 & Hc2).
  exists rs1, m, w1, rs2, w2. simpl in Hr.
  split; [exact Hr|]. split; [exact He|]. split.
  { unfold Orchestrator._processToolCalls. rewrite M_bind_run, Hr.
    exact He. }
  split; [done|]. split; [done|]. split; [by apply Forall_app|]. split.
  - intros ty Hun. by rewrite (Hm ty Hun).
  - apply Hi. intros ty e. by rewrite lookup_empty.
Qed.

Lemma tools_of_names (P : string -> Prop) (rs : list ExecutionResult)
    (calls : list ToolCall) :
  map tool rs = map name calls ->
  Forall (fun c => P (name c)) calls -> Forall (fun r => P (tool r)) rs.
Proof.
  revert calls. induction rs as [|r rs IH]; intros [|c calls] Heq Hall;
    try discriminate; [constructor|].
  inversion Heq as [[Hn Hrest]]. inversion Hall; subst.
  constructor; [by rewrite Hn|by eapply IH].
Qed.

(** C2. Whatever the order of the input calls, the returned list holds the
    results of the resolver calls first and the results of all other calls
    after them, each group in the order of the input. *)
Theorem process_resolvers_first (toolCalls : list ToolCall) (w : World) :
  exists rs1 rs2 w',
    Orchestrator._processToolCalls toolCalls w = (Ok (rs1 ++ rs2), w')
    /\ map tool rs1 = map name (resolver_calls toolCalls)
    /\ map tool rs2 = map name (data_calls toolCalls)
    /\ Forall (fun r => isResolver (tool r) = true) rs1
    /\ Forall (fun r => isResolver (tool r) = false) rs2.
Proof.
  destruct (processToolCalls_spec toolCalls w)
    as (rs1 & m & w1 & rs2 & w2 & _ & _ & Hrun & Hn1 & Hn2 & _).
  exists rs1, rs2, w2. repeat split; try done.
  - apply (tools_of_names (fun n => isResolver n = true) _ _ Hn1), Forall_forall.
    intros c Hc. unfold resolver_calls in Hc.
    by apply list_elem_of_filter in Hc as [Hc _].
  - apply (tools_of_names (fun n => isResolver n = false) _ _ Hn2), Forall_forall.
    intros c Hc. unfold data_calls in Hc.
    by apply list_elem_of_filter in Hc as [Hc _].
Qed.

(** The first loop attempts every resolver call, in order, with the call's
    own arguments; it never throws. *)
Lemma resolve_pass_attempted (toolCalls : list ToolCall) :
  forall (results : list ExecutionResult) (m : gmap string JsVal) (w : World),
  exists rs m' w',
    Orchestrator.resolve_pass toolCalls results m w = (Ok (results ++ rs, m'), w')
    /\ attempted run_resolver None (resolver_calls toolCalls) w rs w'.
Proof.
  induction toolCalls as [|c rest IH]; intros results m w.
  - exists [], m, w. rewrite app_nil_r. split; [done|]. constructor.
  - simpl. unfold resolver_calls. rewrite filter_cons.
    destruct (isResolver (name c)) eqn:Hres.
    + rewrite decide_True by done. fold (resolver_calls rest).
      rewrite M_bind_run, try_catch_run, M_bind_run.
      destruct (Orchestrator._executeSingleTool (name c) (arguments c) w)
        as [[r|msg] w1] eqn:Hexec; cbv beta iota.
      * destruct (truthy r && truthy (prop r "id")); simpl;
          match goal with
          | |- context [Orchestrator.resolve_pass rest ?res ?m1 w1] =>
              destruct (IH res m1 w1) as (rs & m' & w' & Hrun & Hatt)
          end;
          exists (outcome (name c) None (Ok r) :: rs), m', w';
          rewrite <- app_assoc in Hrun; (split; [exact Hrun|]);
          by econstructor.
      * simpl.
        destruct (IH (results ++ [failed (name c) msg]) m w1)
          as (rs & m' & w' & Hrun & Hatt).
        exists (outcome (name c) None (Throw msg) :: rs), m', w'.
        rewrite <- app_assoc in Hrun. split; [exact Hrun|].
        by econstructor.
    + rewrite decide_False by discriminate. apply IH.
Qed.

Lemma toolEntityMap_not_inherited (toolName : string)
    (required : list string) :
  toolEntityMap toolName = Some required -> inherited toolName = false.
Proof.
  unfold toolEntityMap.
  repeat (match goal with
          | |- context [String.eqb toolName ?b] =>
              destruct (String.eqb_spec toolName b) as [->|?]; [done|]
          end).
  discriminate.
Qed.

(** C3. [_processToolCalls] never throws. It attempts every call: first
    each resolver call, in order, with its own arguments, then each other
    call, in order, with the arguments enriched from the map the first loop
    left, every attempt starting in the world the previous one left,
    whether that one returned or threw. The returned list holds one outcome
    per call: [success: true] with the result when the attempt returned,
    [success: false] with the error message when it threw. When no resolver
    of an entity type succeeded, the map holds no entity of that type and a
    call that depends on it is attempted with its own arguments. *)
Theorem process_never_throws (toolCalls : list ToolCall) (w : World) :
  exists rs w',
    Orchestrator._processToolCalls toolCalls w = (Ok rs, w')
    /\ length rs = length toolCalls
    /\ Forall captured rs
    /\ exists rs1 m w1 rs2,
         Orchestrator.resolve_pass toolCalls [] ∅ w = (Ok (rs1, m), w1)
         /\ Orchestrator.enrich_pass toolCalls m rs1 w1 = (Ok rs, w')
         /\ length rs = length rs1 + length (data_calls toolCalls)
         /\ rs = rs1 ++ rs2
         /\ attempted run_resolver None (resolver_calls toolCalls) w rs1 w1
         /\ attempted (run_enriched m) (Some true) (data_calls toolCalls)
              w1 rs2 w'
         /\ forall ty, unresolved ty rs1 ->
               m !! ty = None
               /\ forall c, toolEntityMap (name c) = Some [ty] ->
                     _enrichToolArguments c m = arguments c
                     /\ run_enriched m c = run_resolver c.
Proof.
  destruct (processToolCalls_spec toolCalls w)
    as (rs1 & m & w1 & rs2 & w2 & Hr & He & Hrun & Hn1 & Hn2 & Hc & Hm & _).
  assert (Hl1 : length rs1 = length (resolver_calls toolCalls)).
  { by rewrite <- (length_map tool rs1), Hn1, length_map. }
  assert (Hl2 : length rs2 = length (data_calls toolCalls)).
  { by rewrite <- (length_map tool rs2), Hn2, length_map. }
  exists (rs1 ++ rs2), w2. split; [exact Hrun|]. split.
  { rewrite length_app, Hl1, Hl2. apply resolver_data_length. }
  split; [exact Hc|].
  exists rs1, m, w1, rs2. split; [exact Hr|]. split; [exact He|]. split.
  { rewrite length_app. lia. }
  split; [done|]. split; [|split].
  - destruct (resolve_pass_attempted toolCalls [] ∅ w)
      as (rs1' & m' & w1' & Hr' & Hatt).
    simpl in Hr'. rewrite Hr in Hr'. by injection Hr' as <- <- <-.
  - destruct (enrich_pass_attempted toolCalls m rs1 w1)
      as (rs2' & w2' & He' & Hatt).
    rewrite He in He'. injection He' as Heq <-.
    by apply app_inv_head in Heq as <-.
  - intros ty Hun. split; [by apply Hm|].
    intros c Hreq.
    assert (Hown : _enrichToolArguments c m = arguments c)
      by (eapply enrich_unresolved; [by apply Hm|exact Hreq]).
    split; [exact Hown|].
    unfold run_enriched, run_resolver.
    by rewrite (toolEntityMap_not_inherited _ _ Hreq), Hown.
Qed.

(** The map that the second loop reads holds only entities with a truthy
    id: the case that enrichment acts on. *)
Lemma resolved_entities_have_ids (toolCalls : list ToolCall) (w : World)
    (rs1 : list ExecutionResult) (m : gmap string JsVal) (w1 : World) :
  Orchestrator.resolve_pass toolCalls [] ∅ w = (Ok (rs1, m), w1) ->
  ids_truthy m.
Proof.
  intros Hr.
  destruct (processToolCalls_spec toolCalls w)
    as (rs1' & m' & w1' & rs2 & w2 & Hr' & _ & _ & _ & _ & _ & _ & Hi).
  rewrite Hr in Hr'. by injection Hr' as <- <- <-.
Qed.

End PipelineProperties.

(** ** Event streaming *)

Section StreamingProperties.
Context `{Host}.

Lemma frames_ret {A} (a : A) : frames_writer (mret a).
Proof. by intros w. Qed.

Lemma frames_throw {A} (msg : string) : frames_writer (throw (A:=A) msg).
Proof. by intros w. Qed.

Lemma frames_ask {A} (f : World -> A) : frames_writer (ask f).
Proof. by intros w. Qed.

Lemma frames_lift {A} (r : Res A) : frames_writer (lift r).
Proof. by intros w. Qed.

Lemma frames_bind {A B} (m : M A) (k : A -> M B) :
  frames_writer m -> (forall a, frames_writer (k a)) ->
  frames_writer (m ≫= k).
Proof.
  intros Hm Hk w. rewrite M_bind_run. specialize (Hm w).
  destruct (m w) as [[a|msg] w1]; simpl in *; [|done].
  by rewrite Hk.
Qed.

Lemma frames_try_catch {A} (body : M A) (handler : string -> M A) :
  frames_writer body -> (forall msg, frames_writer (handler msg)) ->
  frames_writer (try_catch body handler).
Proof.
  intros Hb Hh w. rewrite try_catch_run. specialize (Hb w).
  destruct (body w) as [[a|msg] w1]; simpl in *; [done|].
  by rewrite Hh.
Qed.

Lemma frames_kv_get (key : string) : frames_writer (kv_get key).
Proof.
  intros w. unfold kv_get. destruct (SPORTS_CACHE w); [|done].
  by destruct (tier_get _ _).
Qed.

Lemma frames_r2_get (key : string) : frames_writer (r2_get key).
Proof.
  intros w. unfold r2_get. destruct (SPORTS_STORAGE w); [|done].
  by destruct (tier_get _ _).
Qed.

Lemma frames_setHot (key : string) (d : JsVal) : frames_writer (_setHot key d).
Proof.
  intros w. unfold _setHot. destruct (SPORTS_CACHE w); [|done].
  by destruct (tier_put _ _ _).
Qed.

Lemma frames_setCold (key : string) (d : CachedData) :
  frames_writer (_setCold key d).
Proof.
  intros w. unfold _setCold. destruct (SPORTS_STORAGE w); [|done].
  by destruct (tier_put _ _ _).
Qed.

Lemma frames_route (toolName : string) (args : Obj) :
  frames_writer (Orchestrator.route_and_normalize toolName args).
Proof.
  apply frames_bind; [|intros raw; apply frames_lift].
  intros w. unfold Orchestrator._routeToolCall.
  destruct (MLB_MCP w) as [mcpService|]; [|done].
  destruct (Orchestrator.commandMap toolName) as [command|]; [|done].
  by destruct (mcp_fetch _ _).
Qed.

Ltac frames :=
  repeat first
    [ apply frames_ret | apply frames_throw | apply frames_ask
    | apply frames_lift | apply frames_kv_get | apply frames_r2_get
    | apply frames_setHot | apply frames_setCold | apply frames_route
    | apply frames_bind; [|intros ?]
    | apply frames_try_catch; [|intros ?]
    | match goal with
      | |- frames_writer (match ?x with _ => _ end) => destruct x
      end ].

Lemma frames_get (toolName : string) (args : Obj) :
  frames_writer (get toolName args).
Proof. unfold get, try_cold, _isValid, Date_now. frames. Qed.

Lemma frames_set (toolName : string) (args : Obj) (d : JsVal) :
  frames_writer (set toolName args d).
Proof. unfold set, Date_now. frames. Qed.

Lemma frames_executeSingleTool (toolName : string) (args : Obj) :
  frames_writer (Orchestrator._executeSingleTool toolName args).
Proof.
  unfold Orchestrator._executeSingleTool, Orchestrator.callTool,
    getSmartTTL, Date_now.
  apply frames_bind; [apply frames_get|intros [hit|]]; [frames|].
  apply frames_bind; [frames|intros r].
  destruct (negb (isError r)); [|frames].
  apply frames_bind; [frames|intros parsed].
  apply frames_bind; [frames|intros ttl].
  apply frames_bind; [apply frames_set|intros b]. frames.
Qed.

Lemma emits_of_frames {A} (m : M A) : frames_writer m -> emits_plain m.
Proof.
  intros Hm w. exists []. rewrite Hm. simpl. by rewrite app_nil_r.
Qed.

Lemma emits_bind {A B} (m : M A) (k : A -> M B) :
  emits_plain m -> (forall a, emits_plain (k a)) -> emits_plain (m ≫= k).
Proof.
  intros Hm Hk w. rewrite M_bind_run. destruct (Hm w) as (evs & Ho & Hp).
  destruct (m w) as [[a|msg] w1]; simpl in *; [|eauto].
  destruct (Hk a w1) as (evs' & Ho' & Hp').
  exists (evs ++ evs'). rewrite Ho', Ho, map_app, app_assoc.
  split; [done|by apply Forall_app].
Qed.

(** What one [write] does to the stream. *)
Lemma writer_write_run (e : Event) (w : World) :
  ops (writer (Orchestrator.writer_write e w).2) =
    ops (writer w) ++ match (Orchestrator.writer_write e w).1 with
                      | Ok _ => [Chunk e]
                      | Throw _ => []
                      end.
Proof.
  unfold Orchestrator.writer_write.
  destruct (wfaults (writer w)) as [|[msg|] rest]; simpl; try done.
  by rewrite app_nil_r.
Qed.

Lemma emits_write (e : Event) :
  plain e -> emits_plain (Orchestrator.writer_write e).
Proof.
  intros He w. rewrite writer_write_run.
  destruct (Orchestrator.writer_write e w).1.
  - exists [e]. split; [done|by constructor].
  - exists []. split; [done|constructor].
Qed.

Lemma emits_for_of {A} (xs : list A) (body : A -> M unit) :
  (forall x, emits_plain (body x)) -> emits_plain (Orchestrator.for_of xs body).
Proof.
  intros Hb. induction xs as [|x rest IH]; simpl.
  - apply emits_of_frames, frames_ret.
  - apply emits_bind; [apply Hb|intros _; apply IH].
Qed.

Lemma emits_stream_words (responseText : string) :
  emits_plain (Orchestrator.stream_words responseText).
Proof.
  unfold Orchestrator.stream_words. apply emits_for_of.
  intros word. by apply emits_write.
Qed.

Lemma ends_bind {A} (responseId : string) (m : M A) (k : A -> M unit) :
  emits_plain m -> (forall a, ends_completed responseId (k a)) ->
  ends_completed responseId (m ≫= k).
Proof.
  intros Hm Hk w. rewrite M_bind_run. destruct (Hm w) as (evs & Ho & Hp).
  destruct (m w) as [[a|msg] w1]; simpl in *.
  - destruct (Hk a w1) as (evs' & Hp' & Ho').
    exists (evs ++ evs'). split; [by apply Forall_app|].
    by rewrite Ho', Ho, <- (app_assoc evs), (map_app _ evs), app_assoc.
  - exists evs. split; [done|]. by rewrite app_nil_r.
Qed.

Lemma ends_write_completed (responseId : string) :
  ends_completed responseId
    (Orchestrator.writer_write (response_completed responseId)).
Proof.
  intros w. exists []. split; [constructor|]. rewrite writer_write_run.
  by destruct (Orchestrator.writer_write _ w).1.
Qed.

(** The [try] block: non-terminal chunks, closed by [response.completed]
    exactly when the block runs to its end. *)
Lemma stream_body_ends (responseId : string) (input : JsVal)
    (tools : list JsVal) :
  ends_completed responseId (Orchestrator.stream_body responseId input tools).
Proof.
  unfold Orchestrator.stream_body, Date_now.
  apply ends_bind; [apply emits_of_frames, frames_ask|intros now].
  apply ends_bind; [by apply emits_write|intros _].
  apply ends_bind; [by apply emits_write|intros _].
  apply ends_bind; [apply emits_of_frames, frames_lift|intros toolCalls].
  apply ends_bind; [|intros _; apply ends_write_completed].
  destruct toolCalls as [|c rest]; [apply emits_stream_words|].
  apply emits_for_of. intros toolCall.
  apply emits_bind; [by apply emits_write|intros _].
  apply emits_bind;
    [apply emits_of_frames, frames_executeSingleTool|intros r].
  apply emits_bind; [by apply emits_write|intros _].
  apply emits_stream_words.
Qed.

Lemma writer_close_run (w : World) :
  ops (writer (Orchestrator.writer_close w).2) = ops (writer w) ++ [Close].
Proof.
  unfold Orchestrator.writer_close.
  by destruct (wfaults (writer w)) as [|[msg|] rest].
Qed.

(** C7. Every streaming run appends to the stream a sequence of
    non-terminal events, then at most one terminal event, then exactly one
    [close()], which is the last operation. The terminal event is
    [response.completed] exactly when the [try] block ran to its end; when
    the block threw, [response.completed] is not emitted at all and the
    only possible terminal event is the [response.error] carrying the
    message. *)
Theorem streaming_terminal_events (responseId : string) (input : JsVal)
    (tools : list JsVal) (w : World) :
  exists evs terminal,
    ops (writer
           (Orchestrator._processStreamingRequest responseId input tools w).2)
      = ops (writer w) ++ map Chunk (evs ++ terminal) ++ [Close]
    /\ Forall plain evs
    /\ match (Orchestrator.stream_body responseId input tools w).1 with
       | Ok _ => terminal = [response_completed responseId]
       | Throw msg => terminal = [response_error msg] \/ terminal = []
       end.
Proof.
  unfold Orchestrator._processStreamingRequest, try_finally.
  rewrite try_catch_run.
  destruct (stream_body_ends responseId input tools w) as (evs & Hp & Ho).
  destruct (Orchestrator.stream_body responseId input tools w)
    as [[[]|msg] w1]; simpl in Ho |- *.
  - exists evs, [response_completed responseId].
    pose proof (writer_close_run w1) as Hc.
    destruct (Orchestrator.writer_close w1) as [[[]|msg] w2]; simpl in *;
      rewrite Hc, Ho; repeat rewrite <- app_assoc;
      (split; [reflexivity|auto]).
  - pose proof (writer_write_run (response_error msg) w1) as Hw.
    destruct (Orchestrator.writer_write (response_error msg) w1)
      as [[[]|msg'] w2]; simpl in Hw;
      pose proof (writer_close_run w2) as Hc;
      destruct (Orchestrator.writer_close w2) as [[[]|msg''] w3];
      simpl in *; rewrite app_nil_r in Ho.
    + exists evs, [response_error msg].
      rewrite Hc, Hw, Ho, map_app. repeat rewrite <- app_assoc.
      split; [reflexivity|auto].
    + exists evs, [response_error msg].
      rewrite Hc, Hw, Ho, map_app. repeat rewrite <- app_assoc.
      split; [reflexivity|auto].
    + exists evs, []. rewrite Hc, Hw, Ho, !app_nil_r.
      repeat rewrite <- app_assoc. split; [reflexivity|auto].
    + exists evs, []. rewrite Hc, Hw, Ho, !app_nil_r.
      repeat rewrite <- app_assoc. split; [reflexivity|auto].
Qed.

End StreamingProperties.

Lemma process_never_throws_witness :
  let calls := [roster_call []; resolver_call "resolve_team" (JStr "yankees")] in
  let w := sample_world 0 None None [Throw "Not found"; Ok (JStr "roster")] in
  exists w',
    @Orchestrator._processToolCalls sample_host calls w =
      (Ok [failed "resolve_team" "[object Object]";
           succeeded "get_team_roster" (JStr "roster") (Some true)], w')
    /\ MLB_MCP w' = Some []
    /\ exists m, m !! "team" = None
         /\ @run_enriched sample_host m (roster_call [])
            = run_resolver (roster_call []).
Proof.
  intros calls w.
  destruct (@process_never_throws sample_host calls w)
    as (rs & w' & Hrun & _ & _ & rs1 & m & w1 & rs2 & Hr & _ & _ & _ & _ & _
        & Hfail).
  exists w'. vm_compute in Hr. injection Hr as <- <- <-.
  pose proof Hrun as Hval. vm_compute in Hval. injection Hval as <- <-.
  split; [exact Hrun|]. split; [reflexivity|].
  destruct (Hfail "team") as [Hnone Hown].
  - repeat constructor.
  - exists ∅. split; [exact Hnone|]. by apply Hown.
Defined.

(** ** Usage *)

Section UsageProperties.
Context `{Host}.

(** C9, evaluated. A request for ["Hello"] with no tools takes the path
    without tool calls: the reported output count is the constant 50, not
    the estimate 44 of the text returned, and the input count is the
    estimate of the length of the message array (one message), not of the
    input text. *)
Theorem usage_without_tool_calls (random : string) (w : World) :
  (Orchestrator.processResponsesAPIRequest
     (JStr "Hello") [] JUndefined false JUndefined random w).1
    = Ok (Response greeting_response
            {| input_tokens := Some 1%Z; output_tokens := Some 50%Z;
               total_tokens := Some 51%Z |})
  /\ _estimateTokens (JStr greeting_response) = Some 44%Z
  /\ _estimateTokens (JStr "Hello") = Some 2%Z.
Proof. repeat split. Qed.

End UsageProperties.

(** * Further properties of the code *)

(** ** Cache manager *)

Section CacheBehaviour.
Context `{Host}.

Lemma same_env_refl (w : World) : same_env w w.
Proof. by repeat split. Qed.

Lemma same_env_trans (w1 w2 w3 : World) :
  same_env w1 w2 -> same_env w2 w3 -> same_env w1 w3.
Proof.
  intros (? & ? & ? & ? & ?) (? & ? & ? & ? & ?). repeat split; congruence.
Qed.

Lemma tier_put_cases (t : Tier) (key : string) (d : CachedData) :
  (exists msg t', tier_put t key d = (Throw msg, t') /\ store t' = store t)
  \/ (exists t', tier_put t key d = (Ok tt, t')
                 /\ store t' = <[key := d]> (store t)).
Proof.
  unfold tier_put. pose proof (next_fault_store t) as Hs.
  destruct (next_fault t) as [[msg|] t']; simpl in Hs.
  - left. eauto.
  - right. eexists. split; [reflexivity|]. simpl. by rewrite Hs.
Qed.

(** What [_setHot] does to the world: nothing without a hot tier, else one
    operation of the tier, which writes the record unless it fails. *)
Lemma setHot_cases (key : string) (d : JsVal) (w : World) :
  (SPORTS_CACHE w = None /\ _setHot key d w = (Ok tt, w))
  \/ (exists kv r kv',
        SPORTS_CACHE w = Some kv
        /\ _setHot key d w = (r, with_kv (Some kv') w)
        /\ ((exists msg, r = Throw msg /\ store kv' = store kv)
            \/ (r = Ok tt
                /\ store kv' = <[key := hot_record d (clock w)]> (store kv)))).
Proof.
  unfold _setHot. destruct (SPORTS_CACHE w) as [kv|]; [right|by left].
  exists kv.
  destruct (tier_put_cases kv key (hot_record d (clock w)))
    as [(msg & t' & E & Hs)|(t' & E & Hs)];
    unfold hot_record in E; rewrite E; eauto 10.
Qed.

Lemma setCold_cases (key : string) (c : CachedData) (w : World) :
  (SPORTS_STORAGE w = None /\ _setCold key c w = (Ok tt, w))
  \/ (exists r2 r r2',
        SPORTS_STORAGE w = Some r2
        /\ _setCold key c w = (r, with_r2 (Some r2') w)
        /\ ((exists msg, r = Throw msg /\ store r2' = store r2)
            \/ (r = Ok tt /\ store r2' = <[key := c]> (store r2)))).
Proof.
  unfold _setCold. destruct (SPORTS_STORAGE w) as [r2|]; [right|by left].
  exists r2.
  destruct (tier_put_cases r2 key c) as [(msg & t' & E & Hs)|(t' & E & Hs)];
    rewrite E; eauto 10.
Qed.

Lemma r2_get_cases (w : World) (r2 : Tier) (key : string) :
  SPORTS_STORAGE w = Some r2 ->
  (exists msg t', r2_get key w = (Throw msg, with_r2 (Some t') w)
                  /\ store t' = store r2)
  \/ (exists t', r2_get key w = (Ok (store r2 !! key), with_r2 (Some t') w)
                 /\ store t' = store r2).
Proof.
  intros Hr2. unfold r2_get, tier_get. rewrite Hr2.
  pose proof (next_fault_store r2) as Hs.
  destruct (next_fault r2) as [[msg|] t']; simpl in Hs.
  - left. eauto.
  - right. exists t'. by rewrite Hs.
Qed.

Lemma kv_get_store (w : World) (kv : Tier) (key : string) :
  SPORTS_CACHE w = Some kv ->
  exists r t', kv_get key w = (r, with_kv (Some t') w) /\ store t' = store kv
               /\ (r = Ok (store kv !! key) \/ exists msg, r = Throw msg).
Proof.
  intros Hkv. unfold kv_get, tier_get. rewrite Hkv.
  pose proof (next_fault_store kv) as Hs.
  destruct (next_fault kv) as [[msg|] t']; simpl in Hs.
  - exists (Throw msg), t'. eauto.
  - exists (Ok (store t' !! key)), t'. rewrite Hs. eauto.
Qed.

Lemma same_env_fresh (w w' : World) (d : CachedData) :
  same_env w w' ->
  fresh w' d (hotTTL w') = fresh w d (hotTTL w)
  /\ fresh w' d (coldTTL w') = fresh w d (coldTTL w).
Proof.
  intros (Hc & Hh & Hl & _). unfold fresh, hotTTL, coldTTL.
  by rewrite Hc, Hh, Hl.
Qed.

(** The cold part of [get] leaves the cold records as they are, and the
    hot records too unless it returns the entry it promoted. *)
Lemma try_cold_cases (key : string) (w : World) :
  same_env w (try_cold key w).2
  /\ records (SPORTS_STORAGE (try_cold key w).2) = records (SPORTS_STORAGE w)
  /\ (records (SPORTS_CACHE (try_cold key w).2) = records (SPORTS_CACHE w)
      \/ exists hit kv,
           (try_cold key w).1 = Ok (Some hit) /\ source hit = "cold"
           /\ SPORTS_CACHE w = Some kv
           /\ records (SPORTS_CACHE (try_cold key w).2) =
                Some (<[key := hot_record (data hit) (clock w)]> (store kv))).
Proof.
  unfold try_cold. rewrite M_bind_run.
  destruct (SPORTS_STORAGE w) as [r2|] eqn:Er2.
  2:{ unfold r2_get. rewrite Er2. simpl. rewrite Er2.
      split; [apply same_env_refl|]. by split; [|left]. }
  assert (Henv : forall t', same_env w (with_r2 (Some t') w))
    by (intros; by repeat split).
  destruct (r2_get_cases w r2 key Er2) as [(msg & t' & E & Hs)|(t' & E & Hs)];
    rewrite E.
  { simpl. rewrite Hs. split; [apply Henv|]. by split; [|left]. }
  set (w1 := with_r2 (Some t') w).
  assert (Hcold : records (SPORTS_STORAGE w1) = records (Some r2))
    by (unfold w1; simpl; by rewrite Hs).
  destruct (store r2 !! key) as [c|]; cbv beta iota.
  2:{ split; [apply Henv|]. split; [exact Hcold|by left]. }
  rewrite ask_bind_run, isValid_bind_run.
  destruct (fresh w1 c (coldTTL w1)).
  2:{ split; [apply Henv|]. split; [exact Hcold|by left]. }
  rewrite M_bind_run.
  destruct (setHot_cases key (payload c) w1)
    as [[Hnone E1]|(kv & r & kv' & Hkv & E1 & Hr)]; rewrite E1.
  - split; [apply Henv|]. split; [exact Hcold|by left].
  - destruct Hr as [(msg & -> & Hs')|[-> Hs']]; simpl.
    + rewrite Hs. change (SPORTS_CACHE w1) with (SPORTS_CACHE w) in Hkv.
      rewrite Hkv, Hs'. split; [by repeat split|]. by split; [|left].
    + rewrite Hs. change (SPORTS_CACHE w1) with (SPORTS_CACHE w) in Hkv.
      split; [by repeat split|]. split; [done|]. right.
      eexists _, kv. split; [reflexivity|]. simpl. by rewrite Hs'.
Qed.

(** The three ways [get] can go: the hot read fails, the hot entry is
    valid, or the cold part decides, with its errors answered by [null]. *)
Lemma get_cases (toolName : string) (args : Obj) (w : World) :
  exists w1,
    same_env w w1 /\ SPORTS_STORAGE w1 = SPORTS_STORAGE w
    /\ records (SPORTS_CACHE w1) = records (SPORTS_CACHE w)
    /\ (get toolName args w = (Ok None, w1)
        \/ (exists kv e,
              SPORTS_CACHE w = Some kv
              /\ store kv !! _generateKey toolName args = Some e
              /\ fresh w e (hotTTL w) = true
              /\ get toolName args w =
                   (Ok (Some {| data := payload e; source := "hot";
                                age := clock w - timestamp e |}), w1))
        \/ ((forall kv e,
               SPORTS_CACHE w = Some kv ->
               store kv !! _generateKey toolName args = Some e ->
               fresh w e (hotTTL w) = false)
            /\ get toolName args w =
                 match try_cold (_generateKey toolName args) w1 with
                 | (Ok r, w') => (Ok r, w')
                 | (Throw _, w') => (Ok None, w')
                 end)).
Proof.
  unfold get. set (key := _generateKey toolName args). clearbody key.
  rewrite try_catch_run, M_bind_run.
  destruct (SPORTS_CACHE w) as [kv|] eqn:Ekv.
  - destruct (kv_get_store w kv key Ekv) as (r & t' & E & Hs & Hr).
    rewrite E. exists (with_kv (Some t') w).
    split; [by repeat split|]. split; [done|].
    split; [simpl; by rewrite Hs|].
    destruct Hr as [->|[msg ->]]; [|by left].
    set (w1 := with_kv (Some t') w). rewrite ask_bind_run.
    destruct (store kv !! key) as [e|] eqn:Ee.
    + rewrite isValid_bind_run.
      change (fresh w1 e (hotTTL w1)) with (fresh w e (hotTTL w)).
      destruct (fresh w e (hotTTL w)) eqn:Hf.
      * right. left. by exists kv, e.
      * right. right. split; [|by destruct (try_cold key w1) as [[?|?] ?]].
        intros kv0 e0 [= <-]. rewrite Ee. by intros [= <-].
    + right. right. split; [|by destruct (try_cold key w1) as [[?|?] ?]].
      intros kv0 e0 [= <-]. by rewrite Ee.
  - exists w. split; [apply same_env_refl|]. split; [done|].
    split; [by rewrite Ekv|].
    right. right. split; [done|].
    unfold kv_get. rewrite Ekv. rewrite ask_bind_run.
    by destruct (try_cold key w) as [[?|?] ?].
Qed.

(** X1. Whatever [get] returns was valid when it was read. A hit with source
    [hot] is the hot record of the key, younger than [hotTTL]; a hit with
    source [cold] is the cold record of the key, younger than [coldTTL],
    and is returned only when the hot tier holds no valid record. The age
    reported is the time since the record was written. *)
Theorem get_hit_is_valid (toolName : string) (args : Obj) (w w' : World)
    (hit : CacheHit) :
  get toolName args w = (Ok (Some hit), w') ->
  (exists kv e,
     SPORTS_CACHE w = Some kv
     /\ store kv !! _generateKey toolName args = Some e
     /\ fresh w e (hotTTL w) = true
     /\ hit = {| data := payload e; source := "hot";
                 age := clock w - timestamp e |})
  \/ (exists r2 c,
        SPORTS_STORAGE w = Some r2
        /\ store r2 !! _generateKey toolName args = Some c
        /\ fresh w c (coldTTL w) = true
        /\ hit = {| data := payload c; source := "cold";
                    age := clock w - timestamp c |}
        /\ forall kv e,
             SPORTS_CACHE w = Some kv ->
             store kv !! _generateKey toolName args = Some e ->
             fresh w e (hotTTL w) = false).
Proof.
  intros Hget.
  destruct (get_cases toolName args w)
    as (w1 & Henv & Hst & _ & [E|[(kv & e & Hkv & He & Hf & E)|[Hstale E]]]);
    rewrite E in Hget.
  - discriminate.
  - left. exists kv, e. by injection Hget as <- _.
  - right.
    destruct (try_cold (_generateKey toolName args) w1)
      as [[[h|]|msg] w2] eqn:Ec; try discriminate.
    injection Hget as -> _.
    apply try_cold_hit in Ec as (r2 & c & Hr2 & Hc & Hfc & ->).
    exists r2, c. rewrite <- Hst.
    destruct (same_env_fresh w w1 c Henv) as [_ <-].
    destruct Henv as (<- & _). done.
Qed.

(** X2. [get] never writes the cold tier, and it leaves the clock, the TTL
    settings, the service binding and the stream writer alone. It writes the
    hot tier in one case only: to promote the cold entry that it returns,
    under the key it was asked for, stamped with the current time. *)
Theorem get_writes_only_promotion (toolName : string) (args : Obj)
    (w : World) :
  same_env w (get toolName args w).2
  /\ records (SPORTS_STORAGE (get toolName args w).2)
     = records (SPORTS_STORAGE w)
  /\ (records (SPORTS_CACHE (get toolName args w).2)
      = records (SPORTS_CACHE w)
      \/ exists hit entries,
           (get toolName args w).1 = Ok (Some hit) /\ source hit = "cold"
           /\ records (SPORTS_CACHE w) = Some entries
           /\ records (SPORTS_CACHE (get toolName args w).2) =
                Some (<[_generateKey toolName args :=
                          hot_record (data hit) (clock w)]> entries)).
Proof.
  destruct (get_cases toolName args w)
    as (w1 & Henv & Hst & Hrec & [E|[(kv & e & Hkv & He & Hf & E)|[_ E]]]);
    rewrite E.
  - simpl. rewrite Hst. by split; [|split; [|left]].
  - simpl. rewrite Hst. by split; [|split; [|left]].
  - destruct (try_cold_cases (_generateKey toolName args) w1)
      as (Henv2 & Hcold & Hhot).
    destruct (try_cold (_generateKey toolName args) w1) as [[r|msg] w2];
      simpl in *.
    + split; [by eapply same_env_trans|].
      split; [by rewrite Hcold, Hst|].
      destruct Hhot as [Hsame|(hit & kv & Hr & Hsrc & Hkv & Hput)].
      * left. by rewrite Hsame.
      * right. exists hit, (store kv). split; [done|]. split; [done|].
        rewrite <- Hrec, Hkv. split; [done|].
        destruct Henv as (<- & _). done.
    + split; [by eapply same_env_trans|].
      split; [by rewrite Hcold, Hst|].
      destruct Hhot as [Hsame|(hit & kv & Hr & _)]; [|discriminate].
      left. by rewrite Hsame.
Qed.

(** X3. Without cache bindings the cache manager is a no-op: [get] answers
    [null], [set] answers [true], and neither changes anything. *)
Theorem cache_without_tiers (toolName : string) (args : Obj) (d : JsVal)
    (w : World) :
  SPORTS_CACHE w = None -> SPORTS_STORAGE w = None ->
  get toolName args w = (Ok None, w)
  /\ set toolName args d w = (Ok true, w).
Proof.
  intros Hkv Hr2. split.
  - unfold get. rewrite try_catch_run, M_bind_run.
    unfold kv_get. rewrite Hkv. rewrite ask_bind_run.
    unfold try_cold. rewrite M_bind_run. unfold r2_get. by rewrite Hr2.
  - unfold set, Date_now. rewrite ask_bind_run, try_catch_run, M_bind_run.
    unfold _setHot. rewrite Hkv. cbv beta iota. rewrite M_bind_run.
    unfold _setCold. by rewrite Hr2.
Qed.

(** What [set] leaves behind when the hot tier takes the write: the hot
    record of the key, whatever the cold tier then does. *)
Lemma set_hot_state (w : World) (kv : Tier) (toolName : string) (args : Obj)
    (d : JsVal) (n : nat) :
  SPORTS_CACHE w = Some kv -> healthy (S n) kv ->
  exists b w' kv',
    set toolName args d w = (Ok b, w')
    /\ SPORTS_CACHE w' = Some kv'
    /\ store kv' =
         <[_generateKey toolName args := hot_record d (clock w)]> (store kv)
    /\ healthy n kv'
    /\ same_env w w'.
Proof.
  intros Hkv Hh. unfold set, Date_now.
  rewrite ask_bind_run, try_catch_run, M_bind_run.
  destruct (setHot_healthy w kv (_generateKey toolName args) d n Hkv Hh)
    as (kv' & -> & Hs & Hh').
  cbv beta iota. rewrite M_bind_run.
  set (w1 := with_kv (Some kv') w).
  destruct (setCold_cases (_generateKey toolName args)
              {| payload := d; timestamp := clock w;
                 tool_of := Some toolName; args_of := Some args |} w1)
    as [[_ E]|(r2 & r & r2' & _ & E & Hr)]; rewrite E.
  - exists true, w1, kv'. by repeat split.
  - destruct Hr as [(msg & -> & _)|[-> _]].
    + exists false, (with_r2 (Some r2') w1), kv'. by repeat split.
    + exists true, (with_r2 (Some r2') w1), kv'. by repeat split.
Qed.

(** X4. Read your writes. After [set], with a hot tier that takes the write
    and answers the next read, a [get] for the same tool and arguments made
    less than [hotTTL] later is a hot hit with the data that was set and the
    time elapsed as its age; this holds even when [set] answered [false]
    because the cold write failed. *)
Theorem set_then_get (w : World) (kv : Tier) (toolName : string)
    (args : Obj) (d : JsVal) (t : Z) :
  SPORTS_CACHE w = Some kv -> healthy 2 kv ->
  (t - clock w < 1000 * hotTTL w)%Z ->
  exists b w1 w2,
    set toolName args d w = (Ok b, w1)
    /\ get toolName args (at_time t w1) =
         (Ok (Some {| data := d; source := "hot"; age := t - clock w |}), w2).
Proof.
  intros Hkv Hh Ht.
  destruct (set_hot_state w kv toolName args d 1 Hkv Hh)
    as (b & w1 & kv' & Hset & Hkv' & Hs & Hh' & Henv).
  destruct (get_fresh_hot (at_time t w1) toolName args kv'
              (hot_record d (clock w))) as (w2 & Hget).
  - exact Hkv'.
  - exact Hh'.
  - rewrite Hs. apply lookup_insert_eq.
  - destruct Henv as (_ & Hhot & _). unfold fresh, hotTTL in *. simpl.
    rewrite Hhot. by apply Z.ltb_lt.
  - eauto.
Qed.

(** X5. With both tiers taking the write, [set] answers [true] and stores
    the data under the same key in both: the hot record and the cold record
    carry the same payload and the same timestamp, the cold one also the
    tool and its arguments. Nothing else changes. *)
Theorem set_writes_both_tiers (w : World) (kv r2 : Tier)
    (toolName : string) (args : Obj) (d : JsVal) :
  SPORTS_CACHE w = Some kv -> SPORTS_STORAGE w = Some r2 ->
  healthy 1 kv -> healthy 1 r2 ->
  exists kv' r2',
    set toolName args d w
      = (Ok true, with_r2 (Some r2') (with_kv (Some kv') w))
    /\ store kv' =
         <[_generateKey toolName args := hot_record d (clock w)]> (store kv)
    /\ store r2' =
         <[_generateKey toolName args :=
             cold_record toolName args d (clock w)]> (store r2).
Proof.
  intros Hkv Hr2 Hh Hc. unfold set, Date_now.
  rewrite ask_bind_run, try_catch_run, M_bind_run.
  destruct (setHot_healthy w kv (_generateKey toolName args) d 0 Hkv Hh)
    as (kv' & -> & Hs & _).
  cbv beta iota. rewrite M_bind_run.
  unfold _setCold, tier_put. simpl. rewrite Hr2.
  destruct (next_fault_healthy 0 r2 Hc) as (r2' & -> & Hs2 & _).
  eexists kv', _. split; [reflexivity|]. split; [exact Hs|].
  simpl. by rewrite Hs2.
Qed.

(** X6. [set] is not atomic, first half: when the hot write fails, [set]
    answers [false] and the cold write is never attempted, so neither tier
    holds the data. *)
Theorem set_hot_failure_skips_cold (w : World) (kv : Tier)
    (toolName : string) (args : Obj) (d : JsVal) (msg : string)
    (rest : list (option string)) :
  SPORTS_CACHE w = Some kv -> faults kv = Some msg :: rest ->
  set toolName args d w
    = (Ok false, with_kv (Some {| store := store kv; faults := rest |}) w).
Proof.
  intros Hkv Hf. unfold set, Date_now.
  rewrite ask_bind_run, try_catch_run, M_bind_run.
  unfold _setHot, tier_put, next_fault. by rewrite Hkv, Hf.
Qed.

(** X7. [set] is not atomic, second half: when the hot write succeeds (or
    there is no hot tier) and the cold write fails, [set] answers [false]
    although the hot record has been written; the cold records are as
    before. *)
Theorem set_cold_failure_keeps_hot (w : World) (r2 : Tier)
    (toolName : string) (args : Obj) (d : JsVal) (msg : string)
    (rest : list (option string)) :
  SPORTS_STORAGE w = Some r2 -> faults r2 = Some msg :: rest ->
  (forall kv, SPORTS_CACHE w = Some kv -> healthy 1 kv) ->
  (set toolName args d w).1 = Ok false
  /\ records (SPORTS_STORAGE (set toolName args d w).2) = Some (store r2)
  /\ forall kv,
       SPORTS_CACHE w = Some kv ->
       records (SPORTS_CACHE (set toolName args d w).2) =
         Some (<[_generateKey toolName args := hot_record d (clock w)]>
                 (store kv)).
Proof.
  intros Hr2 Hf Hhot. unfold set, Date_now.
  rewrite ask_bind_run, try_catch_run, M_bind_run.
  destruct (SPORTS_CACHE w) as [kv|] eqn:Hkv.
  - destruct (setHot_healthy w kv (_generateKey toolName args) d 0 Hkv
                (Hhot kv eq_refl)) as (kv' & -> & Hs & _).
    cbv beta iota. rewrite M_bind_run.
    unfold _setCold, tier_put, next_fault. simpl. rewrite Hr2, Hf. simpl.
    repeat split. intros kv0 [= <-]. by rewrite Hs.
  - unfold _setHot. rewrite Hkv. cbv beta iota. rewrite M_bind_run.
    unfold _setCold, tier_put, next_fault. rewrite Hr2, Hf. simpl.
    rewrite Hkv. by repeat split.
Qed.

Lemma shouldCache_cases (toolName : string) (args : Obj) :
  (toolName = "get_player_stats" /\ shouldCache toolName args = 60%Z)
  \/ (toolName = "get_live_game" /\ shouldCache toolName args = 5%Z)
  \/ (toolName <> "get_player_stats" /\ toolName <> "get_live_game"
      /\ (String.eqb toolName "get_live_game"
          || String.eqb toolName "get_player_stats") = false
      /\ (30 <= shouldCache toolName args <= 3600)%Z).
Proof.
  unfold shouldCache.
  destruct (String.eqb_spec toolName "get_team_info") as [->|?];
    [right; right; by repeat split|].
  destruct (String.eqb_spec toolName "get_player_stats") as [->|?];
    [by left|].
  destruct (String.eqb_spec toolName "get_team_roster") as [->|?];
    [right; right; by repeat split|].
  destruct (String.eqb_spec toolName "get_schedule") as [->|?];
    [right; right; by repeat split|].
  destruct (String.eqb_spec toolName "get_standings") as [->|?];
    [right; right; by repeat split|].
  destruct (String.eqb_spec toolName "get_live_game") as [->|?];
    [right; by left|].
  right; right. by repeat split.
Qed.

(** X8. [getSmartTTL] reads the clock and changes nothing. For a tool name
    that is not an inherited property of the rule table, its answer lies
    between 5 and the base TTL of the tool, which is at most 3600 seconds.
    The game-hours rule only ever changes [get_player_stats] (to 10
    seconds): every other tool, [get_live_game] included, gets its base
    TTL at any hour. *)
Theorem getSmartTTL_bounds (toolName : string) (args : Obj) (w : World) :
  inherited toolName = false ->
  exists ttl,
    getSmartTTL toolName args w = (Ok ttl, w)
    /\ (5 <= ttl <= shouldCache toolName args)%Z
    /\ (shouldCache toolName args <= 3600)%Z
    /\ (ttl = shouldCache toolName args
        \/ (toolName = "get_player_stats" /\ ttl = 10%Z)).
Proof.
  intros _. unfold getSmartTTL, Date_now. rewrite ask_bind_run.
  destruct (shouldCache_cases toolName args)
    as [[-> E]|[[-> E]|(_ & _ & -> & Hb)]].
  - rewrite E.
    match goal with |- context [if ?b then _ else _] => destruct b end;
      eexists; (split; [reflexivity|]); repeat split; try lia; auto.
  - rewrite E.
    match goal with |- context [if ?b then _ else _] => destruct b end;
      eexists; (split; [reflexivity|]); repeat split; try lia; auto.
  - rewrite andb_false_r. eexists. split; [reflexivity|].
    repeat split; try lia; auto.
Qed.

End CacheBehaviour.

Lemma get_hit_is_valid_witness :
  let args := [("teamId", JStr "147")] in
  let cold :=
    no_faults {[ "sports:get_team_info:teamId:147" :=
                   cold_record "get_team_info" args (JStr "Yankees") 0 ]} in
  let w := sample_world 11000 (Some (no_faults ∅)) (Some cold) [] in
  exists c,
    store cold !! _generateKey "get_team_info" args = Some c
    /\ fresh w c (coldTTL w) = true
    /\ payload c = JStr "Yankees".
Proof.
  intros args cold w.
  destruct (get_hit_is_valid "get_team_info" args w
              (get "get_team_info" args w).2
              {| data := JStr "Yankees"; source := "cold"; age := 11000 |})
    as [(kv & e & _ & _ & _ & Hhit)|(r2 & c & Hr2 & Hc & Hf & Hhit & _)].
  - vm_compute. reflexivity.
  - discriminate.
  - injection Hr2 as <-. exists c. repeat split; [exact Hc|exact Hf|].
    by injection Hhit.
Defined.

Lemma cache_without_tiers_witness :
  let w := sample_world 0 None None [] in
  get "get_standings" [] w = (Ok None, w)
  /\ set "get_standings" [] (JStr "AL East") w = (Ok true, w).
Proof.
  intros w.
  apply (cache_without_tiers "get_standings" [] (JStr "AL East") w);
    reflexivity.
Defined.

Lemma set_then_get_witness :
  let args := [("teamId", JStr "147")] in
  let failing_cold := {| store := ∅; faults := [Some "R2 put failed"] |} in
  let w := sample_world 5000 (Some (no_faults ∅)) (Some failing_cold) [] in
  exists b w1 w2,
    set "get_team_info" args (JStr "Yankees") w = (Ok b, w1)
    /\ get "get_team_info" args (at_time 14999 w1) =
         (Ok (Some {| data := JStr "Yankees"; source := "hot";
                      age := 9999 |}), w2).
Proof.
  intros args failing_cold w.
  apply (set_then_get w (no_faults ∅) "get_team_info" args (JStr "Yankees")
           14999).
  - reflexivity.
  - apply Forall_nil. exact I.
  - vm_compute. reflexivity.
Defined.

Lemma set_writes_both_tiers_witness :
  let args := [("teamId", JStr "147")] in
  let w := sample_world 5000 (Some (no_faults ∅)) (Some (no_faults ∅)) [] in
  exists kv' r2',
    set "get_team_roster" args (JStr "roster") w
      = (Ok true, with_r2 (Some r2') (with_kv (Some kv') w))
    /\ store kv' =
         <[_generateKey "get_team_roster" args :=
             hot_record (JStr "roster") 5000]> ∅
    /\ store r2' =
         <[_generateKey "get_team_roster" args :=
             cold_record "get_team_roster" args (JStr "roster") 5000]> ∅.
Proof.
  intros args w.
  apply (set_writes_both_tiers w (no_faults ∅) (no_faults ∅)
           "get_team_roster" args (JStr "roster")).
  - reflexivity.
  - reflexivity.
  - apply Forall_nil. exact I.
  - apply Forall_nil. exact I.
Defined.

Lemma set_hot_failure_skips_cold_witness :
  let failing := {| store := ∅; faults := [Some "KV put failed"] |} in
  let w := sample_world 0 (Some failing) (Some (no_faults ∅)) [] in
  set "get_schedule" [] (JStr "games") w
    = (Ok false, with_kv (Some (no_faults ∅)) w).
Proof.
  intros failing w.
  apply (set_hot_failure_skips_cold w failing "get_schedule" []
           (JStr "games") "KV put failed" []); reflexivity.
Defined.

Lemma set_cold_failure_keeps_hot_witness :
  let failing := {| store := ∅; faults := [Some "R2 put failed"] |} in
  let w := sample_world 7 (Some (no_faults ∅)) (Some failing) [] in
  (set "get_schedule" [] (JStr "games") w).1 = Ok false
  /\ records (SPORTS_STORAGE (set "get_schedule" [] (JStr "games") w).2)
     = Some ∅
  /\ records (SPORTS_CACHE (set "get_schedule" [] (JStr "games") w).2) =
       Some (<[_generateKey "get_schedule" [] := hot_record (JStr "games") 7]>
               ∅).
Proof.
  intros failing w.
  destruct (set_cold_failure_keeps_hot w failing "get_schedule" []
              (JStr "games") "R2 put failed" []) as (Hr & Hcold & Hhot).
  - reflexivity.
  - reflexivity.
  - intros kv [= <-]. apply Forall_nil. exact I.
  - split; [exact Hr|]. split; [exact Hcold|].
    apply (Hhot (no_faults ∅)). reflexivity.
Defined.

(** ** Enrichment, further *)

Lemma obj_set_keys (o : Obj) (k : string) (v : JsVal) :
  Object_keys (obj_set o k v) =
    if obj_has o k then Object_keys o else Object_keys o ++ [k].
Proof.
  unfold Object_keys, obj_has.
  induction o as [|[k' v'] o IH]; simpl; [done|].
  destruct (String.eqb_spec k' k) as [->|Hne]; simpl; [done|].
  change (list_fmap _ _ fst (obj_set o k v)) with ((obj_set o k v).*1).
  rewrite IH. by destruct (existsb _ o).
Qed.

Lemma obj_has_elem_of (o : Obj) (k : string) :
  obj_has o k = true <-> k ∈ Object_keys o.
Proof.
  unfold obj_has, Object_keys. rewrite existsb_exists, list_elem_of_fmap.
  split.
  - intros ([k' v] & Hin & E). apply String.eqb_eq in E. simpl in E. subst.
    exists (k, v). split; [done|]. by apply list_elem_of_In.
  - intros ([k' v] & -> & Hin). exists (k', v).
    split; [by apply list_elem_of_In|]. apply String.eqb_refl.
Qed.

Lemma obj_set_idem (o : Obj) (k : string) (v : JsVal) :
  obj_set (obj_set o k v) k v = obj_set o k v.
Proof.
  induction o as [|[k' v'] o IH]; simpl.
  - by rewrite String.eqb_refl.
  - destruct (String.eqb k' k) eqn:E; simpl.
    + by rewrite String.eqb_refl.
    + by rewrite E, IH.
Qed.

(** One step of enrichment either leaves the arguments alone or sets the
    key of its entity type to the resolved id, the key being falsy before. *)
Lemma enrich_entity_cases (m : gmap string JsVal) (args : Obj)
    (entityType : string) :
  enrich_entity m args entityType = args
  \/ exists key entity,
       entity_key entityType = Some key /\ m !! entityType = Some entity
       /\ truthy (obj_get args key) = false
       /\ enrich_entity m args entityType =
            obj_set args key (JStr (js_toString (prop entity "id"))).
Proof.
  unfold enrich_entity, entity_key.
  destruct (m !! entityType) as [entity|]; [|by left].
  destruct (truthy entity && truthy (prop entity "id")); [|by left].
  destruct (String.eqb entityType "team").
  - destruct (truthy (obj_get args "teamId")) eqn:T; [by left|].
    right. by exists "teamId", entity.
  - destruct (String.eqb entityType "player"); [|by left].
    destruct (truthy (obj_get args "playerId")) eqn:T; [by left|].
    right. by exists "playerId", entity.
Qed.

(** Enrichment as a whole is at most one such step. *)
Lemma enrich_cases (toolCall : ToolCall) (m : gmap string JsVal) :
  _enrichToolArguments toolCall m = arguments toolCall
  \/ exists entityType key entity,
       toolEntityMap (name toolCall) = Some [entityType]
       /\ entity_key entityType = Some key /\ m !! entityType = Some entity
       /\ truthy (obj_get (arguments toolCall) key) = false
       /\ _enrichToolArguments toolCall m =
            obj_set (arguments toolCall) key
              (JStr (js_toString (prop entity "id"))).
Proof.
  unfold _enrichToolArguments.
  destruct (toolEntityMap_cases (name toolCall)) as [E|[E|[E|E]]];
    rewrite E; simpl; try by left.
  - destruct (enrich_entity_cases m (arguments toolCall) "team")
      as [->|(key & entity & ? & ? & ? & ->)]; [by left|].
    right. by exists "team", key, entity.
  - destruct (enrich_entity_cases m (arguments toolCall) "player")
      as [->|(key & entity & ? & ? & ? & ->)]; [by left|].
    right. by exists "player", key, entity.
Qed.

(** X9. Enrichment touches nothing but the id key of the entity type its
    tool requires: every other argument reads as before (for a tool name
    that is not an inherited property of the table, as in X10 to X12). So a
    tool with no required entity keeps all its arguments, and a team tool
    never gets or loses a [playerId]. *)
Theorem enrich_touches_only_entity_key (toolCall : ToolCall)
    (m : gmap string JsVal) (k : string) :
  inherited (name toolCall) = false ->
  (forall entityType,
     entityType ∈ default [] (toolEntityMap (name toolCall)) ->
     entity_key entityType <> Some k) ->
  obj_get (_enrichToolArguments toolCall m) k
    = obj_get (arguments toolCall) k.
Proof.
  intros _ Hk.
  destruct (enrich_cases toolCall m)
    as [->|(ty & key & entity & Hreq & Hkey & _ & _ & ->)]; [done|].
  apply obj_get_set_ne. intros ->. apply (Hk ty); [|done].
  rewrite Hreq. simpl. by apply list_elem_of_singleton.
Qed.

(** X10. Enrichment keeps the arguments an object with unique keys, keeps
    the keys it finds in their order, and adds at most one key, at the end:
    the id key of the required entity, when the call did not have it. *)
Theorem enrich_keeps_keys (toolCall : ToolCall) (m : gmap string JsVal) :
  inherited (name toolCall) = false ->
  wf_obj (arguments toolCall) ->
  wf_obj (_enrichToolArguments toolCall m)
  /\ (Object_keys (_enrichToolArguments toolCall m)
        = Object_keys (arguments toolCall)
      \/ exists entityType key,
           toolEntityMap (name toolCall) = Some [entityType]
           /\ entity_key entityType = Some key
           /\ (key ∉ Object_keys (arguments toolCall))
           /\ Object_keys (_enrichToolArguments toolCall m)
                = Object_keys (arguments toolCall) ++ [key]).
Proof.
  intros _ Hwf.
  destruct (enrich_cases toolCall m)
    as [->|(ty & key & entity & Hreq & Hkey & _ & _ & ->)]; [by split; [|left]|].
  unfold wf_obj in *. rewrite obj_set_keys.
  destruct (obj_has (arguments toolCall) key) eqn:Hhas; [by split; [|left]|].
  assert (Hnot : key ∉ Object_keys (arguments toolCall)).
  { intros Hin. apply obj_has_elem_of in Hin. congruence. }
  split.
  - apply NoDup_app. split; [done|]. split; [|apply NoDup_singleton].
    intros x Hx Hx'. apply list_elem_of_singleton in Hx'. by subst.
  - right. by exists ty, key.
Qed.

(** X11. Enriching is idempotent: enriching the enriched arguments again,
    with the same resolved entities, changes nothing. *)
Theorem enrich_idempotent (toolCall : ToolCall) (m : gmap string JsVal) :
  inherited (name toolCall) = false ->
  _enrichToolArguments
    {| name := name toolCall; arguments := _enrichToolArguments toolCall m |} m
  = _enrichToolArguments toolCall m.
Proof.
  intros _. destruct toolCall as [toolName args]. simpl.
  destruct (enrich_cases {| name := toolName; arguments := args |} m)
    as [E|(ty & key & entity & Hreq & Hkey & Hent & _ & E)];
    simpl in *; rewrite E; [exact E|].
  unfold _enrichToolArguments. simpl. rewrite Hreq. simpl.
  destruct (enrich_entity_cases m
              (obj_set args key (JStr (js_toString (prop entity "id")))) ty)
    as [->|(key2 & entity2 & Hkey2 & Hent2 & _ & ->)]; [done|].
  rewrite Hkey in Hkey2. injection Hkey2 as <-.
  rewrite Hent in Hent2. injection Hent2 as <-.
  apply obj_set_idem.
Qed.

Lemma handler_enrich_entity (m : gmap string JsVal) (args : Obj)
    (entityType : string) :
  ToolHandler.enrich_entity m args entityType = enrich_entity m args entityType.
Proof.
  unfold ToolHandler.enrich_entity, enrich_entity.
  destruct (m !! entityType) as [entity|]; [|done].
  destruct (truthy entity && truthy (prop entity "id")); [|done].
  destruct (String.eqb_spec entityType "team") as [->|Hne]; simpl.
  - destruct (truthy (obj_get args "teamId")); simpl; done.
  - destruct (String.eqb entityType "player"); simpl; [|done].
    by destruct (truthy (obj_get args "playerId")).
Qed.

(** X12. The tool handler's enrichment and the orchestrator's agree on every
    call: the handler's shorter table and its [else if] make no difference,
    since the orchestrator's two extra entries require no entity. *)
Theorem handler_enrich_agrees (toolCall : ToolCall) (m : gmap string JsVal) :
  inherited (name toolCall) = false ->
  ToolHandler._enrichToolArguments toolCall m = _enrichToolArguments toolCall m.
Proof.
  intros _. unfold ToolHandler._enrichToolArguments, _enrichToolArguments.
  unfold ToolHandler.toolEntityMap, toolEntityMap.
  repeat (match goal with |- context [String.eqb ?a ?b] =>
            destruct (String.eqb a b) end;
          simpl; try apply handler_enrich_entity; try done).
Qed.

Lemma enrich_touches_only_entity_key_witness :
  obj_get (_enrichToolArguments
             (roster_call [("playerId", JStr ""); ("season", JStr "2024")])
             {[ "team" := yankees; "player" := yankees ]}) "playerId"
  = JStr "".
Proof.
  apply (enrich_touches_only_entity_key
           (roster_call [("playerId", JStr ""); ("season", JStr "2024")])
           {[ "team" := yankees; "player" := yankees ]} "playerId");
    [reflexivity|].
  intros ty Hty. simpl in Hty. apply list_elem_of_singleton in Hty.
  subst ty. discriminate.
Defined.

Lemma enrich_keeps_keys_witness :
  wf_obj (_enrichToolArguments (roster_call [("season", JStr "2024")])
            {[ "team" := yankees ]}).
Proof.
  apply (enrich_keeps_keys (roster_call [("season", JStr "2024")])
           {[ "team" := yankees ]}); [reflexivity|].
  apply NoDup_singleton.
Defined.

Lemma enrich_idempotent_witness :
  let once :=
    _enrichToolArguments (roster_call [("teamId", JStr "")])
      {[ "team" := yankees ]} in
  once = [("teamId", JStr "147")]
  /\ _enrichToolArguments (roster_call once) {[ "team" := yankees ]} = once.
Proof.
  intros once. split; [reflexivity|].
  apply (enrich_idempotent (roster_call [("teamId", JStr "")])
           {[ "team" := yankees ]}).
  reflexivity.
Defined.

Lemma handler_enrich_agrees_witness :
  let call :=
    {| name := "get_standings"; arguments := [("season", JStr "2024")] |} in
  ToolHandler._enrichToolArguments call {[ "team" := yankees ]}
  = _enrichToolArguments call {[ "team" := yankees ]}.
Proof.
  intros call.
  apply (handler_enrich_agrees call {[ "team" := yankees ]}). reflexivity.
Defined.

(** ** Requests to the service *)

Lemma commandMap_listed (toolName : string) :
  inherited toolName = false ->
  (toolName ∈ Orchestrator.sportTools_mlb
   /\ is_Some (Orchestrator.commandMap toolName))
  \/ ((toolName ∉ Orchestrator.sportTools_mlb)
      /\ Orchestrator.commandMap toolName = None
      /\ toolEntityMap toolName = None /\ isResolver toolName = false).
Proof.
  intros Hown.
  unfold Orchestrator.commandMap, Orchestrator.sportTools_mlb, toolEntityMap,
    isResolver.
  repeat (match goal with
          | |- context [String.eqb toolName (String ?a ?b)] =>
              destruct (String.eqb_spec toolName (String a b)) as [->|?]
          end;
          [first [discriminate Hown
                 |left; split;
                  [apply list_elem_of_In; simpl; auto 10|by eexists]]|]).
  rewrite Hown. right. split; [|done].
  intros Hin%list_elem_of_In. simpl in Hin. intuition congruence.
Qed.

Section RoutingProperties.
Context `{Host}.

(** The call of the service binding with a request, as [_routeToolCall]
    makes it. *)
Lemma routeToolCall_fetch (toolName : string) (args : Obj) (w : World)
    (mcpService : Remote) (command : JsVal) :
  MLB_MCP w = Some mcpService ->
  Orchestrator.commandMap toolName = Some command ->
  Orchestrator._routeToolCall toolName args w =
    ((mcp_fetch (Orchestrator._buildMCPRequest command args) mcpService).1,
     with_remote
       (Some (mcp_fetch (Orchestrator._buildMCPRequest command args)
                mcpService).2) w).
Proof.
  intros Hmcp Hcmd. unfold Orchestrator._routeToolCall.
  rewrite Hmcp, Hcmd. by destruct (mcp_fetch _ _).
Qed.

(** X13. The tool menu, the routing table and the enrichment table agree.
    With no service bound, every call fails with [MLB MCP service not
    available] before the table is read. For a tool name that is not an
    inherited property of the table: the name is routable exactly when the
    MLB menu lists it; with the service bound, any other name is rejected
    with [Unknown tool] and the service is not called; every resolver and
    every tool with an enrichment rule is routable. Under an inherited
    name the table answers with a truthy property and the service is
    called, with empty [params]. *)
Theorem routable_iff_listed (toolName : string) :
  (forall args w,
     MLB_MCP w = None ->
     Orchestrator._routeToolCall toolName args w
       = (Throw "MLB MCP service not available", w))
  /\ (inherited toolName = false ->
      (toolName ∈ Orchestrator.sportTools_mlb
       <-> is_Some (Orchestrator.commandMap toolName))
      /\ ((toolName ∉ Orchestrator.sportTools_mlb) ->
          forall args w mcpService,
            MLB_MCP w = Some mcpService ->
            Orchestrator._routeToolCall toolName args w
              = (Throw ("Unknown tool: " +:+ toolName), w))
      /\ (is_Some (toolEntityMap toolName) \/ isResolver toolName = true ->
          toolName ∈ Orchestrator.sportTools_mlb))
  /\ (inherited toolName = true ->
      forall args w mcpService,
        MLB_MCP w = Some mcpService ->
        exists request,
          prop request "params" = JObj []
          /\ Orchestrator._routeToolCall toolName args w =
               ((mcp_fetch request mcpService).1,
                with_remote (Some (mcp_fetch request mcpService).2) w)).
Proof.
  split; [|split].
  - intros args w Hmcp. unfold Orchestrator._routeToolCall. by rewrite Hmcp.
  - intros Hown.
    destruct (commandMap_listed toolName Hown)
      as [[Hin Hsome]|(Hnot & Hnone & Hent & Hres)].
    + split; [done|]. split; [done|]. done.
    + split; [|split].
      * rewrite Hnone. split; [done|]. by intros [? ?].
      * intros _ args w mcpService Hmcp.
        unfold Orchestrator._routeToolCall. by rewrite Hmcp, Hnone.
      * rewrite Hent, Hres. intros [[? ?]|?]; done.
  - intros Hinh args w mcpService Hmcp.
    assert (Hcmd : exists command,
              Orchestrator.commandMap toolName = Some command
              /\ prop (Orchestrator._buildMCPRequest command args) "params"
                 = JObj []).
    { unfold Orchestrator.commandMap.
      repeat (match goal with
              | |- context [String.eqb toolName (String ?a ?b)] =>
                  destruct (String.eqb_spec toolName (String a b)) as [->|?]
              end; [first [discriminate Hinh|by eexists]|]).
      rewrite Hinh. by eexists. }
    destruct Hcmd as (command & Hcmd & Hparams).
    exists (Orchestrator._buildMCPRequest command args).
    split; [exact Hparams|]. by apply routeToolCall_fetch.
Qed.

(** The second loop on a single call. *)
Lemma enrich_pass_single (c : ToolCall) (m : gmap string JsVal)
    (results : list ExecutionResult) (w : World) :
  isResolver (name c) = false ->
  Orchestrator.enrich_pass [c] m results w =
    (Ok (results ++ [outcome (name c) (Some true) (run_enriched m c w).1]),
     (run_enriched m c w).2).
Proof.
  intros Hres. simpl. rewrite Hres. change (negb false) with true. cbv iota.
  rewrite M_bind_run. by rewrite enrich_step_run.
Qed.

(** X14. In the second loop of [_processToolCalls] the team resolved in the
    first loop is the team the service is asked about. With a resolved team
    whose id is truthy, a roster, team-info or schedule call is executed
    with the enriched arguments, whose [teamId] is the caller's own when
    that is truthy and else the resolved id as a string; and whenever the
    execution reaches the bound service, the request handed to it carries
    that value as the [teamId] path parameter of a roster request and,
    when it is truthy, as the [teamId] path parameter of a team-info
    request and the [teamId] query parameter of a schedule request. *)
Theorem resolved_team_reaches_request (c : ToolCall)
    (m : gmap string JsVal) (entity : JsVal)
    (results : list ExecutionResult) (w : World) :
  m !! "team" = Some entity -> truthy (prop entity "id") = true ->
  name c ∈ ["get_team_roster"; "get_team_info"; "get_schedule"] ->
  let teamId :=
    if truthy (obj_get (arguments c) "teamId")
    then obj_get (arguments c) "teamId"
    else JStr (js_toString (prop entity "id")) in
  let enrichedArgs := _enrichToolArguments c m in
  Orchestrator.enrich_pass [c] m results w =
    (Ok (results ++
         [outcome (name c) (Some true)
            (Orchestrator._executeSingleTool (name c) enrichedArgs w).1]),
     (Orchestrator._executeSingleTool (name c) enrichedArgs w).2)
  /\ obj_get enrichedArgs "teamId" = teamId
  /\ forall w1 mcpService,
       MLB_MCP w1 = Some mcpService ->
       exists request,
         Orchestrator._routeToolCall (name c) enrichedArgs w1 =
           ((mcp_fetch request mcpService).1,
            with_remote (Some (mcp_fetch request mcpService).2) w1)
         /\ (name c = "get_team_roster" ->
             prop (prop (prop request "params") "pathParams") "teamId"
             = teamId)
         /\ (name c = "get_team_info" -> truthy teamId = true ->
             prop (prop (prop request "params") "pathParams") "teamId"
             = teamId)
         /\ (name c = "get_schedule" -> truthy teamId = true ->
             prop (prop (prop request "params") "queryParams") "teamId"
             = teamId).
Proof.
  intros Hent Hid Hname teamId enrichedArgs.
  assert (Hreq : toolEntityMap (name c) = Some ["team"]
                 /\ isResolver (name c) = false
                 /\ inherited (name c) = false).
  { apply list_elem_of_In in Hname. simpl in Hname.
    destruct Hname as [<-|[<-|[<-|[]]]]; done. }
  destruct Hreq as (Hreq & Hres & Hown).
  assert (Henr : obj_get enrichedArgs "teamId" = teamId).
  { unfold enrichedArgs, _enrichToolArguments. rewrite Hreq. simpl.
    by rewrite (enrich_entity_key m _ "team" "teamId" entity). }
  split; [|split; [exact Henr|]].
  - rewrite (enrich_pass_single c m results w Hres).
    unfold run_enriched. by rewrite Hown.
  - intros w1 mcpService Hmcp.
    apply list_elem_of_In in Hname. simpl in Hname.
    destruct Hname as [Hn|[Hn|[Hn|[]]]].
    + exists (Orchestrator._buildMCPRequest (JStr "getRoster") enrichedArgs).
      split; [apply routeToolCall_fetch; [exact Hmcp|by rewrite <- Hn]|].
      rewrite <- Hn. split; [|split]; try discriminate. intros _. exact Henr.
    + exists (Orchestrator._buildMCPRequest (JStr "getTeamInfo") enrichedArgs).
      split; [apply routeToolCall_fetch; [exact Hmcp|by rewrite <- Hn]|].
      rewrite <- Hn. split; [|split]; try discriminate.
      intros _ Ht. rewrite <- Henr in Ht |- *. cbn. by rewrite Ht.
    + exists (Orchestrator._buildMCPRequest (JStr "getSchedule") enrichedArgs).
      split; [apply routeToolCall_fetch; [exact Hmcp|by rewrite <- Hn]|].
      rewrite <- Hn. split; [|split]; try discriminate.
      intros _ Ht. rewrite <- Henr in Ht |- *. cbn.
      unfold Orchestrator.when_truthy. rewrite Ht.
      by destruct (truthy (obj_get enrichedArgs "date")).
Qed.

(** X15. In the second loop of [_processToolCalls] the player resolved in
    the first loop is the player whose statistics are requested. With a
    resolved player whose id is truthy, a [get_player_stats] call is
    executed with the enriched arguments, whose [playerId] is the caller's
    own when that is truthy and else the resolved id as a string; and
    whenever the execution reaches the bound service, the request handed
    to it carries that value as its [playerId] path parameter. *)
Theorem resolved_player_reaches_request (c : ToolCall)
    (m : gmap string JsVal) (entity : JsVal)
    (results : list ExecutionResult) (w : World) :
  m !! "player" = Some entity -> truthy (prop entity "id") = true ->
  name c = "get_player_stats" ->
  let playerId :=
    if truthy (obj_get (arguments c) "playerId")
    then obj_get (arguments c) "playerId"
    else JStr (js_toString (prop entity "id")) in
  let enrichedArgs := _enrichToolArguments c m in
  Orchestrator.enrich_pass [c] m results w =
    (Ok (results ++
         [outcome (name c) (Some true)
            (Orchestrator._executeSingleTool (name c) enrichedArgs w).1]),
     (Orchestrator._executeSingleTool (name c) enrichedArgs w).2)
  /\ obj_get enrichedArgs "playerId" = playerId
  /\ forall w1 mcpService,
       MLB_MCP w1 = Some mcpService ->
       exists request,
         Orchestrator._routeToolCall (name c) enrichedArgs w1 =
           ((mcp_fetch request mcpService).1,
            with_remote (Some (mcp_fetch request mcpService).2) w1)
         /\ prop (prop (prop request "params") "pathParams") "playerId"
            = playerId.
Proof.
  intros Hent Hid Hname playerId enrichedArgs.
  assert (Henr : obj_get enrichedArgs "playerId" = playerId).
  { unfold enrichedArgs, _enrichToolArguments. rewrite Hname. simpl.
    by rewrite (enrich_entity_key m _ "player" "playerId" entity). }
  split; [|split; [exact Henr|]].
  - rewrite (enrich_pass_single c m results w) by by rewrite Hname.
    unfold run_enriched. by rewrite Hname.
  - intros w1 mcpService Hmcp.
    exists (Orchestrator._buildMCPRequest (JStr "getPlayerStats") enrichedArgs).
    split; [apply routeToolCall_fetch; [exact Hmcp|by rewrite Hname]|].
    exact Henr.
Qed.

End RoutingProperties.

Lemma routable_iff_listed_witness :
  let w := sample_world 0 None None [Ok (JStr "sunny")] in
  @Orchestrator._routeToolCall sample_host "get_weather" [] w
    = (Throw "Unknown tool: get_weather", w)
  /\ @Orchestrator._routeToolCall sample_host "constructor" [] w
     = (Ok (JStr "sunny"), @with_remote sample_host (Some []) w).
Proof.
  intros w.
  destruct (@routable_iff_listed sample_host "get_weather")
    as (_ & Hown & _).
  destruct (Hown eq_refl) as (_ & Hunknown & _).
  split.
  - apply (Hunknown ltac:(intros Hin%list_elem_of_In; simpl in Hin;
                            intuition discriminate) [] w
             [Ok (JStr "sunny")] eq_refl).
  - destruct (@routable_iff_listed sample_host "constructor")
      as (_ & _ & Hinh).
    destruct (Hinh eq_refl [] w [Ok (JStr "sunny")] eq_refl)
      as (request & _ & Hrun).
    exact Hrun.
Defined.

Lemma resolved_team_reaches_request_witness :
  let c := roster_call [("season", JStr "2024")] in
  let w := sample_world 0 None None [Ok (JStr "roster")] in
  @Orchestrator.enrich_pass sample_host [c] {[ "team" := yankees ]} [] w
    = (Ok [succeeded "get_team_roster" (JStr "roster") (Some true)],
       @with_remote sample_host (Some []) w)
  /\ exists request,
       prop (prop (prop request "params") "pathParams") "teamId" = JStr "147"
       /\ @Orchestrator._routeToolCall sample_host "get_team_roster"
            (_enrichToolArguments c {[ "team" := yankees ]}) w
          = ((@mcp_fetch sample_host request [Ok (JStr "roster")]).1,
             @with_remote sample_host
               (Some (@mcp_fetch sample_host request
                        [Ok (JStr "roster")]).2) w).
Proof.
  intros c w.
  destruct (@resolved_team_reaches_request sample_host c
              {[ "team" := yankees ]} yankees [] w)
    as (Hpass & _ & Hroute);
    [reflexivity|reflexivity|apply list_elem_of_here|].
  split; [rewrite Hpass; reflexivity|].
  destruct (Hroute w [Ok (JStr "roster")] eq_refl)
    as (request & Hrun & Hroster & _).
  exists request. split; [by apply Hroster|exact Hrun].
Defined.

Lemma resolved_player_reaches_request_witness :
  let c := {| name := "get_player_stats"; arguments := [] |} in
  let judge := JObj [("id", JNum 592450)] in
  let w := sample_world 0 None None [Ok (JStr "stats")] in
  exists request,
    prop (prop (prop request "params") "pathParams") "playerId"
    = JStr "592450"
    /\ @Orchestrator._routeToolCall sample_host "get_player_stats"
         (_enrichToolArguments c {[ "player" := judge ]}) w
       = ((@mcp_fetch sample_host request [Ok (JStr "stats")]).1,
          @with_remote sample_host
            (Some (@mcp_fetch sample_host request [Ok (JStr "stats")]).2) w).
Proof.
  intros c judge w.
  destruct (@resolved_player_reaches_request sample_host c
              {[ "player" := judge ]} judge [] w)
    as (_ & _ & Hroute); [reflexivity|reflexivity|reflexivity|].
  destruct (Hroute w [Ok (JStr "stats")] eq_refl) as (request & Hrun & Hid).
  exists request. split; [exact Hid|exact Hrun].
Defined.

(** ** Sport detection *)

(** The loop of [_detectSport] over any table: either no entry beats the
    initial count, or the answer is the first entry that reaches the
    largest count. *)
Lemma detect_fold (inputText : string) (table : list (string * list string))
    (init : nat * string) :
  let best := foldl (Orchestrator.detect_step inputText) init table in
  (best = init
   /\ forall entry, entry ∈ table ->
        (Orchestrator.count_matches inputText entry.2 <= init.1)%nat)
  \/ exists before patterns after,
       table = before ++ (best.2, patterns) :: after
       /\ best.1 = Orchestrator.count_matches inputText patterns
       /\ (init.1 < best.1)%nat
       /\ (forall entry, entry ∈ before ->
             (Orchestrator.count_matches inputText entry.2 < best.1)%nat)
       /\ (forall entry, entry ∈ after ->
             (Orchestrator.count_matches inputText entry.2 <= best.1)%nat).
Proof.
  revert init. induction table as [|[s p] rest IH]; intros init best.
  - left. split; [done|]. intros entry Hin. by apply elem_of_nil in Hin.
  - subst best. cbn [foldl].
    assert (Hstep : Orchestrator.detect_step inputText init (s, p) =
              if (init.1 <? Orchestrator.count_matches inputText p)%nat
              then (Orchestrator.count_matches inputText p, s) else init)
      by reflexivity.
    rewrite Hstep. clear Hstep.
    destruct (Nat.ltb_spec init.1 (Orchestrator.count_matches inputText p))
      as [Hlt|Hge].
    + specialize (IH (Orchestrator.count_matches inputText p, s)).
      cbv zeta in IH. cbn [fst snd] in IH.
      destruct IH
        as [[E Hall]|(before & patterns & after & Htab & Hb & Hi & Hbef & Haft)];
        right.
      * rewrite E. exists [], p, rest. cbn [fst snd].
        split; [done|]. split; [done|]. split; [done|]. split; [|done].
        intros entry Hin. by apply elem_of_nil in Hin.
      * exists ((s, p) :: before), patterns, after.
        split; [simpl; by f_equal|]. split; [done|]. split; [lia|].
        split; [|done].
        intros entry [->|Hin]%elem_of_cons; [done|by apply Hbef].
    + specialize (IH init). cbv zeta in IH.
      destruct IH
        as [[E Hall]|(before & patterns & after & Htab & Hb & Hi & Hbef & Haft)].
      * left. split; [done|].
        intros entry [->|Hin]%elem_of_cons; [done|by apply Hall].
      * right. exists ((s, p) :: before), patterns, after.
        split; [simpl; by f_equal|]. split; [done|]. split; [done|].
        split; [|done].
        intros entry [->|Hin]%elem_of_cons; [simpl; lia|by apply Hbef].
Qed.

Section DetectionProperties.
Context `{Host}.

(** X16. Sport detection. For an input whose text can be read, the detected
    sport is the first one, in the order mlb, nfl, nba, whose number of
    matching patterns is the largest; the confidence is 0.8 when at least
    one pattern matches and 0.3 otherwise, when the answer is [mlb]. The
    tool menu built from the answer is the MLB menu for [mlb] and empty
    for [nfl] and [nba]. *)
Theorem detectSport_spec (input : JsVal) (inputText : string) :
  Orchestrator.inputText_of input = Ok inputText ->
  exists d before patterns after,
    Orchestrator._detectSport input = Ok d
    /\ Orchestrator.sportPatterns
       = before ++ (Orchestrator.sport d, patterns) :: after
    /\ (forall entry, entry ∈ before ->
          (Orchestrator.count_matches inputText entry.2
           < Orchestrator.count_matches inputText patterns)%nat)
    /\ (forall entry, entry ∈ after ->
          (Orchestrator.count_matches inputText entry.2
           <= Orchestrator.count_matches inputText patterns)%nat)
    /\ (if (0 <? Orchestrator.count_matches inputText patterns)%nat
        then Orchestrator.confidence d = Qmake 8 10
        else Orchestrator.sport d = "mlb"
             /\ Orchestrator.confidence d = Qmake 3 10)
    /\ Orchestrator._buildFilteredTools (Orchestrator.sport d)
         (Orchestrator.confidence d) =
         if String.eqb (Orchestrator.sport d) "mlb"
         then Orchestrator.sportTools_mlb else [].
Proof.
  intros Htext. unfold Orchestrator._detectSport. rewrite Htext.
  rewrite Res_bind_Ok. cbv zeta.
  destruct (detect_fold inputText Orchestrator.sportPatterns (0%nat, "mlb"))
    as [[E Hall]|(before & patterns & after & Htab & Hb & Hi & Hbef & Haft)].
  - rewrite E. cbn [fst snd] in *.
    eexists _, [], _, _. split; [reflexivity|]. cbn [Orchestrator.sport].
    split; [reflexivity|].
    assert (Hzero : forall entry, entry ∈ Orchestrator.sportPatterns ->
              Orchestrator.count_matches inputText entry.2 = 0%nat).
    { intros entry Hin. apply Hall in Hin. lia. }
    pose proof (Hzero _ (list_elem_of_here _ _)) as H0. cbn [snd] in H0.
    rewrite H0.
    split; [intros entry Hin; by apply elem_of_nil in Hin|].
    split; [|by repeat split].
    intros entry Hin. rewrite Hzero; [done|].
    by apply list_elem_of_further.
  - set (best := foldl _ _ _) in *. cbn [fst snd] in Hi.
    eexists _, before, patterns, after. split; [reflexivity|].
    cbn [Orchestrator.sport Orchestrator.confidence].
    split; [exact Htab|]. rewrite <- Hb.
    split; [exact Hbef|]. split; [exact Haft|].
    apply Nat.ltb_lt in Hi. rewrite Hi. split; [done|].
    assert (Hin : (best.2, patterns) ∈ Orchestrator.sportPatterns).
    { rewrite Htab. apply elem_of_app. right. apply list_elem_of_here. }
    apply list_elem_of_In in Hin. simpl in Hin.
    destruct Hin as [[= <- _]|[[= <- _]|[[= <- _]|[]]]]; reflexivity.
Qed.

End DetectionProperties.

Lemma detectSport_spec_witness :
  exists d,
    @Orchestrator._detectSport sample_host
      (JStr "Did the Lakers or the Celtics win the NBA playoffs?") = Ok d
    /\ Orchestrator.sport d = "nba"
    /\ Orchestrator._buildFilteredTools (Orchestrator.sport d)
         (Orchestrator.confidence d) = [].
Proof.
  destruct (@detectSport_spec sample_host
              (JStr "Did the Lakers or the Celtics win the NBA playoffs?")
              "did the lakers or the celtics win the nba playoffs?" eq_refl)
    as (d & before & patterns & after & Hd & _ & _ & _ & _ & Hmenu).
  exists d. vm_compute in Hd. injection Hd as <-.
  split; [reflexivity|]. split; [reflexivity|]. exact Hmenu.
Defined.

(** ** Tool execution *)

Section ExecutionProperties.
Context `{Host}.

Lemma get_same_env (toolName : string) (args : Obj) (w : World) :
  same_env w (get toolName args w).2.
Proof.
  destruct (get_cases toolName args w)
    as (w1 & Henv & _ & _ & [E|[(kv & e & _ & _ & _ & E)|[_ E]]]);
    rewrite E; try done.
  destruct (try_cold_cases (_generateKey toolName args) w1) as (Henv2 & _).
  destruct (try_cold (_generateKey toolName args) w1) as [[r|msg] w2];
    by eapply same_env_trans.
Qed.

(** A miss leaves the records of both tiers as they were. *)
Lemma get_miss_records (toolName : string) (args : Obj) (w w1 : World) :
  get toolName args w = (Ok None, w1) ->
  records (SPORTS_CACHE w1) = records (SPORTS_CACHE w)
  /\ records (SPORTS_STORAGE w1) = records (SPORTS_STORAGE w).
Proof.
  intros Hget.
  destruct (get_cases toolName args w)
    as (w0 & _ & Hst & Hrec & [E|[(kv & e & _ & _ & _ & E)|[_ E]]]);
    rewrite E in Hget.
  - injection Hget as <-. by rewrite Hst.
  - discriminate.
  - destruct (try_cold_cases (_generateKey toolName args) w0)
      as (_ & Hcold & Hhot).
    destruct (try_cold (_generateKey toolName args) w0) as [[r|msg] w2];
      simpl in *.
    + injection Hget as -> <-. rewrite Hcold, Hst. split; [|done].
      destruct Hhot as [->|(hit & kv & Hr & _)]; [done|discriminate].
    + injection Hget as <-. rewrite Hcold, Hst. split; [|done].
      destruct Hhot as [->|(hit & kv & Hr & _)]; [done|discriminate].
Qed.

Lemma with_remote_same (w : World) : with_remote (MLB_MCP w) w = w.
Proof. by destruct w. Qed.

(** [_routeToolCall] touches nothing but the service binding. *)
Lemma routeToolCall_run (toolName : string) (args : Obj) (w : World) :
  exists r remote',
    Orchestrator._routeToolCall toolName args w = (r, with_remote remote' w).
Proof.
  unfold Orchestrator._routeToolCall.
  destruct (MLB_MCP w) as [mcpService|] eqn:E.
  - destruct (Orchestrator.commandMap toolName) as [command|].
    + destruct (mcp_fetch _ mcpService) as [r mcpService']. eauto.
    + eexists _, (Some mcpService). rewrite <- E.
      by rewrite with_remote_same.
  - eexists _, None. rewrite <- E. by rewrite with_remote_same.
Qed.

Lemma route_and_normalize_run (toolName : string) (args : Obj) (w : World) :
  exists r remote',
    Orchestrator.route_and_normalize toolName args w
      = (r, with_remote remote' w).
Proof.
  unfold Orchestrator.route_and_normalize. rewrite M_bind_run.
  destruct (routeToolCall_run toolName args w) as ([raw|msg] & remote' & ->);
    [|eauto].
  unfold lift. eauto.
Qed.

(** X17. [callTool] never throws: it answers with a result whose [isError]
    flag is set exactly when routing or normalisation threw, and the only
    part of the world it touches is the service binding. *)
Theorem callTool_never_throws (toolName : string) (args : Obj) (w : World) :
  exists r remote',
    Orchestrator.callTool toolName args w = (Ok r, with_remote remote' w)
    /\ (isError r = true <->
        exists msg,
          (Orchestrator.route_and_normalize toolName args w).1 = Throw msg).
Proof.
  unfold Orchestrator.callTool. rewrite try_catch_run, M_bind_run.
  destruct (route_and_normalize_run toolName args w)
    as ([v|msg] & remote' & ->).
  - eexists _, remote'. split; [reflexivity|]. simpl.
    split; [done|]. by intros [? ?].
  - eexists _, remote'. split; [reflexivity|]. simpl. split; eauto.
Qed.

Lemma callTool_run (toolName : string) (args : Obj) (w : World) :
  exists r remote',
    Orchestrator.callTool toolName args w = (Ok r, with_remote remote' w).
Proof.
  unfold Orchestrator.callTool. rewrite try_catch_run, M_bind_run.
  destruct (route_and_normalize_run toolName args w)
    as ([v|msg] & remote' & ->); simpl; eauto.
Qed.

(** X18. When the cache answers, the service is not contacted: the
    execution returns the cached data and leaves the service binding as it
    was. *)
Theorem execute_hit_skips_service (toolName : string) (args : Obj)
    (w w1 : World) (hit : CacheHit) :
  get toolName args w = (Ok (Some hit), w1) ->
  Orchestrator._executeSingleTool toolName args w = (Ok (data hit), w1)
  /\ MLB_MCP w1 = MLB_MCP w.
Proof.
  intros Hget. unfold Orchestrator._executeSingleTool.
  rewrite M_bind_run, Hget. split; [done|].
  pose proof (get_same_env toolName args w) as Henv. rewrite Hget in Henv.
  by destruct Henv as (_ & _ & _ & ? & _).
Qed.

(** X19. A failed execution caches nothing: whenever [_executeSingleTool]
    throws, the records of the hot tier and of the cold tier are what they
    were before the call. *)
Theorem execute_failure_caches_nothing (toolName : string) (args : Obj)
    (w w' : World) (msg : string) :
  Orchestrator._executeSingleTool toolName args w = (Throw msg, w') ->
  records (SPORTS_CACHE w') = records (SPORTS_CACHE w)
  /\ records (SPORTS_STORAGE w') = records (SPORTS_STORAGE w).
Proof.
  unfold Orchestrator._executeSingleTool. rewrite M_bind_run.
  destruct (get_never_throws toolName args w) as (cached & w1 & Hget).
  rewrite Hget. destruct cached as [hit|]; [discriminate|].
  apply get_miss_records in Hget as [Hhot Hcold].
  rewrite M_bind_run.
  destruct (callTool_run toolName args w1) as (r & remote' & ->).
  destruct (isError r); simpl.
  - intros [= _ <-]. done.
  - unfold lift at 1. rewrite M_bind_run.
    destruct (JSON_parse (default "undefined" (text r))) as [parsed|msg'].
    + rewrite M_bind_run.
      destruct (getSmartTTL_run toolName args (with_remote remote' w1))
        as (ttl & ->).
      rewrite M_bind_run.
      destruct (set_run toolName args parsed (with_remote remote' w1))
        as (b & w3 & ->).
      discriminate.
    + intros [= _ <-]. done.
Qed.

Lemma try_cold_hot_reliable (key : string) (w : World) (kv : Tier) :
  SPORTS_CACHE w = Some kv -> faults kv = [] ->
  exists kv', SPORTS_CACHE (try_cold key w).2 = Some kv' /\ faults kv' = [].
Proof.
  intros Hkv Hf. unfold try_cold. rewrite M_bind_run.
  assert (Hget : exists r r2o, r2_get key w = (r, with_r2 r2o w)).
  { unfold r2_get. destruct (SPORTS_STORAGE w) as [r2|] eqn:Er2.
    - destruct (tier_get r2 key) as [r t']. eauto.
    - exists (Ok None), None. f_equal. destruct w. simpl in *. by subst. }
  destruct Hget as (r & r2o & ->).
  destruct r as [[c|]|msg]; simpl; eauto.
  rewrite ask_bind_run, isValid_bind_run.
  destruct (fresh _ c _); simpl; eauto.
  rewrite M_bind_run. unfold _setHot, tier_put, next_fault. simpl.
  rewrite Hkv, Hf. simpl. eauto.
Qed.

Lemma get_hot_reliable (toolName : string) (args : Obj) (w : World)
    (kv : Tier) :
  SPORTS_CACHE w = Some kv -> faults kv = [] ->
  exists kv',
    SPORTS_CACHE (get toolName args w).2 = Some kv' /\ faults kv' = [].
Proof.
  intros Hkv Hf. unfold get. rewrite try_catch_run, M_bind_run.
  unfold kv_get, tier_get, next_fault. rewrite Hkv, Hf.
  set (w1 := with_kv (Some kv) w). rewrite ask_bind_run.
  destruct (try_cold_hot_reliable (_generateKey toolName args) w1 kv)
    as (kv' & Hkv' & Hf'); [done|done|].
  destruct (store kv !! _generateKey toolName args) as [e|].
  - rewrite isValid_bind_run. destruct (fresh w1 e (hotTTL w1)).
    + simpl. eauto.
    + destruct (try_cold _ w1) as [[?|?] ?]; simpl in *; eauto.
  - destruct (try_cold _ w1) as [[?|?] ?]; simpl in *; eauto.
Qed.

(** X20. Caching works end to end. With a hot tier that does not fail,
    an execution that missed the cache and fetched its result from the
    service leaves that result cached: the same execution repeated less
    than [hotTTL] later returns the same value without contacting the
    service. *)
Theorem execute_twice_hits_cache (toolName : string) (args : Obj)
    (w w0 w1 : World) (kv : Tier) (v : JsVal) :
  SPORTS_CACHE w = Some kv -> faults kv = [] ->
  get toolName args w = (Ok None, w0) ->
  Orchestrator._executeSingleTool toolName args w = (Ok v, w1) ->
  forall t,
    (t - clock w < 1000 * hotTTL w)%Z ->
    exists w2,
      Orchestrator._executeSingleTool toolName args (at_time t w1)
        = (Ok v, w2)
      /\ MLB_MCP w2 = MLB_MCP w1.
Proof.
  intros Hkv Hf Hget Hexec t Ht.
  destruct (get_hot_reliable toolName args w kv Hkv Hf) as (kv0 & Hkv0 & Hf0).
  pose proof (get_same_env toolName args w) as Henv0.
  rewrite Hget in Hkv0, Henv0. simpl in Hkv0, Henv0.
  unfold Orchestrator._executeSingleTool in Hexec.
  rewrite M_bind_run, Hget, M_bind_run in Hexec.
  destruct (callTool_run toolName args w0) as (r & remote' & Ecall).
  rewrite Ecall in Hexec.
  destruct (isError r); simpl in Hexec; [discriminate|].
  unfold lift at 1 in Hexec. rewrite M_bind_run in Hexec.
  destruct (JSON_parse (default "undefined" (text r))) as [parsed|msg'];
    [|discriminate].
  set (w2 := with_remote remote' w0) in *.
  rewrite M_bind_run in Hexec.
  destruct (getSmartTTL_run toolName args w2) as (ttl & Ettl).
  rewrite Ettl, M_bind_run in Hexec.
  destruct (set_hot_state w2 kv0 toolName args parsed 1)
    as (b & w3 & kv' & Hset & Hkv' & Hs & Hh' & Henv); [done| |].
  { unfold healthy. rewrite Hf0. apply Forall_nil. exact I. }
  rewrite Hset in Hexec. injection Hexec as <- <-.
  destruct (get_fresh_hot (at_time t w3) toolName args kv'
              (hot_record parsed (clock w2))) as (w4 & Hget2).
  - exact Hkv'.
  - exact Hh'.
  - rewrite Hs. apply lookup_insert_eq.
  - destruct Henv as (_ & Hhot & _). destruct Henv0 as (Hclock & Hhot0 & _).
    unfold fresh, hotTTL in *. simpl in *. rewrite Hhot, Hhot0, Hclock.
    by apply Z.ltb_lt.
  - exists w4. unfold Orchestrator._executeSingleTool.
    rewrite M_bind_run, Hget2. split; [done|].
    pose proof (get_same_env toolName args (at_time t w3)) as Henv2.
    rewrite Hget2 in Henv2. by destruct Henv2 as (_ & _ & _ & ? & _).
Qed.

End ExecutionProperties.

Lemma execute_hit_skips_service_witness :
  let args := [("teamId", JStr "147")] in
  let hot :=
    no_faults {[ _generateKey "get_team_roster" args :=
                   hot_record (JStr "roster") 0 ]} in
  let w := sample_world 9000 (Some hot) None [] in
  (Orchestrator._executeSingleTool "get_team_roster" args w).1
  = Ok (JStr "roster").
Proof.
  intros args hot w.
  destruct (execute_hit_skips_service "get_team_roster" args w
              (get "get_team_roster" args w).2
              {| data := JStr "roster"; source := "hot"; age := 9000 |})
    as [-> _]; [vm_compute; reflexivity|reflexivity].
Defined.

Lemma execute_failure_caches_nothing_witness :
  let w :=
    sample_world 0 (Some (no_faults ∅)) (Some (no_faults ∅))
      [Throw "MCP service error: 500 - down"] in
  records (SPORTS_CACHE (Orchestrator._executeSingleTool "get_standings" [] w).2)
  = Some ∅.
Proof.
  intros w.
  destruct (execute_failure_caches_nothing "get_standings" [] w
              (Orchestrator._executeSingleTool "get_standings" [] w).2
              "[object Object]") as [Hhot _]; [vm_compute; reflexivity|].
  exact Hhot.
Defined.

Lemma execute_twice_hits_cache_witness :
  let args := [("teamId", JStr "147")] in
  let w := sample_world 0 (Some (no_faults ∅)) None [Ok (JStr "roster")] in
  let first := Orchestrator._executeSingleTool "get_team_roster" args w in
  exists w2,
    Orchestrator._executeSingleTool "get_team_roster" args
      (at_time 9999 first.2) = (Ok (JStr "roster"), w2)
    /\ MLB_MCP w2 = Some [].
Proof.
  intros args w first.
  apply (execute_twice_hits_cache "get_team_roster" args w
           (get "get_team_roster" args w).2 first.2 (no_faults ∅)
           (JStr "roster")).
  - reflexivity.
  - reflexivity.
  - vm_compute. reflexivity.
  - vm_compute. reflexivity.
  - vm_compute. reflexivity.
Defined.

(** ** The resolve/enrich pipeline, further *)

Lemma last_resolved_cons (ty : string) (r : ExecutionResult)
    (rs : list ExecutionResult) :
  last_resolved ty (r :: rs) =
    match last_resolved ty rs with
    | Some v => Some v
    | None => last_resolved ty [r]
    end.
Proof.
  unfold last_resolved. cbn [foldl].
  generalize (match result r with
              | Some v =>
                  if success r && String.eqb (entity_of_resolver (tool r)) ty
                     && truthy v && truthy (prop v "id")
                  then Some v else None
              | None => None
              end).
  induction rs as [|r' rs IH] using rev_ind; intros acc.
  - by destruct acc.
  - rewrite !foldl_app. cbn [foldl]. rewrite IH.
    destruct (result r') as [v|]; [|done].
    by destruct (success r' && String.eqb (entity_of_resolver (tool r')) ty
                 && truthy v && truthy (prop v "id")).
Qed.

Section ResolutionProperties.
Context `{Host}.

Lemma resolve_pass_last (toolCalls : list ToolCall) :
  forall (results : list ExecutionResult) (m : gmap string JsVal) (w : World),
  exists rs m' w',
    Orchestrator.resolve_pass toolCalls results m w
      = (Ok (results ++ rs, m'), w')
    /\ forall ty,
         m' !! ty = match last_resolved ty rs with
                    | Some v => Some v
                    | None => m !! ty
                    end.
Proof.
  induction toolCalls as [|c rest IH]; intros results m w.
  - exists [], m, w. rewrite app_nil_r. by split.
  - simpl. destruct (isResolver (name c)) eqn:Hres; [|apply IH].
    rewrite M_bind_run, try_catch_run, M_bind_run.
    destruct (Orchestrator._executeSingleTool (name c) (arguments c) w)
      as [[r|msg] w1]; cbv beta iota.
    + set (ok := succeeded (name c) r None).
      destruct (truthy r && truthy (prop r "id")) eqn:Hid.
      * destruct (IH (results ++ [ok])
                    (<[entity_of_resolver (name c) := r]> m) w1)
          as (rs & m' & w' & Hrun & Hm).
        exists (ok :: rs), m', w'. rewrite <- app_assoc in Hrun.
        split; [exact Hrun|]. intros ty. rewrite Hm, last_resolved_cons.
        destruct (last_resolved ty rs); [done|].
        unfold last_resolved. simpl. rewrite <- andb_assoc, Hid, andb_true_r.
        destruct (String.eqb_spec (entity_of_resolver (name c)) ty) as [->|Hne].
        -- by rewrite lookup_insert_eq.
        -- by rewrite lookup_insert_ne.
      * destruct (IH (results ++ [ok]) m w1) as (rs & m' & w' & Hrun & Hm).
        exists (ok :: rs), m', w'. rewrite <- app_assoc in Hrun.
        split; [exact Hrun|]. intros ty. rewrite Hm, last_resolved_cons.
        destruct (last_resolved ty rs); [done|].
        unfold last_resolved. simpl. by rewrite <- andb_assoc, Hid, andb_false_r.
    + set (ko := failed (name c) msg).
      destruct (IH (results ++ [ko]) m w1) as (rs & m' & w' & Hrun & Hm).
      exists (ko :: rs), m', w'. rewrite <- app_assoc in Hrun.
      split; [exact Hrun|]. intros ty. rewrite Hm, last_resolved_cons.
      by destruct (last_resolved ty rs).
Qed.

(** X21. Last resolved wins. The first loop of [_processToolCalls] never
    throws, and the map it hands to the second loop holds, for each entity
    type, the result of the last resolver of that type that succeeded with
    a truthy [id]; a type with no such outcome has no entry. *)
Theorem resolve_pass_last_wins (toolCalls : list ToolCall) (w : World) :
  exists rs m w',
    Orchestrator.resolve_pass toolCalls [] ∅ w = (Ok (rs, m), w')
    /\ forall ty, m !! ty = last_resolved ty rs.
Proof.
  destruct (resolve_pass_last toolCalls [] ∅ w) as (rs & m & w' & Hrun & Hm).
  exists rs, m, w'. split; [exact Hrun|]. intros ty. rewrite Hm.
  rewrite lookup_empty. by destruct (last_resolved ty rs).
Qed.

End ResolutionProperties.

(** ** Extraction, further *)

Lemma find_includes_first (inputText : string) (patterns : list string) :
  some_includes inputText patterns = true ->
  exists before p after,
    patterns = before ++ p :: after
    /\ Forall (fun q => includes inputText q = false) before
    /\ includes inputText p = true
    /\ find_includes inputText patterns = JStr p.
Proof.
  unfold some_includes, find_includes.
  induction patterns as [|q rest IH]; simpl; [discriminate|].
  destruct (includes inputText q) eqn:Hq; simpl.
  - intros _. by exists [], q, rest.
  - intros Hrest. destruct (IH Hrest) as (before & p & after & -> & Hb & Hp & Hf).
    exists (q :: before), p, after. repeat split; try done.
    by constructor.
Qed.

Section ExtractionShape.
Context `{Host}.

(** The three parts of a non-empty extraction. *)
Lemma extract_parts (input : JsVal) (tools : list JsVal)
    (calls : list ToolCall) :
  Orchestrator._extractToolCalls input tools = Ok calls ->
  calls = []
  \/ exists inputText team player action,
       Orchestrator.inputText_of input = Ok inputText
       /\ calls = team ++ player ++ action
       /\ (team = []
           \/ some_includes inputText Orchestrator.entityPatterns_teams = true
              /\ Orchestrator.has_tool tools "resolve_team" = true
              /\ team = [resolver_call "resolve_team"
                           (find_includes inputText
                              Orchestrator.entityPatterns_teams)])
       /\ (player = []
           \/ some_includes inputText Orchestrator.entityPatterns_players = true
              /\ Orchestrator.has_tool tools "resolve_player" = true
              /\ player = [resolver_call "resolve_player"
                             (find_includes inputText
                                Orchestrator.entityPatterns_players)])
       /\ (action = []
           \/ exists toolName,
                toolName ∈ ["get_team_roster"; "get_team_info";
                            "get_player_stats"]
                /\ Orchestrator.has_tool tools toolName = true
                /\ action = [intent_call toolName]).
Proof.
  unfold Orchestrator._extractToolCalls.
  destruct tools as [|t tools']; [intros [= <-]; by left|].
  remember (t :: tools') as tl eqn:Htl. clear Htl.
  destruct (Orchestrator.inputText_of input) as [inputText|msg];
    [|discriminate].
  rewrite Res_bind_Ok. cbv beta zeta.
  remember (some_includes inputText Orchestrator.entityPatterns_teams)
    as hasTeam eqn:HT.
  remember (some_includes inputText Orchestrator.entityPatterns_players)
    as hasPlayer eqn:HP.
  remember (Orchestrator.has_tool tl "resolve_team") as dT eqn:HdT.
  remember (Orchestrator.has_tool tl "resolve_player") as dP eqn:HdP.
  remember (Orchestrator.has_tool tl "get_team_roster") as dR eqn:HdR.
  remember (Orchestrator.has_tool tl "get_team_info") as dI eqn:HdI.
  remember (Orchestrator.has_tool tl "get_player_stats") as dS eqn:HdS.
  remember (some_includes inputText intentPatterns_roster) as iR eqn:HiR.
  remember (some_includes inputText intentPatterns_team_info) as iI eqn:HiI.
  remember (some_includes inputText intentPatterns_stats) as iS eqn:HiS.
  destruct (hasTeam || hasPlayer); [|intros [= <-]; by left].
  intros [= <-]. right. eexists inputText, _, _, _.
  split; [reflexivity|]. split; [reflexivity|]. split; [|split].
  - destruct hasTeam, dT; simpl; auto.
  - destruct hasPlayer, dP; simpl; auto.
  - destruct iR, dR; simpl;
      try (right; exists "get_team_roster";
           split; [apply list_elem_of_In; simpl; auto|done]);
      destruct iI, dI; simpl;
      try (right; exists "get_team_info";
           split; [apply list_elem_of_In; simpl; auto|done]);
      destruct iS, dS, hasPlayer; simpl; auto;
      right; exists "get_player_stats";
      (split; [apply list_elem_of_In; simpl; auto|done]).
Qed.

(** X22. What the orchestrator's extraction can produce, for declared tools
    whose [name] can be read. It calls only tools the caller declared; all
    resolver calls come before the data call; there is at most one call per
    resolver and at most one data call, so at most three calls, with
    distinct names; and every call is one the routing table knows. *)
Theorem extract_calls_shape (input : JsVal) (tools : list JsVal)
    (calls : list ToolCall) :
  readable tools ->
  Orchestrator._extractToolCalls input tools = Ok calls ->
  Forall (fun c => Orchestrator.has_tool tools (name c) = true) calls
  /\ calls = resolver_calls calls ++ data_calls calls
  /\ (length (data_calls calls) <= 1)%nat
  /\ (length calls <= 3)%nat
  /\ NoDup (map name calls)
  /\ Forall (fun c => is_Some (Orchestrator.commandMap (name c))) calls.
Proof.
  intros _ Hcalls.
  destruct (extract_parts input tools calls Hcalls)
    as [->|(inputText & team & player & action & _ & -> & Ht & Hp & Ha)].
  { repeat split; try done; simpl; try lia. constructor. }
  destruct Ht as [->|(_ & Ht & ->)]; destruct Hp as [->|(_ & Hp & ->)];
    destruct Ha as [->|(toolName & Hin & Ha & ->)];
    try (apply list_elem_of_In in Hin; simpl in Hin;
         destruct Hin as [<-|[<-|[<-|[]]]]);
    (split; [repeat constructor; done|]);
    (split; [reflexivity|]);
    (split; [simpl; lia|]);
    (split; [simpl; lia|]);
    (split; [|repeat constructor; by eexists]);
    simpl; repeat (apply NoDup_cons; split;
                   [intros Hx%list_elem_of_In; simpl in Hx;
                    intuition discriminate|]);
    apply NoDup_nil; exact I.
Qed.

(** X23. The arguments of extracted calls, for declared tools whose [name]
    can be read. A resolver call carries, as its
    [name], the first pattern of its list, in declaration order, that occurs
    in the lower-cased text; a data call carries no arguments at all. *)
Theorem extract_call_arguments (input : JsVal) (tools : list JsVal)
    (calls : list ToolCall) (c : ToolCall) :
  readable tools ->
  Orchestrator._extractToolCalls input tools = Ok calls ->
  c ∈ calls ->
  if isResolver (name c)
  then exists inputText before p after,
         Orchestrator.inputText_of input = Ok inputText
         /\ (if String.eqb (name c) "resolve_team"
             then Orchestrator.entityPatterns_teams
             else Orchestrator.entityPatterns_players)
            = before ++ p :: after
         /\ Forall (fun q => includes inputText q = false) before
         /\ includes inputText p = true
         /\ arguments c = [("name", JStr p)]
  else arguments c = [].
Proof.
  intros _ Hcalls Hin.
  destruct (extract_parts input tools calls Hcalls)
    as [->|(inputText & team & player & action & Htext & -> & Ht & Hp & Ha)].
  { by apply elem_of_nil in Hin. }
  apply elem_of_app in Hin as [Hin|Hin]; [|apply elem_of_app in Hin as [Hin|Hin]].
  - destruct Ht as [->|(Hsome & _ & ->)]; [by apply elem_of_nil in Hin|].
    apply list_elem_of_singleton in Hin as ->. simpl.
    destruct (find_includes_first _ _ Hsome)
      as (before & p & after & Hpat & Hb & Hp' & ->).
    by exists inputText, before, p, after.
  - destruct Hp as [->|(Hsome & _ & ->)]; [by apply elem_of_nil in Hin|].
    apply list_elem_of_singleton in Hin as ->. simpl.
    destruct (find_includes_first _ _ Hsome)
      as (before & p & after & Hpat & Hb & Hp' & ->).
    by exists inputText, before, p, after.
  - destruct Ha as [->|(toolName & Hn & _ & ->)]; [by apply elem_of_nil in Hin|].
    apply list_elem_of_singleton in Hin as ->. simpl.
    apply list_elem_of_In in Hn. simpl in Hn.
    by destruct Hn as [<-|[<-|[<-|[]]]].
Qed.

End ExtractionShape.

Lemma extract_calls_shape_witness :
  let tools := map tool_def ["resolve_team"; "resolve_player";
                             "get_player_stats"; "get_team_roster"] in
  exists calls,
    @Orchestrator._extractToolCalls sample_host
      (JStr "Show me Judge's stats and the Yankees roster") tools = Ok calls
    /\ map name calls = ["resolve_team"; "resolve_player"; "get_team_roster"]
    /\ calls = resolver_calls calls ++ data_calls calls.
Proof.
  intros tools. eexists. split; [vm_compute; reflexivity|].
  split; [reflexivity|].
  refine (proj1 (proj2 (@extract_calls_shape sample_host
            (JStr "Show me Judge's stats and the Yankees roster") tools _ _ _))).
  - repeat constructor.
  - vm_compute. reflexivity.
Defined.

Lemma extract_call_arguments_witness :
  let tools := map tool_def ["resolve_team"; "get_team_roster"] in
  exists inputText before p after,
    @Orchestrator.inputText_of sample_host
      (JStr "Compare the Mets and the Yankees roster") = Ok inputText
    /\ Orchestrator.entityPatterns_teams = before ++ p :: after
    /\ Forall (fun q => includes inputText q = false) before
    /\ includes inputText p = true
    /\ arguments (resolver_call "resolve_team" (JStr "yankees"))
       = [("name", JStr p)].
Proof.
  intros tools.
  apply (@extract_call_arguments sample_host
           (JStr "Compare the Mets and the Yankees roster") tools
           [resolver_call "resolve_team" (JStr "yankees");
            intent_call "get_team_roster"]
           (resolver_call "resolve_team" (JStr "yankees"))).
  - repeat constructor.
  - vm_compute. reflexivity.
  - apply list_elem_of_here.
Defined.

(** ** Token estimates and memories *)

Lemma ceil_quarter_bounds (n : nat) :
  (4 * ceil_quarter n - 4 < Z.of_nat n <= 4 * ceil_quarter n)%Z.
Proof.
  unfold ceil_quarter.
  pose proof (Qle_ceiling (Qmake (Z.of_nat n) 4)) as Hle.
  pose proof (Qceiling_lt (Qmake (Z.of_nat n) 4)) as Hlt.
  unfold Qle in Hle. unfold Qlt in Hlt. simpl in Hle, Hlt. lia.
Qed.

(** X24. The token estimate of a non-empty text is its length divided by
    four, rounded up: the least [n] with [length <= 4 * n]; a falsy value
    counts zero. An array is measured by its number of elements, not by its
    text; an object by its own [length] property when that is a number,
    and an object without one gives [NaN], as does every other truthy
    value. *)
Theorem estimateTokens_spec (v : JsVal) :
  match v with
  | JStr s =>
      exists n, _estimateTokens v = Some n
                /\ (4 * n - 4 < Z.of_nat (String.length s) <= 4 * n)%Z
  | JArr items =>
      exists n, _estimateTokens v = Some n
                /\ (4 * n - 4 < Z.of_nat (length items) <= 4 * n)%Z
  | JObj o =>
      match obj_get o "length" with
      | JNum len =>
          exists n, _estimateTokens v = Some n
                    /\ (4 * n - 4 < len <= 4 * n)%Z
      | JUndefined => _estimateTokens v = None
      | _ => True
      end
  | _ => _estimateTokens v = if truthy v then None else Some 0%Z
  end.
Proof.
  destruct v as [| |b|n|s|items|o]; unfold _estimateTokens; simpl;
    try done.
  - by destruct b.
  - by destruct (n =? 0)%Z.
  - destruct (String.eqb_spec s "") as [->|Hne]; simpl.
    + exists 0%Z. split; [done|]. simpl. lia.
    + eexists. split; [reflexivity|]. apply ceil_quarter_bounds.
  - eexists. split; [reflexivity|]. apply ceil_quarter_bounds.
  - destruct (obj_get o "length") as [| |b|len|s|items|o']; try done.
    simpl. eexists. split; [reflexivity|].
    pose proof (Qle_ceiling (Qmake len 4)) as Hle.
    pose proof (Qceiling_lt (Qmake len 4)) as Hlt.
    unfold Qle in Hle. unfold Qlt in Hlt. simpl in Hle, Hlt. lia.
Qed.

(** X25. Memories become system messages only. A value that is not an array
    gives no message; an array of readable values, even an empty one, gives
    the system context first and then at most one message per memory, each
    with role [system] and a text content. *)
Theorem memories_become_system_messages (memories : JsVal) :
  readable_memories memories ->
  Forall (fun msg => prop msg "role" = JStr "system"
                     /\ exists s, prop msg "content" = JStr s)
    (_convertMemoriesToSystemMessages memories)
  /\ match memories with
     | JArr items =>
         head (_convertMemoriesToSystemMessages memories)
           = Some (message (JStr "system") (JStr system_context))
         /\ (length (_convertMemoriesToSystemMessages memories)
             <= 1 + length items)%nat
     | _ => _convertMemoriesToSystemMessages memories = []
     end.
Proof.
  intros _.
  destruct memories as [| |b|n|s|items|o]; try (split; [constructor|done]).
  unfold _convertMemoriesToSystemMessages. split.
  - constructor; [split; [done|by eexists]|].
    induction items as [|memory rest IH]; simpl; [constructor|].
    apply Forall_app. split; [|exact IH].
    destruct (_ && _); repeat constructor. by eexists.
  - split; [done|]. simpl. apply le_n_S.
    induction items as [|memory rest IH]; simpl; [done|].
    rewrite length_app. destruct (_ && _); simpl; lia.
Qed.

Section MemoryProperties.
Context `{Host}.

Lemma system_messages_not_user (memories : JsVal) :
  filter (fun msg => is_str (prop msg "role") "user" = true)
    (_convertMemoriesToSystemMessages memories) = [].
Proof.
  destruct memories as [| |b|n|s|items|o]; try done.
  unfold _convertMemoriesToSystemMessages. rewrite filter_cons_False by done.
  induction items as [|memory rest IH]; simpl; [done|].
  rewrite filter_app, IH, app_nil_r.
  destruct (_ && _); [|done]. by rewrite filter_cons_False.
Qed.

(** X26. For a text input the contextual reply does not depend on the
    (readable) memories or on whether the conversation is new: the reply
    built from the processed input is the reply built from the text
    alone. *)
Theorem contextual_reply_ignores_memories (s : string)
    (memories previous_response_id : JsVal) :
  readable_memories memories ->
  _generateContextualResponse
    (Orchestrator._processInputWithMemories (JStr s) memories
       previous_response_id)
  = _generateContextualResponse (JStr s).
Proof.
  intros _. unfold Orchestrator._processInputWithMemories.
  destruct (truthy previous_response_id); [done|].
  unfold _generateContextualResponse.
  rewrite filter_app, system_messages_not_user. reflexivity.
Qed.

End MemoryProperties.

Lemma memories_become_system_messages_witness :
  let memories :=
    JArr [JObj [("key", JStr "favorite_team"); ("value", JStr "Yankees")];
          JObj [("key", JStr "empty"); ("value", JStr "")]] in
  _convertMemoriesToSystemMessages memories =
    [message (JStr "system") (JStr system_context);
     message (JStr "system") (JStr "USER_MEMORY: favorite_team = Yankees")]
  /\ Forall (fun msg => prop msg "role" = JStr "system"
                        /\ exists s, prop msg "content" = JStr s)
       (_convertMemoriesToSystemMessages memories).
Proof.
  intros memories. split; [reflexivity|].
  refine (proj1 (memories_become_system_messages memories _)).
  repeat constructor.
Defined.

Lemma contextual_reply_ignores_memories_witness :
  @_generateContextualResponse
    (@Orchestrator._processInputWithMemories sample_host (JStr "Hello there")
       (JArr [JObj [("key", JStr "help"); ("value", JStr "me")]]) JUndefined)
  = Ok greeting_response.
Proof.
  refine (eq_trans
            (@contextual_reply_ignores_memories sample_host "Hello there"
               (JArr [JObj [("key", JStr "help"); ("value", JStr "me")]])
               JUndefined _) _).
  - repeat constructor.
  - reflexivity.
Defined.


(** ** Streaming, further *)

Section StreamingBehaviour.
Context `{Host}.

Lemma write_ok (e : Event) (w : World) :
  wfaults (writer w) = [] ->
  Orchestrator.writer_write e w =
    (Ok tt, with_writer {| ops := ops (writer w) ++ [Chunk e];
                           wfaults := [] |} w).
Proof. intros Hf. unfold Orchestrator.writer_write. by rewrite Hf. Qed.

Lemma close_ok (w : World) :
  wfaults (writer w) = [] ->
  Orchestrator.writer_close w =
    (Ok tt, with_writer {| ops := ops (writer w) ++ [Close];
                           wfaults := [] |} w).
Proof. intros Hf. unfold Orchestrator.writer_close. by rewrite Hf. Qed.

Lemma for_of_words_ok (words : list string) (w : World) :
  wfaults (writer w) = [] ->
  exists w',
    Orchestrator.for_of words
      (fun word =>
         Orchestrator.writer_write (response_output_text_delta (word +:+ " ")))
      w = (Ok tt, w')
    /\ writer w' =
         {| ops := ops (writer w) ++
                   map (fun word =>
                          Chunk (response_output_text_delta (word +:+ " ")))
                       words;
            wfaults := [] |}.
Proof.
  revert w. induction words as [|word rest IH]; intros w Hf.
  - exists w. split; [done|]. simpl. rewrite app_nil_r.
    destruct (writer w). simpl in *. by subst.
  - cbn [Orchestrator.for_of]. rewrite M_bind_run, (write_ok _ w Hf).
    destruct (IH (with_writer
                    {| ops := ops (writer w) ++
                              [Chunk (response_output_text_delta (word +:+ " "))];
                       wfaults := [] |} w) eq_refl) as (w' & Hrun & Hw).
    exists w'. split; [exact Hrun|]. rewrite Hw. simpl.
    by rewrite <- app_assoc.
Qed.

(** X27. A streaming run that finds no tool call, on a writer that does not
    fail, writes exactly: [response.created] with the request's id and
    time, [response.in_progress], one text delta per word of the default
    reply, [response.completed] with the same id, and then closes the
    stream. *)
Theorem streaming_without_tools (responseId : string) (input : JsVal)
    (tools : list JsVal) (w : World) :
  Orchestrator._extractToolCalls input tools = Ok [] ->
  wfaults (writer w) = [] ->
  let run := Orchestrator._processStreamingRequest responseId input tools w in
  run.1 = Ok tt
  /\ writer run.2 =
       {| ops := ops (writer w) ++
                 [Chunk (response_created responseId (clock w));
                  Chunk response_in_progress] ++
                 map (fun word =>
                        Chunk (response_output_text_delta (word +:+ " ")))
                     (split_space default_response) ++
                 [Chunk (response_completed responseId); Close];
          wfaults := [] |}.
Proof.
  intros Hcalls Hf run.
  enough (Hrun : exists w',
            run = (Ok tt, w')
            /\ writer w' =
                 {| ops := ops (writer w) ++
                           [Chunk (response_created responseId (clock w));
                            Chunk response_in_progress] ++
                           map (fun word =>
                                  Chunk (response_output_text_delta
                                           (word +:+ " ")))
                               (split_space default_response) ++
                           [Chunk (response_completed responseId); Close];
                    wfaults := [] |})
    by (destruct Hrun as (w' & Hr & Hw); rewrite Hr; by split).
  subst run.
  unfold Orchestrator._processStreamingRequest, try_finally.
  rewrite try_catch_run.
  unfold Orchestrator.stream_body, Date_now. rewrite ask_bind_run.
  rewrite M_bind_run, (write_ok _ w Hf).
  set (w1 := with_writer _ w).
  rewrite M_bind_run, (write_ok _ w1 eq_refl).
  set (w2 := with_writer _ w1).
  rewrite M_bind_run. unfold lift at 1. rewrite Hcalls. cbv beta iota.
  rewrite M_bind_run.
  unfold Orchestrator.stream_words.
  destruct (for_of_words_ok (split_space default_response) w2 eq_refl)
    as (w3 & -> & Hw3).
  assert (Hf3 : wfaults (writer w3) = []) by by rewrite Hw3.
  rewrite (write_ok _ w3 Hf3).
  rewrite close_ok by reflexivity.
  eexists. split; [reflexivity|].
  cbn [writer with_writer ops wfaults]. rewrite Hw3. f_equal.
  cbn [writer with_writer ops wfaults w1 w2]. rewrite <- !app_assoc.
  cbn [app]. reflexivity.
Qed.

(** X28. In a streaming run a tool failure is terminal. When the first
    tool call throws, on a writer that does not fail, the stream holds
    [response.created], [response.in_progress], the [tool_call] event,
    a [response.error] carrying the message, and the close: no
    [tool_result], no [response.completed], and the remaining calls are
    not attempted. *)
Theorem streaming_tool_failure (responseId : string) (input : JsVal)
    (tools : list JsVal) (w w' : World) (c : ToolCall) (rest : list ToolCall)
    (msg : string) :
  Orchestrator._extractToolCalls input tools = Ok (c :: rest) ->
  wfaults (writer w) = [] ->
  Orchestrator._executeSingleTool (name c) (arguments c)
    (with_writer
       {| ops := ops (writer w) ++
                 [Chunk (response_created responseId (clock w));
                  Chunk response_in_progress;
                  Chunk (tool_call (name c) (arguments c))];
          wfaults := [] |} w) = (Throw msg, w') ->
  let run := Orchestrator._processStreamingRequest responseId input tools w in
  run.1 = Ok tt
  /\ writer run.2 =
       {| ops := ops (writer w) ++
                 [Chunk (response_created responseId (clock w));
                  Chunk response_in_progress;
                  Chunk (tool_call (name c) (arguments c));
                  Chunk (response_error msg); Close];
          wfaults := [] |}
  /\ MLB_MCP run.2 = MLB_MCP w'.
Proof.
  intros Hcalls Hf Hexec run.
  enough (Hrun : exists w'',
            run = (Ok tt, w'')
            /\ writer w'' =
                 {| ops := ops (writer w) ++
                           [Chunk (response_created responseId (clock w));
                            Chunk response_in_progress;
                            Chunk (tool_call (name c) (arguments c));
                            Chunk (response_error msg); Close];
                    wfaults := [] |}
            /\ MLB_MCP w'' = MLB_MCP w')
    by (destruct Hrun as (w'' & Hr & Hw & Hm); rewrite Hr; by repeat split).
  subst run.
  pose proof (frames_executeSingleTool (name c) (arguments c)) as Hfr.
  unfold frames_writer in Hfr.
  match type of Hexec with _ ?w0 = _ => specialize (Hfr w0) end.
  rewrite Hexec in Hfr. cbn [fst snd writer with_writer] in Hfr.
  unfold Orchestrator._processStreamingRequest, try_finally.
  rewrite try_catch_run.
  unfold Orchestrator.stream_body, Date_now. rewrite ask_bind_run.
  rewrite M_bind_run, (write_ok _ w Hf).
  set (w1 := with_writer _ w).
  rewrite M_bind_run, (write_ok _ w1 eq_refl).
  set (w2 := with_writer _ w1).
  rewrite M_bind_run. unfold lift at 1. rewrite Hcalls. cbv beta iota.
  rewrite M_bind_run.
  cbn [Orchestrator.for_of]. rewrite M_bind_run, M_bind_run.
  rewrite (write_ok _ w2 eq_refl).
  set (w3 := with_writer _ w2).
  assert (E3 : w3 = with_writer
                      {| ops := ops (writer w) ++
                           [Chunk (response_created responseId (clock w));
                            Chunk response_in_progress;
                            Chunk (tool_call (name c) (arguments c))];
                         wfaults := [] |} w).
  { unfold w3, w2, w1, with_writer.
    cbn [writer ops wfaults clock CACHE_TTL_HOT CACHE_TTL_COLD SPORTS_CACHE
           SPORTS_STORAGE MLB_MCP].
    rewrite <- !app_assoc. cbn [app]. reflexivity. }
  rewrite M_bind_run, E3, Hexec.
  assert (Hf' : wfaults (writer w') = []) by by rewrite Hfr.
  rewrite (write_ok _ w' Hf').
  rewrite close_ok by reflexivity.
  eexists. split; [reflexivity|]. split; [|reflexivity].
  cbn [writer with_writer ops wfaults]. rewrite Hfr. f_equal.
  cbn [ops]. rewrite <- !app_assoc. cbn [app]. reflexivity.
Qed.

End StreamingBehaviour.

Lemma getSmartTTL_bounds_witness :
  getSmartTTL "get_player_stats" []
    (sample_world (20 * 3600000) None None [])
  = (Ok 10%Z, sample_world (20 * 3600000) None None []).
Proof.
  destruct (getSmartTTL_bounds "get_player_stats" []
              (sample_world (20 * 3600000) None None []) eq_refl)
    as (ttl & Hrun & _ & _ & Hcase).
  rewrite Hrun. vm_compute in Hrun. by injection Hrun as <-.
Defined.

Lemma streaming_without_tools_witness :
  let run :=
    @Orchestrator._processStreamingRequest sample_host "resp_1"
      (JStr "What is the weather?") [tool_def "get_standings"]
      (sample_world 1000 None None []) in
  run.1 = Ok tt /\ last (ops (writer run.2)) = Some Close.
Proof.
  intros run.
  destruct (@streaming_without_tools sample_host "resp_1"
              (JStr "What is the weather?") [tool_def "get_standings"]
              (sample_world 1000 None None []) eq_refl eq_refl) as [Hr Hw].
  split; [exact Hr|]. fold run in Hw. rewrite Hw. reflexivity.
Defined.

Lemma streaming_tool_failure_witness :
  let run :=
    @Orchestrator._processStreamingRequest sample_host "resp_1"
      (JStr "Yankees roster")
      [tool_def "resolve_team"; tool_def "get_team_roster"]
      (sample_world 1000 None None [Throw "down"; Ok (JStr "roster")]) in
  ops (writer run.2) =
    [Chunk (response_created "resp_1" 1000); Chunk response_in_progress;
     Chunk (tool_call "resolve_team" [("name", JStr "yankees")]);
     Chunk (response_error "[object Object]"); Close]
  /\ MLB_MCP run.2 = Some [Ok (JStr "roster")].
Proof.
  intros run.
  destruct (@streaming_tool_failure sample_host "resp_1"
              (JStr "Yankees roster")
              [tool_def "resolve_team"; tool_def "get_team_roster"]
              (sample_world 1000 None None [Throw "down"; Ok (JStr "roster")])
              (with_writer
                 {| ops := [Chunk (response_created "resp_1" 1000);
                            Chunk response_in_progress;
                            Chunk (tool_call "resolve_team"
                                     [("name", JStr "yankees")])];
                    wfaults := [] |}
                 (sample_world 1000 None None [Ok (JStr "roster")]))
              (resolver_call "resolve_team" (JStr "yankees"))
              [intent_call "get_team_roster"] "[object Object]"
              eq_refl eq_refl eq_refl) as (_ & Hw & Hremote).
  fold run in Hw, Hremote. rewrite Hw, Hremote. split; reflexivity.
Defined.
